(** * scoutfs block allocation and file block mapping

    A shallow embedding of [src/buddy.c] (the dual-view buddy allocator and
    the bitmap allocator of its own metadata blocks) and of the block
    mapping half of [src/filerw.c], with the properties the specification
    states about them.

    Integers are [Z] with the C wrap-around written out, bitmaps are [Z]
    read with [Z.testbit], block contents live in the state record and
    every function that the C code runs against the mounted volume takes
    the volume state and returns the new one next to its result. *)

From Stdlib Require Import ZArith Lia List Bool.
From stdpp Require Import base gmap list.

Local Open Scope Z_scope.
Set Default Proof Using "Type".

(** ** C integers *)

Definition u8 (x : Z) : Z := x mod 2 ^ 8.
Definition u32 (x : Z) : Z := x mod 2 ^ 32.
Definition u64 (x : Z) : Z := x mod 2 ^ 64.
(** conversion to [int]; the kernel is built with wrapping signed overflow *)
Definition s32 (x : Z) : Z := (x + 2 ^ 31) mod 2 ^ 32 - 2 ^ 31.

Definition INT_MAX : Z := 2 ^ 31 - 1.
Definition U64_MAX : Z := 2 ^ 64 - 1.

(** ** Error numbers and results *)

Inductive errno : Set := EIO | ENOSPC | EINVAL | ENOENT | EEXIST | ENOMEM.

Global Instance errno_eq_dec : EqDecision errno.
Proof. solve_decision. Defined.

(** What a call produces: a value, a negative errno, a [BUG_ON] that
    fired, or a loop of the model that used up its iteration bound. *)
Inductive res (A : Type) : Type :=
| Ok (a : A)
| Err (e : errno)
| Bug
| Spin.
Arguments Ok {A} a.
Arguments Err {A} e.
Arguments Bug {A}.
Arguments Spin {A}.

(** hand a failure on to the caller *)
Definition fail {A B : Type} (r : res A) : res B :=
  match r with
  | Err e => Err e
  | Spin => Spin
  | _ => Bug
  end.

(** ** Kernel bit operations on little-endian bitmaps

    Modelled from the spec: the kernel's bitmap helpers are not part of
    the repository.  Bit [nr] of a little-endian bitmap is bit [nr] of the
    number the bitmap's bytes spell. *)

Definition test_bit_le (nr : Z) (addr : Z) : bool := Z.testbit addr nr.
Definition set_bit_le (nr : Z) (addr : Z) : Z := Z.setbit addr nr.
Definition clear_bit_le (nr : Z) (addr : Z) : Z := Z.clearbit addr nr.

(** number of trailing zero bits *)
Fixpoint ctz (p : positive) : Z :=
  match p with
  | xO q => 1 + ctz q
  | _ => 0
  end.

(** [find_next_bit_le addr size offset]: the lowest set bit at or after
    [offset] and below [size], or [size] when there is none. *)
Definition find_next_bit_le (addr size offset : Z) : Z :=
  if size <=? offset then size
  else
    match Z.shiftr addr offset with
    | Z0 => size
    | Zpos p | Zneg p => Z.min size (offset + ctz p)
    end.

(** [fls64 x]: the position of the highest set bit counted from 1, 0 for 0 *)
Definition fls64 (x : Z) : Z := if x <=? 0 then 0 else Z.log2 x + 1.

(** ** On-disk format constants

    [format.h] is not among the sources: its constants are parameters of
    the development.  [ffs64_zero] is what [__ffs64] yields for 0, which
    the kernel leaves unspecified. *)

Class format : Type := {
  SCOUTFS_BUDDY_ORDERS : Z;
  SCOUTFS_BUDDY_ORDER0_BITS : Z;
  SCOUTFS_BUDDY_SLOTS : Z;
  SCOUTFS_BUDDY_BM_BLKNO : Z;
  SCOUTFS_BUDDY_BM_NR : Z;
  SCOUTFS_BLOCK_MAP_SHIFT : Z;
  SCOUTFS_BMAP_KEY : Z;
  ffs64_zero : Z
}.

Definition SCOUTFS_BLOCK_MAP_COUNT `{format} : Z := Z.shiftl 1 SCOUTFS_BLOCK_MAP_SHIFT.
Definition SCOUTFS_BLOCK_MAP_MASK `{format} : Z := SCOUTFS_BLOCK_MAP_COUNT - 1.

(** The geometry of the specification's scenarios: five orders, 32768
    order 0 bits in a buddy block, 256 slots, sixteen blocks in a map
    item.  The bitmap region starts behind the two super blocks. *)
Definition scenario_format : format := {|
  SCOUTFS_BUDDY_ORDERS := 5;
  SCOUTFS_BUDDY_ORDER0_BITS := 32768;
  SCOUTFS_BUDDY_SLOTS := 256;
  SCOUTFS_BUDDY_BM_BLKNO := 18;
  SCOUTFS_BUDDY_BM_NR := 2;
  SCOUTFS_BLOCK_MAP_SHIFT := 4;
  SCOUTFS_BMAP_KEY := 7;
  ffs64_zero := 64
|}.

(** ** Persistent structures *)

(** The super block fields the allocator reads; a reference is its block
    number, 0 when absent (the [seq] of a reference is only read by the
    block layer). *)
Record scoutfs_super_block : Set := {
  buddy_blocks : Z;
  total_blocks : Z;
  buddy_bm_ref : Z;
  buddy_ind_ref : Z
}.

Record scoutfs_bitmap_block : Set := { bm_bits : Z }.

Record scoutfs_buddy_block : Set := {
  bits : Z;
  order_counts : list Z
}.

Record scoutfs_buddy_slot : Set := {
  ref : Z;
  free_orders : Z
}.

Record scoutfs_buddy_indirect : Set := {
  order_totals : list Z;
  slots : list scoutfs_buddy_slot
}.

(** What the block layer gives for the references of one super block:
    the bitmap block, the indirect block and the buddy block of every
    slot, each either its contents or the errno of the failed read. *)
Record blocks : Type := {
  bm : res scoutfs_bitmap_block;
  ind : res scoutfs_buddy_indirect;
  buds : list (res scoutfs_buddy_block)
}.

(** key of a btree item: inode, type, offset *)
Definition scoutfs_key : Set := (Z * Z * Z)%type.

(** The mounted volume: the dirty and the stable super block with their
    blocks, the file allocation reservoir, and the btree of block map
    items.  [new_block_err] is the error of [scoutfs_block_dirty] on a
    fresh block, [btree_update_err] and [btree_insert_err] those of the
    btree calls, when they fail. *)
Record scoutfs_sb_info : Type := {
  super : scoutfs_super_block;
  stable_super : scoutfs_super_block;
  dirty : blocks;
  stable : blocks;
  new_block_err : option errno;
  file_alloc_blkno : Z;
  file_alloc_count : Z;
  btree : gmap scoutfs_key (list Z);
  btree_update_err : option errno;
  btree_insert_err : option errno
}.

Definition with_bm (b : blocks) (v : res scoutfs_bitmap_block) : blocks :=
  {| bm := v; ind := ind b; buds := buds b |}.
Definition with_ind (b : blocks) (v : res scoutfs_buddy_indirect) : blocks :=
  {| bm := bm b; ind := v; buds := buds b |}.
Definition with_buds (b : blocks) (v : list (res scoutfs_buddy_block)) : blocks :=
  {| bm := bm b; ind := ind b; buds := v |}.

Definition with_dirty (sbi : scoutfs_sb_info) (d : blocks) : scoutfs_sb_info :=
  {| super := super sbi; stable_super := stable_super sbi;
     dirty := d; stable := stable sbi;
     new_block_err := new_block_err sbi;
     file_alloc_blkno := file_alloc_blkno sbi;
     file_alloc_count := file_alloc_count sbi;
     btree := btree sbi;
     btree_update_err := btree_update_err sbi;
     btree_insert_err := btree_insert_err sbi |}.

Definition with_file_alloc (sbi : scoutfs_sb_info) (blkno count : Z) : scoutfs_sb_info :=
  {| super := super sbi; stable_super := stable_super sbi;
     dirty := dirty sbi; stable := stable sbi;
     new_block_err := new_block_err sbi;
     file_alloc_blkno := blkno;
     file_alloc_count := count;
     btree := btree sbi;
     btree_update_err := btree_update_err sbi;
     btree_insert_err := btree_insert_err sbi |}.

Definition with_btree (sbi : scoutfs_sb_info) (t : gmap scoutfs_key (list Z)) : scoutfs_sb_info :=
  {| super := super sbi; stable_super := stable_super sbi;
     dirty := dirty sbi; stable := stable sbi;
     new_block_err := new_block_err sbi;
     file_alloc_blkno := file_alloc_blkno sbi;
     file_alloc_count := file_alloc_count sbi;
     btree := t;
     btree_update_err := btree_update_err sbi;
     btree_insert_err := btree_insert_err sbi |}.

(** arrays indexed by a C [int]; indexes are never negative where the
    code runs, and a store outside the array is dropped *)
Definition aget {A : Type} (d : A) (l : list A) (i : Z) : A :=
  default d (l !! Z.to_nat i).
Definition aset {A : Type} (l : list A) (i : Z) (v : A) : list A :=
  <[Z.to_nat i := v]> l.

Definition empty_slot : scoutfs_buddy_slot := {| ref := 0; free_orders := 0 |}.

Section Buddy.
Context `{fmt : format}.

(** ** Regions and geometry ([buddy.c]) *)

Inductive region : Set := REGION_PAIR | REGION_BM | REGION_BUDDY.

Definition blkno_region (super : scoutfs_super_block) (blkno : Z) : region :=
  let end_ := u64 (SCOUTFS_BUDDY_BM_BLKNO + SCOUTFS_BUDDY_BM_NR) in
  if blkno <? end_ then REGION_PAIR
  else
    let end_ := u64 (end_ + buddy_blocks super) in
    if blkno <? end_ then REGION_BM else REGION_BUDDY.

(** the first device blkno covered by the buddy allocator *)
Definition first_blkno (super : scoutfs_super_block) : Z :=
  u64 (SCOUTFS_BUDDY_BM_BLKNO + SCOUTFS_BUDDY_BM_NR + buddy_blocks super).

(** the slot in the indirect block of a given blkno *)
Definition indirect_slot (super : scoutfs_super_block) (blkno : Z) : Z :=
  u32 (blkno - first_blkno super) / SCOUTFS_BUDDY_ORDER0_BITS.

(** device blkno of order bit in slot *)
Definition slot_buddy_blkno (super : scoutfs_super_block) (sl order nr : Z) : Z :=
  u64 (first_blkno super + sl * SCOUTFS_BUDDY_ORDER0_BITS + Z.shiftl nr order).

(** number of blocks managed by the buddy block referenced by the given slot *)
Definition slot_count (super : scoutfs_super_block) (sl : Z) : Z :=
  let first := u64 (first_blkno super + sl * SCOUTFS_BUDDY_ORDER0_BITS) in
  Z.min (s32 (total_blocks super - first)) SCOUTFS_BUDDY_ORDER0_BITS.

(** the order 0 bit offset of blkno *)
Definition buddy_bit (super : scoutfs_super_block) (blkno : Z) : Z :=
  u32 (blkno - first_blkno super) mod SCOUTFS_BUDDY_ORDER0_BITS.

(** true if the blkno could be the start of an allocation of the order *)
Definition valid_order (super : scoutfs_super_block) (blkno order : Z) : bool :=
  Z.land (buddy_bit super blkno) (Z.shiftl 1 order - 1) =? 0.

(** the starting bit offset in the block bitmap of an order's bitmap *)
Definition order_off (order : Z) : Z :=
  if order =? 0 then 0
  else 2 * SCOUTFS_BUDDY_ORDER0_BITS
       - SCOUTFS_BUDDY_ORDER0_BITS / Z.shiftl 1 (order - 1).

(** the bit offset in the block bitmap of an order's bit *)
Definition order_nr (order nr : Z) : Z := s32 (order_off order + nr).

Definition test_buddy_bit (bud : scoutfs_buddy_block) (order nr : Z) : bool :=
  test_bit_le (order_nr order nr) (bits bud).

(** [for (i = order; i < ORDERS; i++)], as [n] remaining rounds *)
Fixpoint test_buddy_bit_or_higher_from (n : nat) (bud : scoutfs_buddy_block)
    (i nr : Z) : bool :=
  match n with
  | O => false
  | S n' =>
      if test_buddy_bit bud i nr then true
      else test_buddy_bit_or_higher_from n' bud (i + 1) (Z.shiftr nr 1)
  end.

Definition test_buddy_bit_or_higher (bud : scoutfs_buddy_block) (order nr : Z) : bool :=
  test_buddy_bit_or_higher_from (Z.to_nat (SCOUTFS_BUDDY_ORDERS - order)) bud order nr.

Definition add_total (ind : scoutfs_buddy_indirect) (order delta : Z) : scoutfs_buddy_indirect :=
  {| order_totals := aset (order_totals ind) order
                       (u64 (aget 0 (order_totals ind) order + delta));
     slots := slots ind |}.

Definition add_count (counts : list Z) (order delta : Z) : list Z :=
  aset counts order (u32 (aget 0 counts order + delta)).

Definition set_buddy_bit (ind : scoutfs_buddy_indirect) (bud : scoutfs_buddy_block)
    (order nr : Z) : scoutfs_buddy_indirect * scoutfs_buddy_block :=
  if test_bit_le (order_nr order nr) (bits bud) then (ind, bud)
  else (add_total ind order 1,
        {| bits := set_bit_le (order_nr order nr) (bits bud);
           order_counts := add_count (order_counts bud) order 1 |}).

Definition clear_buddy_bit (ind : scoutfs_buddy_indirect) (bud : scoutfs_buddy_block)
    (order nr : Z) : scoutfs_buddy_indirect * scoutfs_buddy_block :=
  if test_bit_le (order_nr order nr) (bits bud) then
    (add_total ind order (-1),
     {| bits := clear_bit_le (order_nr order nr) (bits bud);
        order_counts := add_count (order_counts bud) order (-1) |})
  else (ind, bud).

(** returns INT_MAX when there are no bits set *)
Definition find_next_buddy_bit (bud : scoutfs_buddy_block) (order nr : Z) : Z :=
  let size := order_off (order + 1) in
  let nr := s32 (find_next_bit_le (bits bud) (u64 size) (u64 (order_nr order nr))) in
  if size <=? nr then INT_MAX else nr - order_off order.

(** [for (i = 0; i < ORDERS; i++) free |= (!!order_counts[i]) << i] *)
Fixpoint free_orders_from (n : nat) (counts : list Z) (i : Z) (free : Z) : Z :=
  match n with
  | O => free
  | S n' =>
      let b := if aget 0 counts i =? 0 then 0 else 1 in
      free_orders_from n' counts (i + 1) (u8 (Z.lor free (Z.shiftl b i)))
  end.

Definition update_free_orders (slot : scoutfs_buddy_slot) (bud : scoutfs_buddy_block)
    : scoutfs_buddy_slot :=
  {| ref := ref slot;
     free_orders := free_orders_from (Z.to_nat SCOUTFS_BUDDY_ORDERS) (order_counts bud) 0 0 |}.

(** [__ffs64 x]: the position of the lowest set bit *)
Definition __ffs64 (x : Z) : Z :=
  match x with
  | Z0 => ffs64_zero
  | Zpos p | Zneg p => ctz p
  end.

(** ** The bitmap allocator of buddy blocks *)

(** the [do ... while (d != s)] scan for the first bit set in both
    bitmaps; [size], [d] and [s] are [int]s *)
Fixpoint bitmap_scan (fuel : nat) (bm_bits st_bits size s : Z) : option Z :=
  match fuel with
  | O => None
  | S fuel' =>
      let d := s32 (find_next_bit_le bm_bits (u64 size) (u64 s)) in
      let s := s32 (find_next_bit_le st_bits (u64 size) (u64 d)) in
      if d =? s then Some d else bitmap_scan fuel' bm_bits st_bits size s
  end.

(** Allocate a buddy block blkno from the super's dirty bitmap block,
    among those that were free in the stable bitmap block. *)
Definition bitmap_alloc (sbi : scoutfs_sb_info) : res Z * scoutfs_sb_info :=
  if (buddy_bm_ref (super sbi) =? 0) || (buddy_bm_ref (stable_super sbi) =? 0)
  then (Err EIO, sbi)
  else
    match bm (dirty sbi) with
    | Ok b =>
        match bm (stable sbi) with
        | Ok st_b =>
            let size := s32 (buddy_blocks (super sbi)) in
            match bitmap_scan (S (Z.to_nat size)) (bm_bits b) (bm_bits st_b) size 0 with
            | None => (Spin, sbi)
            | Some d =>
                if size <=? d then (Err ENOSPC, sbi)
                else
                  (Ok (u64 (SCOUTFS_BUDDY_BM_BLKNO + SCOUTFS_BUDDY_BM_NR + d)),
                   with_dirty sbi
                     (with_bm (dirty sbi) (Ok {| bm_bits := clear_bit_le d (bm_bits b) |})))
            end
        | r => (fail r, sbi)
        end
    | r => (fail r, sbi)
    end.

(** Free a buddy block blkno in the super's bitmap block. *)
Definition bitmap_free (sbi : scoutfs_sb_info) (blkno : Z) : res unit * scoutfs_sb_info :=
  if buddy_bm_ref (super sbi) =? 0 then (Err EIO, sbi)
  else
    match bm (dirty sbi) with
    | Ok b =>
        let nr := s32 (blkno - (SCOUTFS_BUDDY_BM_BLKNO + SCOUTFS_BUDDY_BM_NR)) in
        (Ok tt, with_dirty sbi
                  (with_bm (dirty sbi) (Ok {| bm_bits := set_bit_le nr (bm_bits b) |})))
    | r => (fail r, sbi)
    end.

(** ** Buddy blocks *)

(** [while (count > size) { set_buddy_bit(ind, bud, order, nr); nr++; count -= size; }] *)
Fixpoint init_high (fuel : nat) (ind : scoutfs_buddy_indirect) (bud : scoutfs_buddy_block)
    (order size nr count : Z)
    : option (scoutfs_buddy_indirect * scoutfs_buddy_block * Z * Z) :=
  if count >? size then
    match fuel with
    | O => None
    | S fuel' =>
        let '(ind, bud) := set_buddy_bit ind bud order nr in
        init_high fuel' ind bud order size (s32 (nr + 1)) (s32 (count - size))
    end
  else Some (ind, bud, nr, count).

(** [do { ... } while (order--)], as [n] remaining rounds *)
Fixpoint init_low (n : nat) (ind : scoutfs_buddy_indirect) (bud : scoutfs_buddy_block)
    (order nr count : Z) : scoutfs_buddy_indirect * scoutfs_buddy_block :=
  match n with
  | O => (ind, bud)
  | S n' =>
      if Z.land count (Z.shiftl 1 order) =? 0 then
        init_low n' ind bud (order - 1) (s32 (Z.shiftl nr 1)) count
      else
        let '(ind, bud) := set_buddy_bit ind bud order nr in
        init_low n' ind bud (order - 1) (s32 (Z.shiftl (nr + 1) 1)) count
  end.

Definition with_slot (ind : scoutfs_buddy_indirect) (sl : Z) (slot : scoutfs_buddy_slot)
    : scoutfs_buddy_indirect :=
  {| order_totals := order_totals ind; slots := aset (slots ind) sl slot |}.

Definition put_bud (sbi : scoutfs_sb_info) (sl : Z) (bud : scoutfs_buddy_block)
    : scoutfs_sb_info :=
  with_dirty sbi (with_buds (dirty sbi) (aset (buds (dirty sbi)) sl (Ok bud))).

(** Give the caller a dirty buddy block.  If the slot hasn't been used
    yet then a new block is allocated and initialized.  [ind] is the dirty
    indirect block the caller holds. *)
Definition dirty_buddy_block (sbi : scoutfs_sb_info) (ind : scoutfs_buddy_indirect) (sl : Z)
    : res scoutfs_buddy_block * scoutfs_sb_info * scoutfs_buddy_indirect :=
  let slot := aget empty_slot (slots ind) sl in
  if negb (ref slot =? 0) then (aget (Err EIO) (buds (dirty sbi)) sl, sbi, ind)
  else
    match bitmap_alloc sbi with
    | (Ok blkno, sbi) =>
        match new_block_err sbi with
        | Some e => (Err e, snd (bitmap_free sbi blkno), ind)
        | None =>
            let bud := {| bits := 0;
                          order_counts := replicate (Z.to_nat SCOUTFS_BUDDY_ORDERS) 0 |} in
            let count := slot_count (super sbi) sl in
            let order := SCOUTFS_BUDDY_ORDERS - 1 in
            let size := s32 (Z.shiftl 1 order) in
            match init_high (Z.to_nat count) ind bud order size 0 count with
            | None => (Spin, sbi, ind)
            | Some (ind, bud, nr, count) =>
                let '(ind, bud) :=
                  init_low (Z.to_nat SCOUTFS_BUDDY_ORDERS) ind bud order nr count in
                let slot := update_free_orders
                              {| ref := blkno; free_orders := free_orders slot |} bud in
                (Ok bud, put_bud sbi sl bud, with_slot ind sl slot)
            end
        end
    | (r, sbi) => (fail r, sbi, ind)
    end.

(** the locals of [find_first_fit] *)
Record fit : Set := {
  nrs : list Z;
  fit_blkno : Z;
  fit_ret : Z;
  fit_order : Z;
  made_progress : bool
}.

(** one round of [for (i = order; i < ORDERS; i++)] *)
Definition fit_step (super : scoutfs_super_block) (sl : Z) (bud : scoutfs_buddy_block)
    (st_bud : option scoutfs_buddy_block) (i : Z) (f : fit) : fit :=
  let nr := find_next_buddy_bit bud i (aget 0 (nrs f) i) in
  if nr =? INT_MAX then
    {| nrs := aset (nrs f) i nr; fit_blkno := fit_blkno f; fit_ret := fit_ret f;
       fit_order := fit_order f; made_progress := made_progress f |}
  else if match st_bud with
          | None => true
          | Some st => negb (test_buddy_bit_or_higher st i nr)
          end
  then
    {| nrs := aset (nrs f) i (s32 (nr + 1)); fit_blkno := fit_blkno f;
       fit_ret := fit_ret f; fit_order := fit_order f; made_progress := true |}
  else
    let bno := slot_buddy_blkno super sl i nr in
    if bno <? fit_blkno f then
      {| nrs := aset (nrs f) i nr; fit_blkno := bno; fit_ret := nr;
         fit_order := i; made_progress := true |}
    else
      {| nrs := aset (nrs f) i nr; fit_blkno := fit_blkno f; fit_ret := fit_ret f;
         fit_order := fit_order f; made_progress := true |}.

Fixpoint fit_pass (n : nat) (super : scoutfs_super_block) (sl : Z)
    (bud : scoutfs_buddy_block) (st_bud : option scoutfs_buddy_block) (i : Z) (f : fit)
    : fit :=
  match n with
  | O => f
  | S n' => fit_pass n' super sl bud st_bud (i + 1) (fit_step super sl bud st_bud i f)
  end.

(** [do { ... } while (ret == INT_MAX && made_progress)] *)
Fixpoint fit_loop (fuel : nat) (super : scoutfs_super_block) (sl : Z)
    (bud : scoutfs_buddy_block) (st_bud : option scoutfs_buddy_block) (order : Z) (f : fit)
    : option fit :=
  match fuel with
  | O => None
  | S fuel' =>
      let f := fit_pass (Z.to_nat (SCOUTFS_BUDDY_ORDERS - order)) super sl bud st_bud order
                 {| nrs := nrs f; fit_blkno := fit_blkno f; fit_ret := fit_ret f;
                    fit_order := fit_order f; made_progress := false |} in
      if (fit_ret f =? INT_MAX) && made_progress f
      then fit_loop fuel' super sl bud st_bud order f
      else Some f
  end.

(** Return the order bitmap offset and order of the first allocation that
    fits the desired order: [(ret, *order_ret)], with [ret = INT_MAX] if
    there are no free orders.  [*order_ret] is not initialized by the
    caller and reads as 0 here until it is written. *)
Definition find_first_fit (super : scoutfs_super_block) (sl : Z)
    (bud : scoutfs_buddy_block) (st_bud : option scoutfs_buddy_block) (order : Z)
    : option (Z * Z) :=
  match fit_loop (S (Z.to_nat (2 * SCOUTFS_BUDDY_ORDER0_BITS))) super sl bud st_bud order
          {| nrs := replicate (Z.to_nat SCOUTFS_BUDDY_ORDERS) 0; fit_blkno := U64_MAX;
             fit_ret := INT_MAX; fit_order := 0; made_progress := false |} with
  | None => None
  | Some f => Some (fit_ret f, fit_order f)
  end.

(** [for (nr <<= 1, i = found - 1; i >= order; i--, nr <<= 1)
       set_buddy_bit(ind, bud, i, nr | 1);] *)
Fixpoint split_right (n : nat) (ind : scoutfs_buddy_indirect) (bud : scoutfs_buddy_block)
    (i nr : Z) : scoutfs_buddy_indirect * scoutfs_buddy_block :=
  match n with
  | O => (ind, bud)
  | S n' =>
      let '(ind, bud) := set_buddy_bit ind bud i (Z.lor nr 1) in
      split_right n' ind bud (i - 1) (s32 (Z.shiftl nr 1))
  end.

(** Find the first free region that satisfies the given order that is
    also free in the stable buddy bitmaps. *)
Definition alloc_slot (sbi : scoutfs_sb_info) (ind : scoutfs_buddy_indirect) (sl : Z)
    (stable_ref : Z) (order : Z)
    : res Z * scoutfs_sb_info * scoutfs_buddy_indirect :=
  match dirty_buddy_block sbi ind sl with
  | (Ok bud, sbi, ind) =>
      let st :=
        if negb (stable_ref =? 0) then
          match aget (Err EIO) (buds (stable sbi)) sl with
          | Ok st_bud => Ok (Some st_bud)
          | r => fail r
          end
        else Ok None in
      match st with
      | Ok st_bud =>
          match find_first_fit (super sbi) sl bud st_bud order with
          | None => (Spin, sbi, ind)
          | Some (nr, found) =>
              if nr =? INT_MAX then (Err ENOSPC, sbi, ind)
              else
                let blkno := slot_buddy_blkno (super sbi) sl found nr in
                let '(ind, bud) := clear_buddy_bit ind bud found nr in
                let '(ind, bud) :=
                  split_right (Z.to_nat (found - order)) ind bud (found - 1)
                    (s32 (Z.shiftl nr 1)) in
                let slot := update_free_orders (aget empty_slot (slots ind) sl) bud in
                (Ok blkno, put_bud sbi sl bud, with_slot ind sl slot)
          end
      | r => (fail r, sbi, ind)
      end
  | (r, sbi, ind) => (fail r, sbi, ind)
  end.

(** [for (i = 0; i < SLOTS; i++)]: [ret] is what the last round left *)
Fixpoint alloc_order_slots (n : nat) (sbi : scoutfs_sb_info)
    (ind st_ind : scoutfs_buddy_indirect) (mask order i : Z) (ret : res Z)
    : res Z * scoutfs_sb_info * scoutfs_buddy_indirect :=
  match n with
  | O => (ret, sbi, ind)
  | S n' =>
      let slot := aget empty_slot (slots ind) i in
      let st_slot := aget empty_slot (slots st_ind) i in
      if (Z.land mask (free_orders slot) =? 0) || (Z.land mask (free_orders st_slot) =? 0)
      then alloc_order_slots n' sbi ind st_ind mask order (i + 1) (Err ENOSPC)
      else
        match alloc_slot sbi ind i (ref st_slot) order with
        | (Err ENOSPC, sbi, ind) =>
            alloc_order_slots n' sbi ind st_ind mask order (i + 1) (Err ENOSPC)
        | r => r
        end
  end.

Definition put_ind (sbi : scoutfs_sb_info) (ind : scoutfs_buddy_indirect) : scoutfs_sb_info :=
  with_dirty sbi (with_ind (dirty sbi) (Ok ind)).

(** Try and find a free block extent of the given order, free in the
    dirty and in the stable buddy blocks.  Before the first slot [ret] is
    not initialized; it reads as [-ENOSPC] here. *)
Definition alloc_order (sbi : scoutfs_sb_info) (order : Z) : res Z * scoutfs_sb_info :=
  if (buddy_ind_ref (super sbi) =? 0) || (buddy_ind_ref (stable_super sbi) =? 0)
  then (Err EIO, sbi)
  else
    match ind (dirty sbi), ind (stable sbi) with
    | Ok ind, Ok st_ind =>
        let mask := u8 (u32 (Z.shiftl (2 ^ 32 - 1) order)) in
        let '(ret, sbi, ind) :=
          alloc_order_slots (Z.to_nat SCOUTFS_BUDDY_SLOTS) sbi ind st_ind mask order 0
            (Err ENOSPC) in
        (ret, put_ind sbi ind)
    | Ok _, r => (fail r, sbi)
    | r, _ => (fail r, sbi)
    end.

(** [do { ret = alloc_order(sb, blkno, order); } while (ret == -ENOSPC && order--);] *)
Fixpoint buddy_alloc_from (order : nat) (sbi : scoutfs_sb_info)
    : res (Z * Z) * scoutfs_sb_info :=
  match alloc_order sbi (Z.of_nat order) with
  | (Ok blkno, sbi) => (Ok (blkno, Z.of_nat order), sbi)
  | (Err ENOSPC, sbi) =>
      match order with
      | O => (Err ENOSPC, sbi)
      | S order' => buddy_alloc_from order' sbi
      end
  | (r, sbi) => (fail r, sbi)
  end.

(** The buddy allocator keeps trying smaller orders until it finds an
    allocation.  The block number and the order of the allocation are
    returned. *)
Definition buddy_alloc (sbi : scoutfs_sb_info) (order : Z) : res (Z * Z) * scoutfs_sb_info :=
  if (order <? 0) || (SCOUTFS_BUDDY_ORDERS <=? order) then (Err EINVAL, sbi)
  else buddy_alloc_from (Z.to_nat order) sbi.

(** Allocate a block from the given region: the block number and the
    non-negative return value. *)
Definition alloc_region (sbi : scoutfs_sb_info) (order existing : Z) (r : region)
    : res (Z * Z) * scoutfs_sb_info :=
  match r with
  | REGION_PAIR => (Ok (Z.lxor existing 1, 0), sbi)
  | REGION_BM =>
      match bitmap_alloc sbi with
      | (Ok blkno, sbi) => (Ok (blkno, 0), sbi)
      | (r, sbi) => (fail r, sbi)
      end
  | REGION_BUDDY => buddy_alloc sbi order
  end.

Definition scoutfs_buddy_alloc (sbi : scoutfs_sb_info) (order : Z)
    : res (Z * Z) * scoutfs_sb_info :=
  alloc_region sbi order 0 REGION_BUDDY.

Definition scoutfs_buddy_alloc_same (sbi : scoutfs_sb_info) (order existing : Z)
    : res (Z * Z) * scoutfs_sb_info :=
  alloc_region sbi order existing (blkno_region (super sbi) existing).

(** [for (i = order; i < ORDERS - 1; i++)]: merge with free buddies *)
Fixpoint merge_buddies (n : nat) (ind : scoutfs_buddy_indirect) (bud : scoutfs_buddy_block)
    (i nr : Z) : scoutfs_buddy_indirect * scoutfs_buddy_block * Z * Z :=
  match n with
  | O => (ind, bud, i, nr)
  | S n' =>
      if negb (test_buddy_bit bud i (Z.lxor nr 1)) then (ind, bud, i, nr)
      else
        let '(ind, bud) := clear_buddy_bit ind bud i (Z.lxor nr 1) in
        merge_buddies n' ind bud (i + 1) (Z.shiftr nr 1)
  end.

(** Free the aligned allocation of the given order at the given blkno to
    the allocator, merging it with its free buddies. *)
Definition buddy_free (sbi : scoutfs_sb_info) (blkno order : Z) : res unit * scoutfs_sb_info :=
  if (order <? 0) || (SCOUTFS_BUDDY_ORDERS <=? order)
     || negb (valid_order (super sbi) blkno order)
  then (Err EINVAL, sbi)
  else if buddy_ind_ref (super sbi) =? 0 then (Err EIO, sbi)
  else
    match ind (dirty sbi) with
    | Ok ind =>
        let sl := indirect_slot (super sbi) blkno in
        match aget (Err EIO) (buds (dirty sbi)) sl with
        | Ok bud =>
            let nr := Z.shiftr (buddy_bit (super sbi) blkno) order in
            let '(ind, bud, i, nr) :=
              merge_buddies (Z.to_nat (SCOUTFS_BUDDY_ORDERS - 1 - order)) ind bud order nr in
            let '(ind, bud) := set_buddy_bit ind bud i nr in
            let slot := update_free_orders (aget empty_slot (slots ind) sl) bud in
            (Ok tt, put_ind (put_bud sbi sl bud) (with_slot ind sl slot))
        | r => (fail r, sbi)
        end
    | r => (fail r, sbi)
    end.

Definition scoutfs_buddy_free (sbi : scoutfs_sb_info) (blkno order : Z)
    : res unit * scoutfs_sb_info :=
  match blkno_region (super sbi) blkno with
  | REGION_PAIR => (Ok tt, sbi)
  | REGION_BM => bitmap_free sbi blkno
  | REGION_BUDDY => buddy_free sbi blkno order
  end.

(** [while (count) { ... }] of [scoutfs_buddy_free_extent] *)
Fixpoint free_extent_loop (fuel : nat) (sbi : scoutfs_sb_info) (blkno count : Z)
    : res unit * scoutfs_sb_info :=
  if count =? 0 then (Ok tt, sbi)
  else
    match fuel with
    | O => (Spin, sbi)
    | S fuel' =>
        let order :=
          Z.min (Z.min (s32 (__ffs64 (u64 (buddy_bit (stable_super sbi) blkno))))
                       (s32 (fls64 count - 1)))
                (SCOUTFS_BUDDY_ORDERS - 1) in
        let size := s32 (Z.shiftl 1 order) in
        match scoutfs_buddy_free sbi blkno order with
        | (Ok _, sbi) => free_extent_loop fuel' sbi (u64 (blkno + size)) (u64 (count - size))
        | (_, sbi) => (Bug, sbi)
        end
    end.

(** Free all the order allocations that make up the given unaligned block
    extent.  A failed free is a [BUG_ON]. *)
Definition scoutfs_buddy_free_extent (sbi : scoutfs_sb_info) (blkno count : Z)
    : res unit * scoutfs_sb_info :=
  free_extent_loop (Z.to_nat count) sbi blkno count.

(** Return 1 if the given order allocation was free in the old stable
    transaction, 0 if it wasn't, and an errno if errors prevented us from
    finding out. *)
Definition scoutfs_buddy_was_free (sbi : scoutfs_sb_info) (blkno order : Z) : res Z :=
  if (buddy_bm_ref (super sbi) =? 0) || (buddy_bm_ref (stable_super sbi) =? 0)
  then Err EIO
  else
    match ind (stable sbi) with
    | Ok ind =>
        let sl := indirect_slot (stable_super sbi) blkno in
        if ref (aget empty_slot (slots ind) sl) =? 0 then Ok 1
        else
          match aget (Err EIO) (buds (stable sbi)) sl with
          | Ok bud =>
              let nr := Z.shiftr (buddy_bit (stable_super sbi) blkno) order in
              Ok (if test_buddy_bit_or_higher bud order nr then 1 else 0)
          | r => fail r
          end
    | r => fail r
    end.

End Buddy.

Section Filerw.
Context `{fmt : format}.

(** ** The btree of block map items

    Modelled from the spec: [btree.c] is not among the sources.  The
    items are a finite map; [update] gives the writable item under a key
    or [-ENOENT], [insert] creates an item under a key that has none,
    [delete] removes one. *)

Definition scoutfs_btree_update (sbi : scoutfs_sb_info) (key : scoutfs_key) : res (list Z) :=
  match btree_update_err sbi with
  | Some e => Err e
  | None =>
      match btree sbi !! key with
      | Some val => Ok val
      | None => Err ENOENT
      end
  end.

Definition scoutfs_btree_insert (sbi : scoutfs_sb_info) (key : scoutfs_key) (val : list Z)
    : res unit * scoutfs_sb_info :=
  match btree_insert_err sbi with
  | Some e => (Err e, sbi)
  | None =>
      match btree sbi !! key with
      | Some _ => (Err EEXIST, sbi)
      | None => (Ok tt, with_btree sbi (<[key := val]> (btree sbi)))
      end
  end.

Definition scoutfs_btree_delete (sbi : scoutfs_sb_info) (key : scoutfs_key)
    : res unit * scoutfs_sb_info :=
  match btree sbi !! key with
  | Some _ => (Ok tt, with_btree sbi (delete key (btree sbi)))
  | None => (Err ENOENT, sbi)
  end.

(** ** The file allocation reservoir ([filerw.c]) *)

(** the second half of [alloc_file_block]: take the head of the reservoir *)
Definition pop_file_block (sbi : scoutfs_sb_info) : res Z * scoutfs_sb_info :=
  if negb (file_alloc_count sbi =? 0) then
    (Ok (file_alloc_blkno sbi),
     with_file_alloc sbi (u64 (file_alloc_blkno sbi + 1)) (u64 (file_alloc_count sbi - 1)))
  else (Err ENOSPC, sbi).

(** One allocation on the super is consumed block by block; it is
    refilled from the buddy allocator when it is empty. *)
Definition alloc_file_block (sbi : scoutfs_sb_info) : res Z * scoutfs_sb_info :=
  if file_alloc_count sbi =? 0 then
    match scoutfs_buddy_alloc sbi (SCOUTFS_BUDDY_ORDERS - 1) with
    | (Ok (alloc_blkno, order), sbi) =>
        let '(sbi, order) :=
          if file_alloc_count sbi =? 0
          then (with_file_alloc sbi alloc_blkno (u64 (s32 (Z.shiftl 1 order))), -1)
          else (sbi, order) in
        let '(ret, sbi) := pop_file_block sbi in
        if order >? 0 then (ret, snd (scoutfs_buddy_free sbi alloc_blkno order))
        else (ret, sbi)
    | (r, sbi) => (fail r, sbi)
    end
  else pop_file_block sbi.

(** The caller didn't need an allocated file block after all: it goes
    back to the head of the reservoir. *)
Definition return_file_block (sbi : scoutfs_sb_info) (blkno : Z) : res unit * scoutfs_sb_info :=
  if negb (file_alloc_count sbi =? 0) && negb (file_alloc_blkno sbi =? u64 (blkno + 1))
  then (Bug, sbi)
  else
    let head := if file_alloc_count sbi =? 0 then u64 (blkno + 1) else file_alloc_blkno sbi in
    (Ok tt, with_file_alloc sbi (u64 (head - 1)) (u64 (file_alloc_count sbi + 1))).

Definition scoutfs_filerw_free_alloc (sbi : scoutfs_sb_info) : res unit * scoutfs_sb_info :=
  let '(r, sbi) :=
    if negb (file_alloc_count sbi =? 0)
    then scoutfs_buddy_free_extent sbi (file_alloc_blkno sbi) (file_alloc_count sbi)
    else (Ok tt, sbi) in
  (r, with_file_alloc sbi 0 0).

(** ** Block mapping *)

Definition set_bmap_key (ino iblock : Z) : scoutfs_key :=
  (ino, SCOUTFS_BMAP_KEY, Z.shiftr iblock SCOUTFS_BLOCK_MAP_SHIFT).

(** the [out:] label of [map_writable_block] when [ret] is an errno *)
Definition map_writable_out (sbi : scoutfs_sb_info) (key : scoutfs_key)
    (new_blkno : Z) (inserted : bool) (ret : res Z) : res Z * scoutfs_sb_info :=
  match ret with
  | Err e =>
      match (if negb (new_blkno =? 0) then return_file_block sbi new_blkno
             else (Ok tt, sbi)) with
      | (Ok _, sbi) =>
          if inserted then
            match scoutfs_btree_delete sbi key with
            | (Ok _, sbi) => (Err e, sbi)
            | (_, sbi) => (Bug, sbi)
            end
          else (Err e, sbi)
      | (r, sbi) => (fail r, sbi)
      end
  | r => (r, sbi)
  end.

(** the writable block map item of the key: the item that is there, or a
    new zeroed one, with the [inserted] flag *)
Definition writable_bmap (sbi : scoutfs_sb_info) (key : scoutfs_key)
    : res (list Z * bool) * scoutfs_sb_info :=
  match scoutfs_btree_update sbi key with
  | Ok bmap => (Ok (bmap, false), sbi)
  | Err ENOENT =>
      let bmap := replicate (Z.to_nat SCOUTFS_BLOCK_MAP_COUNT) 0 in
      match scoutfs_btree_insert sbi key bmap with
      | (Ok _, sbi) => (Ok (bmap, true), sbi)
      | (r, sbi) => (fail r, sbi)
      end
  | r => (fail r, sbi)
  end.

(** Make sure that the mapped block at the given logical block number is
    writable in this transaction: reuse a block that was free in stable,
    otherwise allocate and reference a new block and free the previous
    one.  Gives the writable block number. *)
Definition map_writable_block (sbi : scoutfs_sb_info) (ino iblock : Z)
    : res Z * scoutfs_sb_info :=
  let key := set_bmap_key ino iblock in
  match writable_bmap sbi key with
  | (Ok (bmap, inserted), sbi) =>
      let i := Z.land iblock SCOUTFS_BLOCK_MAP_MASK in
      let old_blkno := aget 0 bmap i in
      let was_free :=
        if negb (old_blkno =? 0) then scoutfs_buddy_was_free sbi old_blkno 0 else Ok 0 in
      match was_free with
      | Ok ret =>
          if ret >? 0 then (Ok old_blkno, sbi)
          else
            match alloc_file_block sbi with
            | (Ok new_blkno, sbi) =>
                match (if negb (old_blkno =? 0) then scoutfs_buddy_free sbi old_blkno 0
                       else (Ok tt, sbi)) with
                | (Ok _, sbi) =>
                    (Ok new_blkno,
                     with_btree sbi (<[key := aset bmap i new_blkno]> (btree sbi)))
                | (r, sbi) => map_writable_out sbi key new_blkno inserted (fail r)
                end
            | (r, sbi) => map_writable_out sbi key 0 inserted (fail r)
            end
      | r => map_writable_out sbi key 0 inserted (fail r)
      end
  | (r, sbi) => (fail r, sbi)
  end.

End Filerw.

(** * Scenario volumes

    Volumes with the geometry of the specification's scenarios: four
    bitmap-allocated buddy blocks behind the bitmap region, so that the
    buddy allocator starts at block 24, and one slot of 32768 blocks
    with its buddy block. *)

Section Scenarios.
#[local] Existing Instance scenario_format.

Definition scenario_super : scoutfs_super_block :=
  {| buddy_blocks := 4; total_blocks := 24 + 32768; buddy_bm_ref := 18; buddy_ind_ref := 20 |}.

(** the indirect block when only the first slot has a buddy block, [bud] *)
Definition scenario_ind (bud : scoutfs_buddy_block) : scoutfs_buddy_indirect :=
  {| order_totals := order_counts bud;
     slots := update_free_orders {| ref := 22; free_orders := 0 |} bud
              :: replicate 255 empty_slot |}.

(** the blocks of a super whose first slot has the buddy block [bud] *)
Definition scenario_blocks (bud : scoutfs_buddy_block) : blocks :=
  {| bm := Ok {| bm_bits := 14 |};
     ind := Ok (scenario_ind bud);
     buds := Ok bud :: replicate 255 (Err EIO) |}.

Definition scenario_volume (d st : blocks) : scoutfs_sb_info :=
  {| super := scenario_super; stable_super := scenario_super;
     dirty := d; stable := st;
     new_block_err := None;
     file_alloc_blkno := 0; file_alloc_count := 0;
     btree := ∅;
     btree_update_err := None; btree_insert_err := None |}.

(** all blocks of the slot free: the 2048 bits of the highest order *)
Definition whole_slot_bud : scoutfs_buddy_block :=
  {| bits := Z.shiftl (2 ^ 2048 - 1) 61440; order_counts := [0; 0; 0; 0; 2048] |}.

(** the first two blocks free as one region of order 1 *)
Definition pair_bud : scoutfs_buddy_block :=
  {| bits := 2 ^ 32768; order_counts := [0; 1; 0; 0; 0] |}.

(** the third and fourth block free as one region of order 1 *)
Definition second_pair_bud : scoutfs_buddy_block :=
  {| bits := 2 ^ 32769; order_counts := [0; 1; 0; 0; 0] |}.

(** the second block alone free *)
Definition odd_block_bud : scoutfs_buddy_block :=
  {| bits := 2; order_counts := [1; 0; 0; 0; 0] |}.

(** the first two blocks free, unmerged *)
Definition unmerged_bud : scoutfs_buddy_block :=
  {| bits := 3; order_counts := [2; 0; 0; 0; 0] |}.

(** nothing allocated in either view *)
Definition fresh_volume : scoutfs_sb_info :=
  scenario_volume (scenario_blocks whole_slot_bud) (scenario_blocks whole_slot_bud).

(** block 24 was freed in this transaction and merged with block 25,
    which alone is free in stable *)
Definition skipped_volume : scoutfs_sb_info :=
  scenario_volume (scenario_blocks pair_bud) (scenario_blocks odd_block_bud).

(** blocks 26 and 27 are free; 24 and 25 are allocated *)
Definition merging_volume : scoutfs_sb_info :=
  scenario_volume (scenario_blocks second_pair_bud) (scenario_blocks whole_slot_bud).

(** only block 25 is free, in both views *)
Definition fragmented_volume : scoutfs_sb_info :=
  scenario_volume (scenario_blocks odd_block_bud) (scenario_blocks odd_block_bud).

(** as [fragmented_volume], but the stable buddy block cannot be read *)
Definition unreadable_volume : scoutfs_sb_info :=
  scenario_volume (scenario_blocks odd_block_bud)
    (with_buds (scenario_blocks odd_block_bud) (replicate 256 (Err EIO))).

(** blocks 24 and 25 free in both views as two regions of order 0 *)
Definition unmerged_volume : scoutfs_sb_info :=
  scenario_volume (scenario_blocks unmerged_bud) (scenario_blocks unmerged_bud).

(** the second and the third block free, each on its own *)
Definition two_blocks_bud : scoutfs_buddy_block :=
  {| bits := 6; order_counts := [2; 0; 0; 0; 0] |}.

(** blocks 25 and 26 free in both views; their buddies 24 and 27 are
    allocated *)
Definition scattered_volume : scoutfs_sb_info :=
  scenario_volume (scenario_blocks two_blocks_bud) (scenario_blocks two_blocks_bud).
End Scenarios.

(** * Properties *)

Section Properties.
Context `{fmt : format}.

(** What the code relies on in [format.h]: at most eight orders (the
    free order bits of a slot are a [u8]), order 0 bitmaps that halve
    evenly up to the highest order, bit offsets that fit an [int], slots
    whose blocks are counted by a [u32], and some bitmap blocks in front
    of the buddy blocks. *)
Definition format_ok : Prop :=
  0 < SCOUTFS_BUDDY_ORDERS <= 8 /\
  0 < SCOUTFS_BUDDY_ORDER0_BITS /\
  SCOUTFS_BUDDY_ORDER0_BITS mod 2 ^ (SCOUTFS_BUDDY_ORDERS - 1) = 0 /\
  2 * SCOUTFS_BUDDY_ORDER0_BITS < 2 ^ 31 /\
  0 < SCOUTFS_BUDDY_SLOTS /\
  SCOUTFS_BUDDY_SLOTS * SCOUTFS_BUDDY_ORDER0_BITS <= 2 ^ 32 /\
  0 <= SCOUTFS_BUDDY_BM_BLKNO /\
  0 < SCOUTFS_BUDDY_BM_NR /\
  SCOUTFS_BUDDY_BM_BLKNO + SCOUTFS_BUDDY_BM_NR < 2 ^ 32 /\
  0 <= SCOUTFS_BLOCK_MAP_SHIFT < 31 /\
  0 <= ffs64_zero < 2 ^ 31.

(** ** Integer conversions *)

Lemma u8_small x : 0 <= x < 2 ^ 8 -> u8 x = x.
Proof. intros; unfold u8; apply Z.mod_small; lia. Qed.

Lemma u32_small x : 0 <= x < 2 ^ 32 -> u32 x = x.
Proof. intros; unfold u32; apply Z.mod_small; lia. Qed.

Lemma u64_small x : 0 <= x < 2 ^ 64 -> u64 x = x.
Proof. intros; unfold u64; apply Z.mod_small; lia. Qed.

Lemma s32_small x : - 2 ^ 31 <= x < 2 ^ 31 -> s32 x = x.
Proof. intros; unfold s32; rewrite Z.mod_small; lia. Qed.

Lemma s32_range x : - 2 ^ 31 <= s32 x < 2 ^ 31.
Proof. unfold s32. pose proof (Z.mod_pos_bound (x + 2 ^ 31) (2 ^ 32)). lia. Qed.

(** an [int] that overflowed reads as a huge [unsigned long] *)
Lemma u64_s32_wrapped x : 2 ^ 31 <= x < 2 ^ 32 -> 2 ^ 63 <= u64 (s32 x).
Proof.
  intros Hx. unfold s32, u64.
  replace ((x + 2 ^ 31) mod 2 ^ 32) with (x - 2 ^ 31).
  2:{ apply Z.mod_unique with 1; lia. }
  replace ((x - 2 ^ 31 - 2 ^ 31) mod 2 ^ 64) with (x - 2 ^ 32 + 2 ^ 64).
  2:{ apply Z.mod_unique with (-1); lia. }
  lia.
Qed.

(** ** Bitmaps *)

Lemma ctz_nonneg p : 0 <= ctz p.
Proof. induction p; simpl; lia. Qed.

Lemma ctz_pos_spec p :
  Z.testbit (Zpos p) (ctz p) = true /\
  forall j, 0 <= j < ctz p -> Z.testbit (Zpos p) j = false.
Proof.
  induction p as [p IH|p IH|]; simpl ctz.
  - split; [reflexivity | intros; lia].
  - destruct IH as [IH1 IH2]. pose proof (ctz_nonneg p).
    change (Zpos p~0) with (2 * Zpos p). split.
    + replace (1 + ctz p) with (Z.succ (ctz p)) by lia.
      rewrite Z.testbit_even_succ; auto.
    + intros j Hj. destruct (Z.eq_dec j 0) as [->|].
      * apply Z.testbit_even_0.
      * replace j with (Z.succ (j - 1)) by lia.
        rewrite Z.testbit_even_succ by lia. apply IH2; lia.
  - split; [reflexivity | intros; lia].
Qed.

Lemma ctz_neg_spec p :
  Z.testbit (Zneg p) (ctz p) = true /\
  forall j, 0 <= j < ctz p -> Z.testbit (Zneg p) j = false.
Proof.
  induction p as [p IH|p IH|]; simpl ctz.
  - split; [reflexivity | intros; lia].
  - destruct IH as [IH1 IH2]. pose proof (ctz_nonneg p).
    change (Zneg p~0) with (2 * Zneg p). split.
    + replace (1 + ctz p) with (Z.succ (ctz p)) by lia.
      rewrite Z.testbit_even_succ; auto.
    + intros j Hj. destruct (Z.eq_dec j 0) as [->|].
      * apply Z.testbit_even_0.
      * replace j with (Z.succ (j - 1)) by lia.
        rewrite Z.testbit_even_succ by lia. apply IH2; lia.
  - split; [reflexivity | intros; lia].
Qed.

(** [find_next_bit_le] gives the lowest set bit from [offset] below
    [size], or [size] *)
Lemma find_next_bit_le_spec addr size offset :
  0 <= offset ->
  let r := find_next_bit_le addr size offset in
  r <= size /\
  (offset <= size -> offset <= r) /\
  (r < size -> Z.testbit addr r = true) /\
  (forall j, offset <= j < r -> Z.testbit addr j = false).
Proof.
  intros Hoff r. subst r. unfold find_next_bit_le.
  destruct (Z.leb_spec size offset) as [Hle|Hlt].
  { repeat split; intros; lia. }
  assert (Hbit : forall m, 0 <= m ->
            Z.testbit (Z.shiftr addr offset) m = Z.testbit addr (m + offset)).
  { intros m Hm. apply Z.shiftr_spec; lia. }
  destruct (Z.shiftr addr offset) as [|p|p] eqn:E.
  - repeat split; try lia.
    intros j Hj. specialize (Hbit (j - offset)).
    rewrite Z.testbit_0_l in Hbit. replace (j - offset + offset) with j in Hbit by lia.
    symmetry; apply Hbit; lia.
  - destruct (ctz_pos_spec p) as [H1 H2]. pose proof (ctz_nonneg p).
    repeat split; try lia.
    + intros Hr. rewrite Z.min_r by lia. rewrite Z.add_comm, <- Hbit by lia. exact H1.
    + intros j Hj. specialize (Hbit (j - offset)).
      replace (j - offset + offset) with j in Hbit by lia.
      rewrite <- Hbit by lia. apply H2; lia.
  - destruct (ctz_neg_spec p) as [H1 H2]. pose proof (ctz_nonneg p).
    repeat split; try lia.
    + intros Hr. rewrite Z.min_r by lia. rewrite Z.add_comm, <- Hbit by lia. exact H1.
    + intros j Hj. specialize (Hbit (j - offset)).
      replace (j - offset + offset) with j in Hbit by lia.
      rewrite <- Hbit by lia. apply H2; lia.
Qed.

Lemma find_next_bit_le_ge addr size offset :
  size <= offset -> find_next_bit_le addr size offset = size.
Proof.
  intros H. unfold find_next_bit_le.
  destruct (Z.leb_spec size offset); [reflexivity | lia].
Qed.

(** ** The bitmap allocator *)

(** both bitmaps have bit [j] set *)
Definition both_set (a b : Z) (j : Z) : bool := Z.testbit a j && Z.testbit b j.

Lemma bitmap_scan_spec fuel a b size s :
  0 <= size < 2 ^ 31 ->
  0 <= s <= size ->
  size - s < Z.of_nat fuel ->
  (forall j, 0 <= j < s -> both_set a b j = false) ->
  exists d, bitmap_scan fuel a b size s = Some d /\
    s <= d <= size /\
    (d < size -> both_set a b d = true) /\
    (forall j, 0 <= j < d -> both_set a b j = false).
Proof.
  revert s. induction fuel as [|fuel IH]; intros s Hsize Hs Hfuel Hlow; [lia|].
  cbn [bitmap_scan].
  rewrite (u64_small size), (u64_small s) by lia.
  destruct (find_next_bit_le_spec a size s) as (Hd1 & Hd2 & Hd3 & Hd4); [lia|].
  set (d := find_next_bit_le a size s) in *.
  specialize (Hd2 ltac:(lia)).
  rewrite (s32_small d), (u64_small d) by lia.
  destruct (find_next_bit_le_spec b size d) as (Hs1 & Hs2 & Hs3 & Hs4); [lia|].
  set (s' := find_next_bit_le b size d) in *.
  specialize (Hs2 ltac:(lia)).
  rewrite (s32_small s') by lia.
  assert (Hlow' : forall j, 0 <= j < d -> both_set a b j = false).
  { intros j Hj. destruct (Z.lt_ge_cases j s); [apply Hlow; lia|].
    unfold both_set. rewrite Hd4 by lia. reflexivity. }
  destruct (Z.eqb_spec d s') as [Heq|Hne].
  - exists d. repeat split; try lia; auto.
    intros Hlt. unfold both_set. rewrite Hd3, Heq, Hs3 by lia. reflexivity.
  - destruct (IH s') as (d' & Hscan & Hr & Hboth & Hnone); try lia.
    { intros j Hj. destruct (Z.lt_ge_cases j d); [apply Hlow'; lia|].
      unfold both_set. rewrite (Hs4 j) by lia. apply andb_false_r. }
    exists d'. repeat split; try lia; auto.
Qed.

(** the volume after [bitmap_alloc] took bit [d] of the dirty bitmap [b] *)
Definition bitmap_taken (sbi : scoutfs_sb_info) (b : scoutfs_bitmap_block) (d : Z)
    : scoutfs_sb_info :=
  with_dirty sbi (with_bm (dirty sbi) (Ok {| bm_bits := Z.clearbit (bm_bits b) d |})).

Lemma bitmap_alloc_no_ref sbi :
  buddy_bm_ref (super sbi) = 0 \/ buddy_bm_ref (stable_super sbi) = 0 ->
  bitmap_alloc sbi = (Err EIO, sbi).
Proof.
  intros Href. unfold bitmap_alloc.
  destruct Href as [-> | ->]; [reflexivity|].
  rewrite orb_true_r. reflexivity.
Qed.

Lemma bitmap_alloc_found sbi b st_b :
  format_ok ->
  0 <= buddy_blocks (super sbi) < 2 ^ 31 ->
  buddy_bm_ref (super sbi) <> 0 ->
  buddy_bm_ref (stable_super sbi) <> 0 ->
  bm (dirty sbi) = Ok b ->
  bm (stable sbi) = Ok st_b ->
  (exists d,
     0 <= d < buddy_blocks (super sbi) /\
     both_set (bm_bits b) (bm_bits st_b) d = true /\
     (forall j, 0 <= j < d -> both_set (bm_bits b) (bm_bits st_b) j = false) /\
     bitmap_alloc sbi =
       (Ok (SCOUTFS_BUDDY_BM_BLKNO + SCOUTFS_BUDDY_BM_NR + d), bitmap_taken sbi b d) /\
     stable (bitmap_taken sbi b d) = stable sbi)
  \/
  ((forall j, 0 <= j < buddy_blocks (super sbi) ->
      both_set (bm_bits b) (bm_bits st_b) j = false) /\
   bitmap_alloc sbi = (Err ENOSPC, sbi)).
Proof.
  intros Hfmt Hsize Hd Hs Hb Hsb. unfold bitmap_alloc.
  destruct (Z.eqb_spec (buddy_bm_ref (super sbi)) 0); [contradiction|].
  destruct (Z.eqb_spec (buddy_bm_ref (stable_super sbi)) 0); [contradiction|].
  cbn [orb]. rewrite Hb, Hsb.
  rewrite (s32_small (buddy_blocks (super sbi))) by lia.
  set (size := buddy_blocks (super sbi)) in *.
  destruct (bitmap_scan_spec (S (Z.to_nat size)) (bm_bits b) (bm_bits st_b) size 0)
    as (d & Hscan & Hr & Hboth & Hnone); try lia.
  rewrite Hscan.
  destruct (Z.leb_spec size d) as [Hge|Hlt].
  - right. split; [|reflexivity]. intros j Hj. apply Hnone; lia.
  - left. exists d. repeat split; try lia; auto.
    unfold bitmap_taken, clear_bit_le. rewrite u64_small; [reflexivity|].
    unfold format_ok in Hfmt. lia.
Qed.

(** C3: [bitmap_alloc] fails with [-EIO] when the bitmap reference of the
    dirty or of the stable super is absent.  Otherwise, on the two bitmap
    blocks, it returns [BM_BLKNO + BM_NR + d] for the lowest [d] below
    [buddy_blocks] whose bit is set in both and clears that bit in the
    dirty block alone, or fails with [-ENOSPC] when no bit is set in
    both. *)
Theorem bitmap_alloc_lowest_common_bit (sbi : scoutfs_sb_info) :
  format_ok ->
  0 <= buddy_blocks (super sbi) < 2 ^ 31 ->
  (buddy_bm_ref (super sbi) = 0 \/ buddy_bm_ref (stable_super sbi) = 0 ->
   bitmap_alloc sbi = (Err EIO, sbi)) /\
  (forall b st_b,
     buddy_bm_ref (super sbi) <> 0 ->
     buddy_bm_ref (stable_super sbi) <> 0 ->
     bm (dirty sbi) = Ok b ->
     bm (stable sbi) = Ok st_b ->
     (exists d,
        0 <= d < buddy_blocks (super sbi) /\
        both_set (bm_bits b) (bm_bits st_b) d = true /\
        (forall j, 0 <= j < d -> both_set (bm_bits b) (bm_bits st_b) j = false) /\
        bitmap_alloc sbi =
          (Ok (SCOUTFS_BUDDY_BM_BLKNO + SCOUTFS_BUDDY_BM_NR + d), bitmap_taken sbi b d) /\
        stable (bitmap_taken sbi b d) = stable sbi)
     \/
     ((forall j, 0 <= j < buddy_blocks (super sbi) ->
         both_set (bm_bits b) (bm_bits st_b) j = false) /\
      bitmap_alloc sbi = (Err ENOSPC, sbi))).
Proof.
  intros Hfmt Hsize. split.
  - apply bitmap_alloc_no_ref.
  - intros b st_b Hd Hs Hb Hsb. apply bitmap_alloc_found; assumption.
Qed.

(** ** The layout of a buddy block's bitmap *)

(** the number of bits of an order's bitmap *)
Definition order_bits (order : Z) : Z := SCOUTFS_BUDDY_ORDER0_BITS / 2 ^ order.

Lemma order_bits_exact k :
  format_ok -> 0 <= k < SCOUTFS_BUDDY_ORDERS ->
  order_bits k * 2 ^ k = SCOUTFS_BUDDY_ORDER0_BITS.
Proof.
  intros (Ho & Hb & Hdiv & _) Hk. unfold order_bits.
  apply Z.mod_divide in Hdiv; [|lia]. destruct Hdiv as [m Hm].
  rewrite Hm.
  replace (SCOUTFS_BUDDY_ORDERS - 1) with ((SCOUTFS_BUDDY_ORDERS - 1 - k) + k) by lia.
  rewrite Z.pow_add_r by lia.
  rewrite Z.mul_assoc, Z.div_mul by lia. reflexivity.
Qed.

Lemma order_bits_pos k :
  format_ok -> 0 <= k < SCOUTFS_BUDDY_ORDERS -> 0 < order_bits k.
Proof.
  intros Hf Hk. pose proof (order_bits_exact k Hf Hk) as He.
  destruct Hf as (_ & Hb & _).
  assert (0 < 2 ^ k) by lia. nia.
Qed.

Lemma order_bits_0 : order_bits 0 = SCOUTFS_BUDDY_ORDER0_BITS.
Proof. unfold order_bits. apply Z.div_1_r. Qed.

Lemma order_bits_half k :
  format_ok -> 0 <= k -> k + 1 < SCOUTFS_BUDDY_ORDERS ->
  order_bits k = 2 * order_bits (k + 1).
Proof.
  intros Hf Hk Hk1.
  pose proof (order_bits_exact k Hf ltac:(lia)) as H1.
  pose proof (order_bits_exact (k + 1) Hf ltac:(lia)) as H2.
  rewrite Z.pow_add_r in H2 by lia. change (2 ^ 1) with 2 in H2.
  assert (0 < 2 ^ k) by lia. nia.
Qed.

Lemma order_bits_le k :
  format_ok -> 0 <= k < SCOUTFS_BUDDY_ORDERS -> order_bits k <= SCOUTFS_BUDDY_ORDER0_BITS.
Proof.
  intros Hf Hk. pose proof (order_bits_exact k Hf Hk).
  pose proof (order_bits_pos k Hf Hk). assert (0 < 2 ^ k) by lia. nia.
Qed.

Lemma order_off_closed k :
  format_ok -> 0 <= k < SCOUTFS_BUDDY_ORDERS ->
  order_off k = 2 * SCOUTFS_BUDDY_ORDER0_BITS - 2 * order_bits k.
Proof.
  intros Hf Hk. unfold order_off.
  destruct (Z.eqb_spec k 0) as [->|Hne].
  - rewrite order_bits_0. lia.
  - rewrite Z.shiftl_1_l. fold (order_bits (k - 1)).
    rewrite (order_bits_half (k - 1)) by (auto; lia).
    replace (k - 1 + 1) with k by lia. reflexivity.
Qed.

Lemma order_off_next k :
  format_ok -> 0 <= k < SCOUTFS_BUDDY_ORDERS ->
  order_off (k + 1) = order_off k + order_bits k.
Proof.
  intros Hf Hk. rewrite (order_off_closed k) by auto. unfold order_off.
  destruct (Z.eqb_spec (k + 1) 0); [lia|].
  rewrite Z.shiftl_1_l. replace (k + 1 - 1) with k by lia.
  fold (order_bits k). lia.
Qed.

Lemma order_off_range k :
  format_ok -> 0 <= k < SCOUTFS_BUDDY_ORDERS ->
  0 <= order_off k /\ order_off k + order_bits k <= 2 * SCOUTFS_BUDDY_ORDER0_BITS.
Proof.
  intros Hf Hk. rewrite order_off_closed by auto.
  pose proof (order_bits_pos k Hf Hk). pose proof (order_bits_le k Hf Hk). lia.
Qed.

Lemma order_bits_mono k k' :
  format_ok -> 0 <= k <= k' -> k' < SCOUTFS_BUDDY_ORDERS ->
  order_bits k' <= order_bits k.
Proof.
  intros Hf Hk Hk'.
  pose proof (order_bits_exact k Hf ltac:(lia)) as H1.
  pose proof (order_bits_exact k' Hf ltac:(lia)) as H2.
  pose proof (order_bits_pos k Hf ltac:(lia)).
  pose proof (order_bits_pos k' Hf ltac:(lia)).
  assert (0 < 2 ^ k <= 2 ^ k') by (split; [lia | apply Z.pow_le_mono_r; lia]).
  nia.
Qed.

(** the bitmaps of the orders follow each other *)
Lemma order_off_mono k k' :
  format_ok -> 0 <= k < k' -> k' < SCOUTFS_BUDDY_ORDERS ->
  order_off k + order_bits k <= order_off k'.
Proof.
  intros Hf Hk Hk'.
  rewrite (order_off_closed k), (order_off_closed k') by (auto; lia).
  pose proof (order_bits_mono (k + 1) k' Hf ltac:(lia) ltac:(lia)).
  pose proof (order_bits_half k Hf ltac:(lia) ltac:(lia)). lia.
Qed.

(** a bit of an order, by its number in the order's bitmap *)
Definition valid_bit (order nr : Z) : Prop :=
  0 <= order < SCOUTFS_BUDDY_ORDERS /\ 0 <= nr < order_bits order.

Lemma order_nr_valid k n :
  format_ok -> valid_bit k n -> order_nr k n = order_off k + n.
Proof.
  intros Hf [Hk Hn]. unfold order_nr.
  pose proof (order_off_range k Hf Hk).
  destruct Hf as (_ & _ & _ & Hint & _).
  apply s32_small. lia.
Qed.

Lemma order_nr_inj k n k' n' :
  format_ok -> valid_bit k n -> valid_bit k' n' ->
  order_nr k n = order_nr k' n' -> k = k' /\ n = n'.
Proof.
  intros Hf Hv Hv' Heq.
  rewrite !order_nr_valid in Heq by auto.
  destruct Hv as [Hk Hn], Hv' as [Hk' Hn'].
  destruct (Z.lt_trichotomy k k') as [Hlt|[->|Hgt]].
  - pose proof (order_off_mono k k' Hf ltac:(lia) ltac:(lia)). lia.
  - split; [reflexivity | lia].
  - pose proof (order_off_mono k' k Hf ltac:(lia) ltac:(lia)). lia.
Qed.

Lemma valid_bit_parent k n :
  format_ok -> valid_bit k n -> k + 1 < SCOUTFS_BUDDY_ORDERS ->
  valid_bit (k + 1) (Z.shiftr n 1).
Proof.
  intros Hf [Hk Hn] Hk1. split; [lia|].
  rewrite Z.shiftr_div_pow2 by lia. change (2 ^ 1) with 2.
  rewrite (order_bits_half k) in Hn by (auto; lia).
  split; [apply Z.div_pos; lia | apply Z.div_lt_upper_bound; lia].
Qed.

Lemma lxor_1 n : 0 <= n -> Z.lxor n 1 = if Z.even n then n + 1 else n - 1.
Proof.
  intros Hn. destruct n as [|p|p]; [reflexivity | destruct p; reflexivity | lia].
Qed.

Lemma lxor_1_range n : 0 <= n -> 0 <= Z.lxor n 1 /\ Z.shiftr (Z.lxor n 1) 1 = Z.shiftr n 1.
Proof.
  intros Hn. rewrite lxor_1 by lia. rewrite !Z.shiftr_div_pow2 by lia.
  change (2 ^ 1) with 2.
  destruct (Z.even n) eqn:He.
  - apply Z.even_spec in He. destruct He as [m ->]. split; [lia|].
    rewrite (Z.mul_comm 2 m), Z.div_add_l, Z.div_mul by lia.
    change (1 / 2) with 0. lia.
  - assert (Ho : Z.odd n = true) by (rewrite <- Z.negb_even, He; reflexivity).
    apply Z.odd_spec in Ho. destruct Ho as [m ->]. split; [lia|].
    replace (2 * m + 1 - 1) with (m * 2) by lia.
    rewrite (Z.mul_comm 2 m), Z.div_add_l, Z.div_mul by lia.
    change (1 / 2) with 0. lia.
Qed.

Lemma valid_bit_buddy k n :
  format_ok -> valid_bit k n -> k + 1 < SCOUTFS_BUDDY_ORDERS ->
  valid_bit k (Z.lxor n 1).
Proof.
  intros Hf [Hk Hn] Hk1. split; [lia|].
  rewrite (order_bits_half k) in * by (auto; lia).
  rewrite lxor_1 by lia.
  destruct (Z.even n) eqn:He.
  - apply Z.even_spec in He. destruct He as [m ->]. lia.
  - assert (Ho : Z.odd n = true) by (rewrite <- Z.negb_even, He; reflexivity).
    apply Z.odd_spec in Ho. destruct Ho as [m ->]. lia.
Qed.

(** ** Arrays *)

Lemma aget_aset_eq {A : Type} (d : A) (l : list A) i v :
  (Z.to_nat i < length l)%nat -> aget d (aset l i v) i = v.
Proof.
  intros Hi. unfold aget, aset. rewrite list_lookup_insert_eq by exact Hi. reflexivity.
Qed.

Lemma aget_aset_ne {A : Type} (d : A) (l : list A) i j v :
  0 <= i -> 0 <= j -> i <> j -> aget d (aset l i v) j = aget d l j.
Proof.
  intros Hi Hj Hne. unfold aget, aset. rewrite list_lookup_insert_ne by lia. reflexivity.
Qed.

Lemma length_aset {A : Type} (l : list A) i v : length (aset l i v) = length l.
Proof. apply length_insert. Qed.

(** ** Reading buddy bits *)

Lemma find_next_buddy_bit_spec bud k s :
  format_ok -> 0 <= k < SCOUTFS_BUDDY_ORDERS -> 0 <= s <= INT_MAX ->
  let r := find_next_buddy_bit bud k s in
  (r = INT_MAX /\ forall n, s <= n < order_bits k -> test_buddy_bit bud k n = false) \/
  (s <= r < order_bits k /\ test_buddy_bit bud k r = true /\
   forall n, s <= n < r -> test_buddy_bit bud k n = false).
Proof.
  intros Hf Hk Hs r. subst r. unfold find_next_buddy_bit.
  pose proof (order_off_range k Hf Hk) as [Ho1 Ho2].
  pose proof (order_bits_pos k Hf Hk) as Hbp.
  rewrite (order_off_next k) by auto.
  assert (Hint : 2 * SCOUTFS_BUDDY_ORDER0_BITS < 2 ^ 31) by (destruct Hf; tauto).
  set (size := order_off k + order_bits k) in *.
  assert (Hsz : size = order_off k + order_bits k) by reflexivity.
  clearbody size.
  rewrite (u64_small size) by lia.
  assert (Htest : forall n, 0 <= n < order_bits k ->
            test_buddy_bit bud k n = Z.testbit (bits bud) (order_off k + n)).
  { intros n Hn. unfold test_buddy_bit, test_bit_le.
    rewrite order_nr_valid by (auto; split; lia). reflexivity. }
  unfold INT_MAX in *.
  destruct (Z.lt_ge_cases (order_off k + s) (2 ^ 31)) as [Hno|Hwrap].
  - unfold order_nr. rewrite (s32_small (order_off k + s)), u64_small by lia.
    destruct (find_next_bit_le_spec (bits bud) size (order_off k + s)) as (H1 & H2 & H3 & H4);
      [lia|].
    set (r := find_next_bit_le (bits bud) size (order_off k + s)) in *.
    destruct (Z.le_gt_cases size (order_off k + s)) as [Hout|Hin].
    + subst r. rewrite find_next_bit_le_ge by lia. rewrite s32_small by lia.
      rewrite Z.leb_refl. left. split; [reflexivity | intros; lia].
    + specialize (H2 ltac:(lia)). rewrite s32_small by lia.
      destruct (Z.leb_spec size r) as [Hge|Hlt].
      * left. split; [reflexivity|]. intros n Hn. rewrite Htest by lia. apply H4; lia.
      * right. split; [lia|]. split.
        -- rewrite Htest by lia. replace (order_off k + (r - order_off k)) with r by lia.
           apply H3; lia.
        -- intros n Hn. rewrite Htest by lia. apply H4; lia.
  - assert (Hr : 2 ^ 31 <= order_off k + s < 2 ^ 32). { lia. }
    pose proof (u64_s32_wrapped (order_off k + s) Hr) as Hbig.
    unfold order_nr. rewrite find_next_bit_le_ge by lia. rewrite s32_small by lia.
    rewrite Z.leb_refl. left. split; [reflexivity | intros; lia].
Qed.

Lemma or_higher_from_spec n bud i nr :
  test_buddy_bit_or_higher_from n bud i nr = true <->
  exists j, 0 <= j < Z.of_nat n /\ test_buddy_bit bud (i + j) (Z.shiftr nr j) = true.
Proof.
  revert i nr. induction n as [|n IH]; intros i nr; cbn [test_buddy_bit_or_higher_from].
  - split; [discriminate | intros (j & Hj & _); lia].
  - destruct (test_buddy_bit bud i nr) eqn:Ht.
    + split; [|reflexivity]. intros _. exists 0. split; [lia|].
      rewrite Z.add_0_r, Z.shiftr_0_r. exact Ht.
    + rewrite IH. split.
      * intros (j & Hj & Hb). exists (j + 1). split; [lia|].
        rewrite Z.shiftr_shiftr in Hb by lia.
        replace (i + (j + 1)) with (i + 1 + j) by lia.
        replace (j + 1) with (1 + j) by lia. exact Hb.
      * intros (j & Hj & Hb). destruct (Z.eq_dec j 0) as [->|Hne].
        { rewrite Z.add_0_r, Z.shiftr_0_r in Hb. congruence. }
        exists (j - 1). split; [lia|].
        rewrite Z.shiftr_shiftr by lia.
        replace (i + 1 + (j - 1)) with (i + j) by lia.
        replace (1 + (j - 1)) with j by lia. exact Hb.
Qed.

(** some order from [k] up has the bit over [nr] set *)
Lemma test_buddy_bit_or_higher_spec bud k nr :
  test_buddy_bit_or_higher bud k nr = true <->
  exists j, k <= j < SCOUTFS_BUDDY_ORDERS /\
            test_buddy_bit bud j (Z.shiftr nr (j - k)) = true.
Proof.
  unfold test_buddy_bit_or_higher. rewrite or_higher_from_spec. split.
  - intros (j & Hj & Hb). exists (k + j). split; [lia|].
    replace (k + j - k) with j by lia. exact Hb.
  - intros (j & Hj & Hb). exists (j - k). split; [lia|].
    replace (k + (j - k)) with j by lia. exact Hb.
Qed.

(** a free region covers the regions of lower orders inside it *)
Lemma test_buddy_bit_or_higher_inside bud k n k' m :
  0 <= k' <= k -> Z.shiftr m (k - k') = n ->
  test_buddy_bit_or_higher bud k n = true ->
  test_buddy_bit_or_higher bud k' m = true.
Proof.
  intros Hk Hm. rewrite !test_buddy_bit_or_higher_spec.
  intros (j & Hj & Hb). exists j. split; [lia|].
  subst n. rewrite Z.shiftr_shiftr in Hb by lia.
  replace (k - k' + (j - k)) with (j - k') in Hb by lia. exact Hb.
Qed.

(** ** [find_first_fit] *)

(** the region is free in the stable buddy block, if there is one *)
Definition stable_ok (st_bud : option scoutfs_buddy_block) (i nr : Z) : bool :=
  match st_bud with
  | None => false
  | Some st => test_buddy_bit_or_higher st i nr
  end.

(** a bit that [find_first_fit] may return for the order: set in the
    dirty block, of the order or higher, and free in the stable block *)
Definition good_fit (bud : scoutfs_buddy_block) (st_bud : option scoutfs_buddy_block)
    (order i nr : Z) : Prop :=
  order <= i /\ valid_bit i nr /\ test_buddy_bit bud i nr = true /\
  stable_ok st_bud i nr = true.

Definition super_ok (sup : scoutfs_super_block) : Prop :=
  0 <= buddy_blocks sup < 2 ^ 31.

Lemma first_blkno_eq sup :
  format_ok -> super_ok sup ->
  first_blkno sup = SCOUTFS_BUDDY_BM_BLKNO + SCOUTFS_BUDDY_BM_NR + buddy_blocks sup /\
  0 <= first_blkno sup < 2 ^ 33.
Proof.
  intros Hf Hs. unfold first_blkno, super_ok, format_ok in *.
  rewrite u64_small by lia. lia.
Qed.

(** the first block of a valid bit of a slot *)
Lemma slot_buddy_blkno_eq sup sl k n :
  format_ok -> super_ok sup -> 0 <= sl < SCOUTFS_BUDDY_SLOTS -> valid_bit k n ->
  slot_buddy_blkno sup sl k n
    = first_blkno sup + sl * SCOUTFS_BUDDY_ORDER0_BITS + n * 2 ^ k /\
  0 <= n * 2 ^ k /\ (n + 1) * 2 ^ k <= SCOUTFS_BUDDY_ORDER0_BITS /\
  slot_buddy_blkno sup sl k n < 2 ^ 34.
Proof.
  intros Hf Hs Hsl [Hk Hn].
  pose proof (first_blkno_eq sup Hf Hs) as [_ Hfb].
  pose proof (order_bits_exact k Hf Hk) as Hex.
  assert (H2k : 0 < 2 ^ k) by lia.
  assert (Hext : 0 <= n * 2 ^ k /\ (n + 1) * 2 ^ k <= SCOUTFS_BUDDY_ORDER0_BITS) by nia.
  assert (Hslots : sl * SCOUTFS_BUDDY_ORDER0_BITS + SCOUTFS_BUDDY_ORDER0_BITS <= 2 ^ 32).
  { destruct Hf as (_ & Hb & _ & _ & _ & Hss & _). nia. }
  unfold slot_buddy_blkno. rewrite Z.shiftl_mul_pow2 by lia.
  rewrite u64_small by nia. repeat split; try lia; nia.
Qed.

Definition fit_inv (bud : scoutfs_buddy_block) (st_bud : option scoutfs_buddy_block)
    (order : Z) (f : fit) : Prop :=
  length (nrs f) = Z.to_nat SCOUTFS_BUDDY_ORDERS /\
  (forall i, 0 <= i < SCOUTFS_BUDDY_ORDERS -> 0 <= aget 0 (nrs f) i <= INT_MAX) /\
  (fit_ret f = INT_MAX -> fit_blkno f = U64_MAX) /\
  (fit_ret f <> INT_MAX -> good_fit bud st_bud order (fit_order f) (fit_ret f)) /\
  (forall i n, order <= i < SCOUTFS_BUDDY_ORDERS -> 0 <= n < aget 0 (nrs f) i ->
     n < order_bits i -> test_buddy_bit bud i n = true -> stable_ok st_bud i n = false).

Lemma fit_step_spec sup sl bud st_bud order i f :
  format_ok -> super_ok sup -> 0 <= sl < SCOUTFS_BUDDY_SLOTS ->
  0 <= order <= i -> i < SCOUTFS_BUDDY_ORDERS ->
  fit_inv bud st_bud order f ->
  let f' := fit_step sup sl bud st_bud i f in
  fit_inv bud st_bud order f' /\
  (forall j, 0 <= j -> j <> i -> aget 0 (nrs f') j = aget 0 (nrs f) j) /\
  aget 0 (nrs f) i <= aget 0 (nrs f') i /\
  (made_progress f = true -> made_progress f' = true) /\
  (made_progress f' = true ->
     made_progress f = true \/ fit_ret f' <> INT_MAX \/
     (aget 0 (nrs f) i < order_bits i /\ aget 0 (nrs f) i < aget 0 (nrs f') i)) /\
  (made_progress f' = false ->
     forall n, aget 0 (nrs f) i <= n < order_bits i -> test_buddy_bit bud i n = false) /\
  (fit_ret f <> INT_MAX -> fit_ret f' <> INT_MAX).
Proof.
  intros Hf Hsup Hsl Ho Hi (Hlen & Hrange & Hblk & Hgood & Hlow) f'. subst f'.
  assert (Hk : 0 <= i < SCOUTFS_BUDDY_ORDERS) by lia.
  pose proof (Hrange i Hk) as Hs.
  pose proof (order_bits_le i Hf Hk) as Hble.
  assert (Hint : 2 * SCOUTFS_BUDDY_ORDER0_BITS < 2 ^ 31) by (destruct Hf; tauto).
  assert (Hidx : (Z.to_nat i < length (nrs f))%nat) by lia.
  (* what storing [v] in [nrs[i]] keeps, when the bits from the old
     [nrs[i]] up to [v] are no candidates *)
  assert (Hstore : forall v, aget 0 (nrs f) i <= v <= INT_MAX ->
            (forall n, aget 0 (nrs f) i <= n < v -> n < order_bits i ->
               test_buddy_bit bud i n = true -> stable_ok st_bud i n = false) ->
            length (aset (nrs f) i v) = Z.to_nat SCOUTFS_BUDDY_ORDERS /\
            (forall j, 0 <= j < SCOUTFS_BUDDY_ORDERS ->
               0 <= aget 0 (aset (nrs f) i v) j <= INT_MAX) /\
            (forall j n, order <= j < SCOUTFS_BUDDY_ORDERS ->
               0 <= n < aget 0 (aset (nrs f) i v) j -> n < order_bits j ->
               test_buddy_bit bud j n = true -> stable_ok st_bud j n = false) /\
            (forall j, 0 <= j -> j <> i ->
               aget 0 (aset (nrs f) i v) j = aget 0 (nrs f) j) /\
            aget 0 (aset (nrs f) i v) i = v).
  { intros v Hv Hbetween.
    assert (Hget : forall j, 0 <= j -> j <> i ->
              aget 0 (aset (nrs f) i v) j = aget 0 (nrs f) j).
    { intros j Hj Hne. apply aget_aset_ne; lia. }
    assert (Hgeti : aget 0 (aset (nrs f) i v) i = v) by (apply aget_aset_eq; exact Hidx).
    split; [rewrite length_aset; exact Hlen|]. split; [|split; [|split; [exact Hget|exact Hgeti]]].
    - intros j Hj. destruct (Z.eq_dec j i) as [->|Hne].
      + rewrite Hgeti. lia.
      + rewrite Hget by lia. apply Hrange; lia.
    - intros j n Hj Hn Hnb Hbit. destruct (Z.eq_dec j i) as [->|Hne].
      + rewrite Hgeti in Hn. destruct (Z.lt_ge_cases n (aget 0 (nrs f) i)).
        * apply (Hlow i n); auto; lia.
        * apply Hbetween; auto; lia.
      + rewrite Hget in Hn by lia. apply (Hlow j n); auto. }
  unfold fit_step.
  destruct (find_next_buddy_bit_spec bud i (aget 0 (nrs f) i) Hf Hk Hs)
    as [[Hr Hnone] | (Hr & Hset & Hnone)];
    set (r := find_next_buddy_bit bud i (aget 0 (nrs f) i)) in *.
  - (* no more bits in the order *)
    rewrite Hr, Z.eqb_refl.
    destruct (Hstore INT_MAX) as (Hl' & Hr' & Hlow' & Hget & Hgeti).
    { unfold INT_MAX in *; lia. }
    { intros n Hn Hnb Hbit. rewrite Hnone in Hbit by lia. discriminate. }
    unfold fit_inv; cbn [nrs fit_blkno fit_ret fit_order made_progress].
    refine (conj _ (conj Hget (conj _ (conj _ (conj _ (conj _ _)))))).
    + exact (conj Hl' (conj Hr' (conj Hblk (conj Hgood Hlow')))).
    + rewrite Hgeti. lia.
    + auto.
    + intros Hp. left. exact Hp.
    + intros _ n Hn. apply Hnone. lia.
    + auto.
  - (* a bit of the dirty block *)
    assert (Hne : r <> INT_MAX) by (unfold INT_MAX; lia).
    destruct (Z.eqb_spec r INT_MAX) as [|_]; [contradiction|].
    assert (Hv : valid_bit i r) by (split; lia).
    assert (Hskip : (match st_bud with
                     | None => true
                     | Some st => negb (test_buddy_bit_or_higher st i r)
                     end) = negb (stable_ok st_bud i r)).
    { destruct st_bud; reflexivity. }
    rewrite Hskip.
    destruct (stable_ok st_bud i r) eqn:Hst; cbn [negb].
    + (* free in stable: a candidate *)
      pose proof (slot_buddy_blkno_eq sup sl i r Hf Hsup Hsl Hv) as (_ & _ & _ & Hbno).
      destruct (Hstore r) as (Hl' & Hr' & Hlow' & Hget & Hgeti).
      { unfold INT_MAX in *; lia. }
      { intros n Hn Hnb Hbit. rewrite Hnone in Hbit by lia. discriminate. }
      destruct (Z.ltb_spec (slot_buddy_blkno sup sl i r) (fit_blkno f)) as [Hlt|Hge];
        unfold fit_inv; cbn [nrs fit_blkno fit_ret fit_order made_progress].
      * refine (conj _ (conj Hget (conj _ (conj _ (conj _ (conj _ _)))))).
        -- split; [exact Hl'|]. split; [exact Hr'|].
           split; [intros; contradiction|]. split; [|exact Hlow'].
           intros _. split; [lia|]. split; [exact Hv|]. split; [exact Hset|exact Hst].
        -- rewrite Hgeti. lia.
        -- auto.
        -- intros _. right. left. exact Hne.
        -- discriminate.
        -- intros _. exact Hne.
      * assert (Hfound : fit_ret f <> INT_MAX).
        { intros Heq. rewrite (Hblk Heq) in Hge. unfold U64_MAX in Hge. lia. }
        refine (conj _ (conj Hget (conj _ (conj _ (conj _ (conj _ _)))))).
        -- exact (conj Hl' (conj Hr' (conj Hblk (conj Hgood Hlow')))).
        -- rewrite Hgeti. lia.
        -- auto.
        -- intros _. right. left. exact Hfound.
        -- discriminate.
        -- auto.
    + (* not free in stable: advance *)
      rewrite (s32_small (r + 1)) by lia.
      destruct (Hstore (r + 1)) as (Hl' & Hr' & Hlow' & Hget & Hgeti).
      { unfold INT_MAX in *; lia. }
      { intros n Hn Hnb Hbit. destruct (Z.eq_dec n r) as [->|Hnr]; [exact Hst|].
        rewrite Hnone in Hbit by lia. discriminate. }
      unfold fit_inv; cbn [nrs fit_blkno fit_ret fit_order made_progress].
      refine (conj _ (conj Hget (conj _ (conj _ (conj _ (conj _ _)))))).
      * exact (conj Hl' (conj Hr' (conj Hblk (conj Hgood Hlow')))).
      * rewrite Hgeti. lia.
      * auto.
      * intros _. right. right. rewrite Hgeti. lia.
      * discriminate.
      * auto.
Qed.

(** the bits that the orders [i], ..., [i + n - 1] still have from
    their [nrs] up: what bounds the passes of [find_first_fit] *)
Fixpoint fit_rem (n : nat) (i : Z) (ns : list Z) : Z :=
  match n with
  | O => 0
  | S n' => Z.max 0 (order_bits i - aget 0 ns i) + fit_rem n' (i + 1) ns
  end.

Lemma fit_rem_nonneg n i ns : 0 <= fit_rem n i ns.
Proof. revert i. induction n as [|n IH]; intros i; cbn [fit_rem]; [lia|]. specialize (IH (i + 1)). lia. Qed.

Lemma fit_rem_ext n i ns ns' :
  (forall j, i <= j < i + Z.of_nat n -> aget 0 ns j = aget 0 ns' j) ->
  fit_rem n i ns = fit_rem n i ns'.
Proof.
  revert i. induction n as [|n IH]; intros i Hext; cbn [fit_rem]; [reflexivity|].
  rewrite (Hext i) by lia. rewrite (IH (i + 1)); [reflexivity|].
  intros j Hj. apply Hext. lia.
Qed.

Lemma fit_rem_bound n i ns :
  format_ok -> 0 <= i -> i + Z.of_nat n <= SCOUTFS_BUDDY_ORDERS ->
  (forall j, 0 <= j < SCOUTFS_BUDDY_ORDERS -> 0 <= aget 0 ns j) ->
  fit_rem n i ns <= order_off (i + Z.of_nat n) - order_off i.
Proof.
  intros Hf. revert i. induction n as [|n IH]; intros i Hi Hn Hns; cbn [fit_rem].
  - replace (i + Z.of_nat 0) with i by lia. lia.
  - specialize (IH (i + 1) ltac:(lia) ltac:(lia) Hns).
    replace (i + 1 + Z.of_nat n) with (i + Z.of_nat (S n)) in IH by lia.
    rewrite (order_off_next i) in IH by (auto; lia).
    specialize (Hns i ltac:(lia)).
    pose proof (order_bits_pos i Hf ltac:(lia)). lia.
Qed.

Lemma fit_pass_spec sup sl bud st_bud order n :
  format_ok -> super_ok sup -> 0 <= sl < SCOUTFS_BUDDY_SLOTS ->
  forall i f,
  0 <= order <= i -> i + Z.of_nat n <= SCOUTFS_BUDDY_ORDERS ->
  fit_inv bud st_bud order f ->
  let f' := fit_pass n sup sl bud st_bud i f in
  fit_inv bud st_bud order f' /\
  (forall j, 0 <= j -> j < i \/ i + Z.of_nat n <= j ->
     aget 0 (nrs f') j = aget 0 (nrs f) j) /\
  fit_rem n i (nrs f') <= fit_rem n i (nrs f) /\
  (made_progress f = true -> made_progress f' = true) /\
  (made_progress f' = true ->
     made_progress f = true \/ fit_ret f' <> INT_MAX \/
     fit_rem n i (nrs f') < fit_rem n i (nrs f)) /\
  (made_progress f' = false ->
     forall j m, i <= j < i + Z.of_nat n -> aget 0 (nrs f) j <= m < order_bits j ->
       test_buddy_bit bud j m = false) /\
  (fit_ret f <> INT_MAX -> fit_ret f' <> INT_MAX).
Proof.
  intros Hf Hsup Hsl. induction n as [|n IH]; intros i f Ho Hn Hinv f'; subst f'.
  - cbn [fit_pass fit_rem].
    refine (conj Hinv (conj _ (conj _ (conj _ (conj _ (conj _ _)))))).
    + intros; reflexivity.
    + lia.
    + auto.
    + intros Hp; left; exact Hp.
    + intros _ j m Hj; lia.
    + auto.
  - cbn [fit_pass fit_rem].
    destruct (fit_step_spec sup sl bud st_bud order i f Hf Hsup Hsl Ho ltac:(lia) Hinv)
      as (Hinv1 & Hfr1 & Hmono1 & Hp1 & Hprog1 & Hnone1 & Hret1).
    set (f1 := fit_step sup sl bud st_bud i f) in *.
    destruct (IH (i + 1) f1 ltac:(lia) ltac:(lia) Hinv1)
      as (Hinv2 & Hfr2 & Hrem2 & Hp2 & Hprog2 & Hnone2 & Hret2).
    set (f2 := fit_pass n sup sl bud st_bud (i + 1) f1) in *.
    assert (Hi2 : aget 0 (nrs f2) i = aget 0 (nrs f1) i) by (apply Hfr2; lia).
    assert (Hrem1 : fit_rem n (i + 1) (nrs f1) = fit_rem n (i + 1) (nrs f)).
    { apply fit_rem_ext. intros j Hj. apply Hfr1; lia. }
    refine (conj Hinv2 (conj _ (conj _ (conj _ (conj _ (conj _ _)))))).
    + intros j Hj Hout. rewrite Hfr2 by lia. apply Hfr1; lia.
    + rewrite Hi2. lia.
    + auto.
    + intros Hp. rewrite Hi2.
      destruct (Hprog2 Hp) as [Hp'|[Hr|Hlt]]; [|auto|right; right; lia].
      destruct (Hprog1 Hp') as [Hp''|[Hr|[Hlt1 Hlt2]]]; [auto| |right; right; lia].
      right. left. apply Hret2. exact Hr.
    + intros Hp j m Hj Hm.
      assert (Hp1' : made_progress f1 = false).
      { destruct (made_progress f1) eqn:E; [|reflexivity]. rewrite Hp2 in Hp; auto. }
      destruct (Z.eq_dec j i) as [->|Hne].
      * apply Hnone1; auto.
      * apply (Hnone2 Hp j m); [lia|]. rewrite Hfr1 by lia. exact Hm.
    + auto.
Qed.

Lemma fit_loop_spec sup sl bud st_bud order fuel :
  format_ok -> super_ok sup -> 0 <= sl < SCOUTFS_BUDDY_SLOTS ->
  0 <= order < SCOUTFS_BUDDY_ORDERS ->
  forall f,
  fit_inv bud st_bud order f ->
  fit_rem (Z.to_nat (SCOUTFS_BUDDY_ORDERS - order)) order (nrs f) < Z.of_nat fuel ->
  exists f', fit_loop fuel sup sl bud st_bud order f = Some f' /\
    fit_inv bud st_bud order f' /\
    (fit_ret f' = INT_MAX ->
     forall i n, order <= i -> valid_bit i n -> test_buddy_bit bud i n = true ->
       stable_ok st_bud i n = false).
Proof.
  intros Hf Hsup Hsl Ho. induction fuel as [|fuel IH]; intros f Hinv Hrem.
  - pose proof (fit_rem_nonneg (Z.to_nat (SCOUTFS_BUDDY_ORDERS - order)) order (nrs f)). lia.
  - cbn [fit_loop].
    set (f0 := {| nrs := nrs f; fit_blkno := fit_blkno f; fit_ret := fit_ret f;
                  fit_order := fit_order f; made_progress := false |}).
    assert (Hinv0 : fit_inv bud st_bud order f0) by exact Hinv.
    destruct (fit_pass_spec sup sl bud st_bud order
                (Z.to_nat (SCOUTFS_BUDDY_ORDERS - order)) Hf Hsup Hsl order f0
                ltac:(lia) ltac:(lia) Hinv0)
      as (Hinv1 & Hfr1 & Hrem1 & Hp1 & Hprog1 & Hnone1 & Hret1).
    set (f1 := fit_pass _ sup sl bud st_bud order f0) in *.
    destruct (Z.eqb_spec (fit_ret f1) INT_MAX) as [Hmax|Hfound]; cbn [andb].
    + destruct (made_progress f1) eqn:Hp.
      * apply IH; [exact Hinv1|].
        destruct (Hprog1 eq_refl) as [Hp0|[Hr|Hlt]];
          [discriminate | contradiction | ].
        change (nrs f0) with (nrs f) in Hlt. lia.
      * exists f1. split; [reflexivity|]. split; [exact Hinv1|].
        intros _ i n Hi [Hik Hn] Hbit.
        destruct Hinv0 as (_ & _ & _ & _ & Hlow).
        destruct (Z.lt_ge_cases n (aget 0 (nrs f0) i)).
        -- apply (Hlow i n); auto; lia.
        -- rewrite (Hnone1 eq_refl i n) in Hbit by lia. discriminate.
    + exists f1. split; [reflexivity|]. split; [exact Hinv1|]. intros; contradiction.
Qed.

(** [find_first_fit] returns a bit that fits the order and is free in
    both blocks, and [INT_MAX] only when no bit of the dirty block that
    fits is free in the stable block *)
Lemma find_first_fit_spec sup sl bud st_bud order :
  format_ok -> super_ok sup -> 0 <= sl < SCOUTFS_BUDDY_SLOTS ->
  0 <= order < SCOUTFS_BUDDY_ORDERS ->
  exists nr found, find_first_fit sup sl bud st_bud order = Some (nr, found) /\
    (nr <> INT_MAX -> good_fit bud st_bud order found nr) /\
    (nr = INT_MAX ->
     forall i n, order <= i -> valid_bit i n -> test_buddy_bit bud i n = true ->
       stable_ok st_bud i n = false).
Proof.
  intros Hf Hsup Hsl Ho. unfold find_first_fit.
  set (f0 := {| nrs := replicate (Z.to_nat SCOUTFS_BUDDY_ORDERS) 0; fit_blkno := U64_MAX;
                fit_ret := INT_MAX; fit_order := 0; made_progress := false |}).
  assert (Hget0 : forall j, aget 0 (nrs f0) j = 0).
  { intros j. unfold aget. cbn [nrs f0].
    destruct (replicate (Z.to_nat SCOUTFS_BUDDY_ORDERS) 0 !! Z.to_nat j) eqn:E; [|reflexivity].
    apply lookup_replicate in E. destruct E as [-> _]. reflexivity. }
  assert (Hinv0 : fit_inv bud st_bud order f0).
  { split; [apply length_replicate|]. split; [|split; [reflexivity|split; [intros H; contradiction|]]].
    - intros j _. rewrite Hget0. unfold INT_MAX; lia.
    - intros i n _ Hn. rewrite Hget0 in Hn. lia. }
  destruct (fit_loop_spec sup sl bud st_bud order
              (S (Z.to_nat (2 * SCOUTFS_BUDDY_ORDER0_BITS))) Hf Hsup Hsl Ho f0 Hinv0)
    as (f' & Hloop & Hinv' & Hnone).
  { pose proof (fit_rem_bound (Z.to_nat (SCOUTFS_BUDDY_ORDERS - order)) order (nrs f0)
                  Hf ltac:(lia) ltac:(lia)) as Hb.
    specialize (Hb ltac:(intros j _; rewrite Hget0; lia)).
    replace (order + Z.of_nat (Z.to_nat (SCOUTFS_BUDDY_ORDERS - order)))
      with (SCOUTFS_BUDDY_ORDERS - 1 + 1) in Hb by lia.
    rewrite (order_off_next (SCOUTFS_BUDDY_ORDERS - 1)) in Hb by (auto; lia).
    assert (Htop : 0 <= SCOUTFS_BUDDY_ORDERS - 1 < SCOUTFS_BUDDY_ORDERS) by lia.
    pose proof (order_off_range (SCOUTFS_BUDDY_ORDERS - 1) Hf Htop).
    pose proof (order_off_range order Hf Ho).
    assert (0 < SCOUTFS_BUDDY_ORDER0_BITS) by (destruct Hf; tauto).
    lia. }
  rewrite Hloop. exists (fit_ret f'), (fit_order f'). split; [reflexivity|].
  destruct Hinv' as (_ & _ & _ & Hgood & _). split; [exact Hgood | exact Hnone].
Qed.

(** ** What an allocation leaves alone *)

(** the two volumes differ at most in their dirty blocks *)
Definition same_but_dirty (a b : scoutfs_sb_info) : Prop := b = with_dirty a (dirty b).

Lemma same_but_dirty_refl a : same_but_dirty a a.
Proof. destruct a; reflexivity. Qed.

Lemma same_but_dirty_trans a b c :
  same_but_dirty a b -> same_but_dirty b c -> same_but_dirty a c.
Proof. unfold same_but_dirty. intros Hab Hbc. rewrite Hbc, Hab. reflexivity. Qed.

Lemma same_but_dirty_with a d : same_but_dirty a (with_dirty a d).
Proof. reflexivity. Qed.

Lemma same_but_dirty_put_bud a sl bud : same_but_dirty a (put_bud a sl bud).
Proof. reflexivity. Qed.

Lemma same_but_dirty_put_ind a i : same_but_dirty a (put_ind a i).
Proof. reflexivity. Qed.

Lemma same_but_dirty_fields a b :
  same_but_dirty a b ->
  super b = super a /\ stable_super b = stable_super a /\ stable b = stable a /\
  new_block_err b = new_block_err a /\
  file_alloc_blkno b = file_alloc_blkno a /\ file_alloc_count b = file_alloc_count a /\
  btree b = btree a /\
  btree_update_err b = btree_update_err a /\ btree_insert_err b = btree_insert_err a.
Proof. intros ->. repeat split. Qed.

Lemma put_ind_same sbi i : ind (dirty sbi) = Ok i -> put_ind sbi i = sbi.
Proof.
  intros H. destruct sbi as [? ? d ? ? ? ? ? ? ?]. destruct d as [? di ?].
  cbn in *. subst di. reflexivity.
Qed.

Create HintDb frame.
#[local] Hint Resolve same_but_dirty_refl same_but_dirty_with same_but_dirty_put_bud
  same_but_dirty_put_ind : frame.

(** the slots in use keep their entry in the indirect block and their
    dirty buddy block *)
Definition keeps_used (i0 : scoutfs_buddy_indirect) (b0 : list (res scoutfs_buddy_block))
    (i1 : scoutfs_buddy_indirect) (b1 : list (res scoutfs_buddy_block)) : Prop :=
  forall sl, 0 <= sl -> ref (aget empty_slot (slots i0) sl) <> 0 ->
    aget empty_slot (slots i1) sl = aget empty_slot (slots i0) sl /\
    aget (Err EIO) b1 sl = aget (Err EIO) b0 sl.

Lemma keeps_used_refl i b : keeps_used i b i b.
Proof. intros sl _ H. split; reflexivity. Qed.

Lemma keeps_used_trans i0 b0 i1 b1 i2 b2 :
  keeps_used i0 b0 i1 b1 -> keeps_used i1 b1 i2 b2 -> keeps_used i0 b0 i2 b2.
Proof.
  intros H01 H12 sl Hsl Hr. destruct (H01 sl Hsl Hr) as [Hr1 Hb1].
  destruct (H12 sl Hsl) as [Hr2 Hb2]; [rewrite Hr1; exact Hr|].
  split; congruence.
Qed.

Lemma bitmap_alloc_frame sbi r sbi' :
  bitmap_alloc sbi = (r, sbi') ->
  same_but_dirty sbi sbi' /\ ind (dirty sbi') = ind (dirty sbi) /\
  buds (dirty sbi') = buds (dirty sbi).
Proof.
  unfold bitmap_alloc. intros H.
  repeat match type of H with
         | (if ?c then _ else _) = _ => destruct c
         | match ?x with _ => _ end = _ => destruct x
         end;
    inversion H; subst; clear H; repeat split; auto with frame.
Qed.

Lemma bitmap_free_frame sbi blkno r sbi' :
  bitmap_free sbi blkno = (r, sbi') ->
  same_but_dirty sbi sbi' /\ ind (dirty sbi') = ind (dirty sbi) /\
  buds (dirty sbi') = buds (dirty sbi).
Proof.
  unfold bitmap_free. intros H.
  repeat match type of H with
         | (if ?c then _ else _) = _ => destruct c
         | match ?x with _ => _ end = _ => destruct x
         end;
    inversion H; subst; clear H; repeat split; auto with frame.
Qed.

Lemma set_buddy_bit_slots ind bud o n :
  slots (fst (set_buddy_bit ind bud o n)) = slots ind.
Proof. unfold set_buddy_bit. destruct (test_bit_le _ _); reflexivity. Qed.

Lemma clear_buddy_bit_slots ind bud o n :
  slots (fst (clear_buddy_bit ind bud o n)) = slots ind.
Proof. unfold clear_buddy_bit. destruct (test_bit_le _ _); reflexivity. Qed.

Lemma init_high_slots fuel ind bud order size nr count ind' bud' nr' count' :
  init_high fuel ind bud order size nr count = Some (ind', bud', nr', count') ->
  slots ind' = slots ind.
Proof.
  revert ind bud nr count. induction fuel as [|fuel IH]; intros ind bud nr count;
    cbn [init_high]; destruct (count >? size); try discriminate.
  - intros [= <- _ _ _]. reflexivity.
  - pose proof (set_buddy_bit_slots ind bud order nr) as Hs.
    destruct (set_buddy_bit ind bud order nr) as [ind1 bud1]. cbn [fst] in Hs.
    intros H. apply IH in H. congruence.
  - intros [= <- _ _ _]. reflexivity.
Qed.

Lemma init_low_slots n ind bud order nr count :
  slots (fst (init_low n ind bud order nr count)) = slots ind.
Proof.
  revert ind bud order nr. induction n as [|n IH]; intros ind bud order nr;
    cbn [init_low]; [reflexivity|].
  destruct (Z.land count (Z.shiftl 1 order) =? 0); [apply IH|].
  pose proof (set_buddy_bit_slots ind bud order nr) as Hs.
  destruct (set_buddy_bit ind bud order nr) as [ind1 bud1]. cbn [fst] in Hs.
  rewrite IH. exact Hs.
Qed.

Lemma split_right_slots n ind bud i nr :
  slots (fst (split_right n ind bud i nr)) = slots ind.
Proof.
  revert ind bud i nr. induction n as [|n IH]; intros ind bud i nr;
    cbn [split_right]; [reflexivity|].
  pose proof (set_buddy_bit_slots ind bud i (Z.lor nr 1)) as Hs.
  destruct (set_buddy_bit ind bud i (Z.lor nr 1)) as [ind1 bud1]. cbn [fst] in Hs.
  rewrite IH. exact Hs.
Qed.

Lemma merge_buddies_slots n ind bud i nr :
  slots (fst (fst (fst (merge_buddies n ind bud i nr)))) = slots ind.
Proof.
  revert ind bud i nr. induction n as [|n IH]; intros ind bud i nr;
    cbn [merge_buddies]; [reflexivity|].
  destruct (negb (test_buddy_bit bud i (Z.lxor nr 1))); [reflexivity|].
  pose proof (clear_buddy_bit_slots ind bud i (Z.lxor nr 1)) as Hs.
  destruct (clear_buddy_bit ind bud i (Z.lxor nr 1)) as [ind1 bud1]. cbn [fst] in Hs.
  rewrite IH. exact Hs.
Qed.

(** a slot in use hands out its dirty buddy block as it is *)
Lemma dirty_buddy_block_used sbi ind sl :
  ref (aget empty_slot (slots ind) sl) <> 0 ->
  dirty_buddy_block sbi ind sl = (aget (Err EIO) (buds (dirty sbi)) sl, sbi, ind).
Proof.
  intros Hr. unfold dirty_buddy_block.
  destruct (Z.eqb_spec (ref (aget empty_slot (slots ind) sl)) 0); [contradiction|].
  reflexivity.
Qed.

Lemma dirty_buddy_block_frame sbi ind sl r sbi' ind' :
  0 <= sl ->
  dirty_buddy_block sbi ind sl = (r, sbi', ind') ->
  same_but_dirty sbi sbi' /\
  keeps_used ind (buds (dirty sbi)) ind' (buds (dirty sbi')).
Proof.
  intros Hsl. unfold dirty_buddy_block.
  destruct (Z.eqb_spec (ref (aget empty_slot (slots ind) sl)) 0) as [Hz|Hnz]; cbn [negb].
  2:{ intros [= <- <- <-]. split; [auto with frame | apply keeps_used_refl]. }
  destruct (bitmap_alloc sbi) as [ra sbi1] eqn:Ha.
  apply bitmap_alloc_frame in Ha. destruct Ha as (Hf1 & Hi1 & Hb1).
  assert (Hfail : forall (x : res scoutfs_buddy_block),
            (x, sbi1, ind) = (r, sbi', ind') ->
            same_but_dirty sbi sbi' /\
            keeps_used ind (buds (dirty sbi)) ind' (buds (dirty sbi'))).
  { intros x [= _ <- <-]. split; [exact Hf1|]. rewrite Hb1. apply keeps_used_refl. }
  destruct ra as [blkno|e| |]; try (apply Hfail).
  destruct (new_block_err sbi1) as [e|].
  - destruct (bitmap_free sbi1 blkno) as [rf sbi2] eqn:Hfree.
    apply bitmap_free_frame in Hfree. destruct Hfree as (Hf2 & Hi2 & Hb2).
    cbn [snd]. intros [= _ <- <-]. split.
    + eapply same_but_dirty_trans; eauto.
    + rewrite Hb2, Hb1. apply keeps_used_refl.
  - destruct (init_high _ _ _ _ _ _ _) as [[[[ind1 bud1] nr1] count1]|] eqn:Hh.
    2:{ apply Hfail. }
    apply init_high_slots in Hh.
    pose proof (init_low_slots (Z.to_nat SCOUTFS_BUDDY_ORDERS) ind1 bud1
                  (SCOUTFS_BUDDY_ORDERS - 1) nr1 count1) as Hl.
    destruct (init_low _ _ _ _ _ _) as [ind2 bud2]. cbn [fst] in Hl.
    intros [= _ <- <-]. split.
    + eapply same_but_dirty_trans; [exact Hf1 | auto with frame].
    + intros sl' Hsl' Hr'.
      assert (Hne : sl' <> sl) by congruence.
      unfold with_slot, put_bud. cbn [slots buds dirty with_dirty with_buds].
      rewrite !aget_aset_ne by lia. rewrite Hl, Hh, Hb1. split; reflexivity.
Qed.

(** ** [alloc_slot] *)

(** the stable buddy block that [alloc_slot] reads for the slot *)
Definition stable_bud_of (sbi : scoutfs_sb_info) (sl stable_ref : Z)
    : res (option scoutfs_buddy_block) :=
  if negb (stable_ref =? 0) then
    match aget (Err EIO) (buds (stable sbi)) sl with
    | Ok st_bud => Ok (Some st_bud)
    | r => fail r
    end
  else Ok None.

Lemma alloc_slot_frame sbi ind sl sref order r sbi' ind' :
  0 <= sl ->
  alloc_slot sbi ind sl sref order = (r, sbi', ind') ->
  same_but_dirty sbi sbi' /\
  ((forall b, r <> Ok b) -> keeps_used ind (buds (dirty sbi)) ind' (buds (dirty sbi'))).
Proof.
  intros Hsl. unfold alloc_slot.
  destruct (dirty_buddy_block sbi ind sl) as [[rd sbi1] ind1] eqn:Hd.
  apply dirty_buddy_block_frame in Hd; [|exact Hsl]. destruct Hd as [Hf1 Hk1].
  assert (Hfail : forall (x : res Z),
            (x, sbi1, ind1) = (r, sbi', ind') ->
            same_but_dirty sbi sbi' /\
            ((forall b, r <> Ok b) ->
             keeps_used ind (buds (dirty sbi)) ind' (buds (dirty sbi')))).
  { intros x [= _ <- <-]. split; [exact Hf1 | intros _; exact Hk1]. }
  destruct rd as [bud|e| |]; try apply Hfail.
  fold (stable_bud_of sbi1 sl sref).
  destruct (stable_bud_of sbi1 sl sref) as [st_bud|e| |]; try apply Hfail.
  destruct (find_first_fit (super sbi1) sl bud st_bud order) as [[nr found]|]; try apply Hfail.
  destruct (nr =? INT_MAX); try apply Hfail.
  destruct (clear_buddy_bit ind1 bud found nr) as [ind2 bud2].
  destruct (split_right _ ind2 bud2 _ _) as [ind3 bud3].
  intros [= <- <- <-]. split.
  - eapply same_but_dirty_trans; [exact Hf1 | auto with frame].
  - intros Hno. exfalso. eapply Hno. reflexivity.
Qed.

(** what a successful [alloc_slot] found: a bit [found, nr] of the dirty
    buddy block at the order or above, free in the stable buddy block of
    the slot; the slot's own dirty block, when the slot was in use *)
Lemma alloc_slot_ok sbi ind sl sref order blkno sbi' ind' :
  format_ok -> super_ok (super sbi) ->
  0 <= sl < SCOUTFS_BUDDY_SLOTS -> 0 <= order < SCOUTFS_BUDDY_ORDERS ->
  alloc_slot sbi ind sl sref order = (Ok blkno, sbi', ind') ->
  exists bud st_bud found nr,
    sref <> 0 /\
    aget (Err EIO) (buds (stable sbi)) sl = Ok st_bud /\
    (ref (aget empty_slot (slots ind) sl) <> 0 ->
     aget (Err EIO) (buds (dirty sbi)) sl = Ok bud) /\
    good_fit bud (Some st_bud) order found nr /\
    blkno = slot_buddy_blkno (super sbi) sl found nr.
Proof.
  intros Hf Hsup Hsl Ho. unfold alloc_slot.
  destruct (dirty_buddy_block sbi ind sl) as [[rd sbi1] ind1] eqn:Hd.
  pose proof Hd as Hfr. apply dirty_buddy_block_frame in Hfr; [|lia].
  destruct Hfr as [Hf1 _]. apply same_but_dirty_fields in Hf1.
  destruct Hf1 as (Hs1 & _ & Hst1 & _).
  destruct rd as [bud|e| |]; try discriminate.
  fold (stable_bud_of sbi1 sl sref).
  destruct (stable_bud_of sbi1 sl sref) as [st_bud|e| |] eqn:Hsb; try discriminate.
  destruct (find_first_fit_spec (super sbi1) sl bud st_bud order Hf
              ltac:(rewrite Hs1; exact Hsup) Hsl Ho) as (nr & found & Hfit & Hgood & _).
  rewrite Hfit.
  destruct (Z.eqb_spec nr INT_MAX) as [|Hne]; try discriminate.
  specialize (Hgood Hne).
  destruct (clear_buddy_bit ind1 bud found nr) as [ind2 bud2].
  destruct (split_right _ ind2 bud2 _ _) as [ind3 bud3].
  intros [= <- _ _].
  unfold stable_bud_of in Hsb.
  destruct (Z.eqb_spec sref 0) as [Hz|Hnz]; cbn [negb] in Hsb.
  { injection Hsb as <-. destruct Hgood as (_ & _ & _ & Hbad). discriminate. }
  rewrite Hst1 in Hsb.
  destruct (aget (Err EIO) (buds (stable sbi)) sl) as [sb|e| |] eqn:Hsbud; try discriminate.
  injection Hsb as <-.
  exists bud, sb, found, nr. rewrite Hs1.
  repeat split; auto; try apply Hgood.
  intros Hused. rewrite (dirty_buddy_block_used sbi ind sl Hused) in Hd.
  congruence.
Qed.

(** ** [alloc_order] and [buddy_alloc] *)

(** the later volume's slots in use were kept from the earlier one *)
Definition keeps_used_state (a b : scoutfs_sb_info) : Prop :=
  forall i1, ind (dirty b) = Ok i1 ->
    exists i0, ind (dirty a) = Ok i0 /\
      keeps_used i0 (buds (dirty a)) i1 (buds (dirty b)).

Lemma keeps_used_state_refl a : keeps_used_state a a.
Proof. intros i1 H. exists i1. split; [exact H | apply keeps_used_refl]. Qed.

Lemma keeps_used_state_trans a b c :
  keeps_used_state a b -> keeps_used_state b c -> keeps_used_state a c.
Proof.
  intros Hab Hbc i2 H2. destruct (Hbc i2 H2) as (i1 & H1 & Hk12).
  destruct (Hab i1 H1) as (i0 & H0 & Hk01). exists i0. split; [exact H0|].
  eapply keeps_used_trans; eauto.
Qed.

(** [blkno] starts a region of the order that a bit of a dirty buddy
    block and the stable buddy block of its slot both have free *)
Definition found_free (sbi : scoutfs_sb_info) (d_ind : scoutfs_buddy_indirect)
    (dbuds : list (res scoutfs_buddy_block)) (order blkno : Z) : Prop :=
  exists st_ind sl bud st_bud found nr,
    ind (stable sbi) = Ok st_ind /\
    0 <= sl < SCOUTFS_BUDDY_SLOTS /\
    ref (aget empty_slot (slots st_ind) sl) <> 0 /\
    aget (Err EIO) (buds (stable sbi)) sl = Ok st_bud /\
    (ref (aget empty_slot (slots d_ind) sl) <> 0 -> aget (Err EIO) dbuds sl = Ok bud) /\
    good_fit bud (Some st_bud) order found nr /\
    blkno = slot_buddy_blkno (super sbi) sl found nr.

Lemma found_free_keeps a b i0 b0 i1 b1 order blkno :
  same_but_dirty a b -> keeps_used i0 b0 i1 b1 ->
  found_free b i1 b1 order blkno -> found_free a i0 b0 order blkno.
Proof.
  intros Hsame Hk (st_ind & sl & bud & st_bud & found & nr & H1 & H2 & H3 & H4 & H5 & H6 & H7).
  apply same_but_dirty_fields in Hsame. destruct Hsame as (Hs & _ & Hst & _).
  rewrite Hst in *. rewrite Hs in *.
  exists st_ind, sl, bud, st_bud, found, nr. repeat split; auto; try lia; try apply H6.
  intros Hused. destruct (Hk sl ltac:(lia) Hused) as [Hu1 Hb1].
  rewrite <- Hb1. apply H5. rewrite Hu1. exact Hused.
Qed.

Lemma alloc_order_slots_frame st_ind mask order n :
  forall sbi ind i ret0 r sbi' ind',
  0 <= i ->
  alloc_order_slots n sbi ind st_ind mask order i ret0 = (r, sbi', ind') ->
  same_but_dirty sbi sbi' /\
  ((forall b, r <> Ok b) -> keeps_used ind (buds (dirty sbi)) ind' (buds (dirty sbi'))).
Proof.
  induction n as [|n IH]; intros sbi ind i ret0 r sbi' ind' Hi; cbn [alloc_order_slots].
  - intros [= <- <- <-]. split; [auto with frame | intros _; apply keeps_used_refl].
  - destruct (_ || _).
    + apply IH. lia.
    + destruct (alloc_slot sbi ind i _ order) as [[rs sbi1] ind1] eqn:Hs.
      apply alloc_slot_frame in Hs; [|exact Hi]. destruct Hs as [Hf1 Hk1].
      assert (Hstop : (rs, sbi1, ind1) = (r, sbi', ind') ->
                same_but_dirty sbi sbi' /\
                ((forall b, r <> Ok b) ->
                 keeps_used ind (buds (dirty sbi)) ind' (buds (dirty sbi')))).
      { intros [= <- <- <-]. split; [exact Hf1 | exact Hk1]. }
      destruct rs as [b|e| |]; try exact Hstop.
      destruct e; try exact Hstop.
      intros H. apply IH in H; [|lia]. destruct H as [Hf2 Hk2]. split.
      * eapply same_but_dirty_trans; eauto.
      * intros Hno. eapply keeps_used_trans; [apply Hk1; discriminate | apply Hk2; exact Hno].
Qed.

Lemma alloc_order_slots_ok st_ind mask order blkno sbi' ind' :
  format_ok -> 0 <= order < SCOUTFS_BUDDY_ORDERS ->
  forall n sbi d_ind i ret0,
  super_ok (super sbi) -> ind (stable sbi) = Ok st_ind ->
  0 <= i -> i + Z.of_nat n <= SCOUTFS_BUDDY_SLOTS -> (forall b, ret0 <> Ok b) ->
  alloc_order_slots n sbi d_ind st_ind mask order i ret0 = (Ok blkno, sbi', ind') ->
  found_free sbi d_ind (buds (dirty sbi)) order blkno.
Proof.
  intros Hf Ho. induction n as [|n IH]; intros sbi d_ind i ret0 Hsup Hst Hi Hn Hret;
    cbn [alloc_order_slots].
  - intros [= H _ _]. exfalso. eapply Hret. exact H.
  - destruct (_ || _).
    + apply IH; auto; try lia; discriminate.
    + destruct (alloc_slot sbi d_ind i _ order) as [[rs sbi1] ind1] eqn:Hs.
      pose proof Hs as Hfr. apply alloc_slot_frame in Hfr; [|exact Hi].
      destruct Hfr as [Hf1 Hk1].
      destruct rs as [b|e| |]; try discriminate.
      * intros [= -> _ _].
        assert (Hisl : 0 <= i < SCOUTFS_BUDDY_SLOTS) by lia.
        destruct (alloc_slot_ok _ _ _ _ _ _ _ _ Hf Hsup Hisl Ho Hs)
          as (bud & st_bud & found & nr & H1 & H2 & H3 & H4 & H5).
        exists st_ind, i, bud, st_bud, found, nr. repeat split; auto; try lia; apply H4.
      * destruct e; try discriminate.
        intros H. pose proof Hf1 as Hfields. apply same_but_dirty_fields in Hfields.
        destruct Hfields as (Hs1 & _ & Hst1 & _).
        assert (Hsup1 : super_ok (super sbi1)) by (rewrite Hs1; exact Hsup).
        assert (Hst1' : ind (stable sbi1) = Ok st_ind) by (rewrite Hst1; exact Hst).
        assert (Hne : forall b : Z, Err ENOSPC <> Ok b) by discriminate.
        apply (IH sbi1 ind1 (i + 1) (Err ENOSPC) Hsup1 Hst1' ltac:(lia) ltac:(lia) Hne) in H.
        eapply found_free_keeps; [exact Hf1 | apply Hk1; discriminate | exact H].
Qed.

Lemma alloc_order_frame sbi order r sbi' :
  alloc_order sbi order = (r, sbi') ->
  same_but_dirty sbi sbi' /\ ((forall b, r <> Ok b) -> keeps_used_state sbi sbi').
Proof.
  unfold alloc_order.
  assert (Hsame : forall (x : res Z), (x, sbi) = (r, sbi') ->
            same_but_dirty sbi sbi' /\ ((forall b, r <> Ok b) -> keeps_used_state sbi sbi')).
  { intros x [= _ <-]. split; [auto with frame | intros _; apply keeps_used_state_refl]. }
  destruct (_ || _); [apply Hsame|].
  destruct (ind (dirty sbi)) as [d_ind|e| |] eqn:Hd; try apply Hsame.
  destruct (ind (stable sbi)) as [st_ind|e| |] eqn:Hst; try apply Hsame.
  destruct (alloc_order_slots _ sbi d_ind st_ind _ order 0 _) as [[ret sbi1] ind1] eqn:Hl.
  apply alloc_order_slots_frame in Hl; [|lia]. destruct Hl as [Hf1 Hk1].
  intros [= <- <-]. split.
  - eapply same_but_dirty_trans; [exact Hf1 | auto with frame].
  - intros Hno i1 Hi1. cbn in Hi1. injection Hi1 as <-.
    exists d_ind. split; [exact Hd|]. cbn. apply Hk1. exact Hno.
Qed.

Lemma alloc_order_ok sbi order blkno sbi' :
  format_ok -> super_ok (super sbi) -> 0 <= order < SCOUTFS_BUDDY_ORDERS ->
  alloc_order sbi order = (Ok blkno, sbi') ->
  exists d_ind, ind (dirty sbi) = Ok d_ind /\
    found_free sbi d_ind (buds (dirty sbi)) order blkno.
Proof.
  intros Hf Hsup Ho. unfold alloc_order.
  destruct (_ || _); [discriminate|].
  destruct (ind (dirty sbi)) as [d_ind|e| |] eqn:Hd; try discriminate;
    destruct (ind (stable sbi)) as [st_ind|e'| |] eqn:Hst; try discriminate.
  destruct (alloc_order_slots _ sbi d_ind st_ind _ order 0 _) as [[ret sbi1] ind1] eqn:Hl.
  intros [= -> _]. exists d_ind. split; [reflexivity|].
  eapply alloc_order_slots_ok; eauto; try lia.
  - destruct Hf as (_ & _ & _ & _ & Hs & _). lia.
  - discriminate.
Qed.

(** the volume's own reading of [found_free] *)
Definition alloc_found (sbi : scoutfs_sb_info) (order blkno : Z) : Prop :=
  exists d_ind, ind (dirty sbi) = Ok d_ind /\
    found_free sbi d_ind (buds (dirty sbi)) order blkno.

Lemma alloc_found_keeps a b order blkno :
  same_but_dirty a b -> keeps_used_state a b ->
  alloc_found b order blkno -> alloc_found a order blkno.
Proof.
  intros Hsame Hk (i1 & Hi1 & Hff). destruct (Hk i1 Hi1) as (i0 & Hi0 & Hk01).
  exists i0. split; [exact Hi0|]. eapply found_free_keeps; eauto.
Qed.

Lemma buddy_alloc_from_frame o :
  forall sbi r sbi', buddy_alloc_from o sbi = (r, sbi') -> same_but_dirty sbi sbi'.
Proof.
  induction o as [|o IH]; intros sbi r sbi'; cbn [buddy_alloc_from];
    destruct (alloc_order sbi _) as [ra sbi1] eqn:Ha;
    apply alloc_order_frame in Ha; destruct Ha as [Hf1 _];
    destruct ra as [b|e| |]; try (intros [= _ <-]; exact Hf1);
    destruct e; try (intros [= _ <-]; exact Hf1).
  intros H. apply IH in H. eapply same_but_dirty_trans; eauto.
Qed.

(** a successful [buddy_alloc_from] grants an order at most the one it
    started from, at a block that [alloc_order] found for that order *)
Lemma buddy_alloc_from_ok o :
  format_ok ->
  forall sbi blkno g sbi',
  super_ok (super sbi) -> Z.of_nat o < SCOUTFS_BUDDY_ORDERS ->
  buddy_alloc_from o sbi = (Ok (blkno, g), sbi') ->
  0 <= g <= Z.of_nat o /\ alloc_found sbi g blkno.
Proof.
  intros Hf. induction o as [|o IH]; intros sbi blkno g sbi' Hsup Ho;
    cbn [buddy_alloc_from];
    destruct (alloc_order sbi _) as [ra sbi1] eqn:Ha;
    pose proof Ha as Hfr; apply alloc_order_frame in Hfr; destruct Hfr as [Hf1 Hk1];
    destruct ra as [b|e| |]; try discriminate.
  - intros [= -> <-]. split; [lia|]. eapply alloc_order_ok; eauto. lia.
  - destruct e; discriminate.
  - intros [= -> <-]. split; [lia|]. eapply alloc_order_ok; eauto. lia.
  - destruct e; try discriminate. intros H.
    pose proof Hf1 as Hfields. apply same_but_dirty_fields in Hfields.
    destruct Hfields as (Hs1 & _).
    apply IH in H; [|rewrite Hs1; exact Hsup|lia].
    destruct H as [Hg Hfound]. split; [lia|].
    eapply alloc_found_keeps; [exact Hf1 | apply Hk1; discriminate | exact Hfound].
Qed.

(** ** Free blocks of a view *)

(** the block is free in the buddy block of its slot: a bit of some
    order over it is set *)
Definition free_in (sup : scoutfs_super_block) (blks : blocks) (blkno : Z) : Prop :=
  exists i bud, ind blks = Ok i /\
    ref (aget empty_slot (slots i) (indirect_slot sup blkno)) <> 0 /\
    aget (Err EIO) (buds blks) (indirect_slot sup blkno) = Ok bud /\
    test_buddy_bit_or_higher bud 0 (buddy_bit sup blkno) = true.

(** the slot of the block has no buddy block yet: all of its blocks are
    free, as [scoutfs_buddy_was_free] reads it *)
Definition slot_unused (sup : scoutfs_super_block) (blks : blocks) (blkno : Z) : Prop :=
  exists i, ind blks = Ok i /\
    ref (aget empty_slot (slots i) (indirect_slot sup blkno)) = 0.

Lemma same_geometry sup sup' blkno :
  buddy_blocks sup' = buddy_blocks sup ->
  first_blkno sup' = first_blkno sup /\
  indirect_slot sup' blkno = indirect_slot sup blkno /\
  buddy_bit sup' blkno = buddy_bit sup blkno.
Proof.
  intros H. unfold indirect_slot, buddy_bit, first_blkno. rewrite H. repeat split.
Qed.

(** the blocks of the region of a valid bit: their slot, their order 0
    bit, and the bit of the order above them *)
Lemma extent_block sup sl k n x :
  format_ok -> super_ok sup -> 0 <= sl < SCOUTFS_BUDDY_SLOTS -> valid_bit k n ->
  0 <= x < 2 ^ k ->
  indirect_slot sup (slot_buddy_blkno sup sl k n + x) = sl /\
  buddy_bit sup (slot_buddy_blkno sup sl k n + x) = n * 2 ^ k + x /\
  Z.shiftr (n * 2 ^ k + x) k = n /\
  0 <= n * 2 ^ k + x < SCOUTFS_BUDDY_ORDER0_BITS.
Proof.
  intros Hf Hsup Hsl Hv Hx.
  destruct (slot_buddy_blkno_eq sup sl k n Hf Hsup Hsl Hv) as (Heq & Hlo & Hhi & _).
  destruct Hv as [Hk Hn].
  assert (Hb : 0 < SCOUTFS_BUDDY_ORDER0_BITS) by (destruct Hf; tauto).
  assert (Hss : SCOUTFS_BUDDY_SLOTS * SCOUTFS_BUDDY_ORDER0_BITS <= 2 ^ 32)
    by (destruct Hf as (_ & _ & _ & _ & _ & H & _); exact H).
  assert (Hr : 0 <= n * 2 ^ k + x < SCOUTFS_BUDDY_ORDER0_BITS) by lia.
  assert (Hd : slot_buddy_blkno sup sl k n + x - first_blkno sup
               = sl * SCOUTFS_BUDDY_ORDER0_BITS + (n * 2 ^ k + x)) by lia.
  unfold indirect_slot, buddy_bit. rewrite Hd.
  rewrite u32_small by nia.
  repeat split; try lia.
  - rewrite Z.div_add_l by lia. rewrite Z.div_small by lia. lia.
  - rewrite Z.add_comm, Z.mod_add by lia. apply Z.mod_small. lia.
  - rewrite Z.shiftr_div_pow2 by lia. rewrite Z.div_add_l by lia.
    rewrite Z.div_small by lia. lia.
Qed.

Lemma land_low_mul n k g :
  0 <= g <= k -> Z.land (n * 2 ^ k) (Z.shiftl 1 g - 1) = 0.
Proof.
  intros Hg. rewrite Z.shiftl_1_l. change (2 ^ g - 1) with (Z.pred (2 ^ g)).
  rewrite <- Z.ones_equiv, Z.land_ones by lia.
  replace k with ((k - g) + g) by lia. rewrite Z.pow_add_r by lia.
  rewrite Z.mul_assoc. apply Z.mod_mul. lia.
Qed.

(** the region that a successful [alloc_order] returns is aligned to its
    order and free block by block, in the stable view and in the dirty
    view *)
Lemma alloc_found_free sbi g blkno :
  format_ok -> super_ok (super sbi) ->
  buddy_blocks (stable_super sbi) = buddy_blocks (super sbi) ->
  0 <= g -> alloc_found sbi g blkno ->
  0 < blkno < 2 ^ 34 /\
  valid_order (super sbi) blkno g = true /\
  forall x, 0 <= x < 2 ^ g ->
    free_in (stable_super sbi) (stable sbi) (blkno + x) /\
    (free_in (super sbi) (dirty sbi) (blkno + x) \/
     slot_unused (super sbi) (dirty sbi) (blkno + x)).
Proof.
  intros Hf Hsup Hbb Hg (d_ind & Hd & st_ind & sl & bud & st_bud & found & nr &
                          Hst & Hsl & Hsref & Hsbud & Hdbud & Hgood & ->).
  destruct Hgood as (Hgf & Hv & Hbit & Hstable). cbn [stable_ok] in Hstable.
  split; [|split].
  - destruct (slot_buddy_blkno_eq (super sbi) sl found nr Hf Hsup Hsl Hv) as (Heq & Hlo & _ & Hhi).
    destruct (first_blkno_eq (super sbi) Hf Hsup) as [Hfb _].
    assert (0 < SCOUTFS_BUDDY_BM_NR /\ 0 <= SCOUTFS_BUDDY_BM_BLKNO /\
            0 < SCOUTFS_BUDDY_ORDER0_BITS) as (? & ? & ?) by (destruct Hf; tauto).
    unfold super_ok in Hsup. split; [|exact Hhi]. nia.
  - unfold valid_order.
    destruct (extent_block (super sbi) sl found nr 0 Hf Hsup Hsl Hv) as (_ & Hbb0 & _).
    { assert (0 < 2 ^ found) by (destruct Hv; lia). lia. }
    rewrite Z.add_0_r in Hbb0. rewrite Hbb0, Z.add_0_r.
    rewrite land_low_mul by lia. reflexivity.
  - intros x Hx.
    assert (Hx' : 0 <= x < 2 ^ found).
    { split; [lia|]. apply Z.lt_le_trans with (2 ^ g); [lia|].
      apply Z.pow_le_mono_r; lia. }
    destruct (extent_block (super sbi) sl found nr x Hf Hsup Hsl Hv Hx')
      as (Hslot & Hbbit & Hshift & Hrange).
    destruct (same_geometry (super sbi) (stable_super sbi)
                (slot_buddy_blkno (super sbi) sl found nr + x) Hbb) as (_ & Hsl' & Hbb').
    split.
    + exists st_ind, st_bud. rewrite Hsl', Hbb', Hslot, Hbbit.
      repeat split; auto.
      eapply test_buddy_bit_or_higher_inside; [| |exact Hstable]; [lia|].
      rewrite Z.sub_0_r. exact Hshift.
    + destruct (Z.eq_dec (ref (aget empty_slot (slots d_ind) sl)) 0) as [Hz|Hnz].
      * right. exists d_ind. rewrite Hslot. split; auto.
      * left. exists d_ind, bud. rewrite Hslot, Hbbit. repeat split; auto.
        apply test_buddy_bit_or_higher_spec. exists found. split; [destruct Hv; lia|].
        rewrite Z.sub_0_r, Hshift. exact Hbit.
Qed.

(** [scoutfs_buddy_was_free] says so of a block that is free in the
    stable view *)
Lemma was_free_of_free_in sbi blkno :
  buddy_bm_ref (super sbi) <> 0 -> buddy_bm_ref (stable_super sbi) <> 0 ->
  free_in (stable_super sbi) (stable sbi) blkno ->
  scoutfs_buddy_was_free sbi blkno 0 = Ok 1.
Proof.
  intros Hd Hs (i & bud & Hi & Hr & Hb & Ht). unfold scoutfs_buddy_was_free.
  destruct (Z.eqb_spec (buddy_bm_ref (super sbi)) 0); [contradiction|].
  destruct (Z.eqb_spec (buddy_bm_ref (stable_super sbi)) 0); [contradiction|].
  cbn [orb]. rewrite Hi.
  destruct (Z.eqb_spec (ref (aget empty_slot (slots i) (indirect_slot (stable_super sbi) blkno))) 0);
    [reflexivity|].
  rewrite Hb, Z.shiftr_0_r, Ht. reflexivity.
Qed.

(** ** The retries of [buddy_alloc] *)

(** [retried sbi order sbi' g]: starting from [sbi], [alloc_order] failed
    with [-ENOSPC] for the orders [order], [order - 1], ..., [g + 1] in
    turn, and left [sbi'] *)
Inductive retried : scoutfs_sb_info -> Z -> scoutfs_sb_info -> Z -> Prop :=
| retried_here sbi order : retried sbi order sbi order
| retried_lower sbi order sbi1 sbi' g :
    alloc_order sbi order = (Err ENOSPC, sbi1) ->
    retried sbi1 (order - 1) sbi' g ->
    retried sbi order sbi' g.

Lemma retried_le sbi order sbi' g : retried sbi order sbi' g -> g <= order.
Proof. induction 1; lia. Qed.

Lemma buddy_alloc_from_retried sbi order sbi' g :
  retried sbi order sbi' g -> 0 <= g ->
  buddy_alloc_from (Z.to_nat order) sbi = buddy_alloc_from (Z.to_nat g) sbi'.
Proof.
  induction 1 as [|sbi order sbi1 sbi' g Ha Hr IH]; intros Hg; [reflexivity|].
  pose proof (retried_le _ _ _ _ Hr) as Hle.
  destruct (Z.to_nat order) as [|o] eqn:Eo; [lia|].
  cbn [buddy_alloc_from]. rewrite <- Eo, Z2Nat.id by lia. rewrite Ha.
  replace o with (Z.to_nat (order - 1)) by lia. apply IH. exact Hg.
Qed.

Lemma buddy_alloc_from_ok_retried o :
  forall sbi blkno g sbi',
  buddy_alloc_from o sbi = (Ok (blkno, g), sbi') ->
  exists sbi_pre, retried sbi (Z.of_nat o) sbi_pre g /\
    alloc_order sbi_pre g = (Ok blkno, sbi').
Proof.
  induction o as [|o IH]; intros sbi blkno g sbi'; cbn [buddy_alloc_from];
    destruct (alloc_order sbi _) as [ra sbi1] eqn:Ha;
    destruct ra as [b|e| |]; try discriminate.
  - intros [= -> <- <-]. exists sbi. split; [constructor | exact Ha].
  - destruct e; discriminate.
  - intros [= -> <- <-]. exists sbi. split; [constructor | exact Ha].
  - destruct e; try discriminate. intros H. apply IH in H.
    destruct H as (sbi_pre & Hr & Hok). exists sbi_pre. split; [|exact Hok].
    econstructor; [exact Ha|]. replace (Z.of_nat (S o) - 1) with (Z.of_nat o) by lia.
    exact Hr.
Qed.

Lemma buddy_alloc_from_nospc_retried o :
  forall sbi sbi',
  buddy_alloc_from o sbi = (Err ENOSPC, sbi') ->
  exists sbi_pre, retried sbi (Z.of_nat o) sbi_pre 0 /\
    alloc_order sbi_pre 0 = (Err ENOSPC, sbi').
Proof.
  induction o as [|o IH]; intros sbi sbi'; cbn [buddy_alloc_from];
    destruct (alloc_order sbi _) as [ra sbi1] eqn:Ha;
    destruct ra as [b|e| |]; try discriminate.
  - destruct e; try discriminate. intros [= <-]. exists sbi. split; [constructor | exact Ha].
  - destruct e; try discriminate. intros H. apply IH in H.
    destruct H as (sbi_pre & Hr & Hok). exists sbi_pre. split; [|exact Hok].
    econstructor; [exact Ha|]. replace (Z.of_nat (S o) - 1) with (Z.of_nat o) by lia.
    exact Hr.
Qed.

Lemma buddy_alloc_valid sbi order :
  0 <= order < SCOUTFS_BUDDY_ORDERS ->
  buddy_alloc sbi order = buddy_alloc_from (Z.to_nat order) sbi.
Proof.
  intros Ho. unfold buddy_alloc.
  destruct (Z.ltb_spec order 0); [lia|].
  destruct (Z.leb_spec SCOUTFS_BUDDY_ORDERS order); [lia|]. reflexivity.
Qed.

Lemma buddy_alloc_ok_order sbi order blkno g sbi' :
  buddy_alloc sbi order = (Ok (blkno, g), sbi') -> 0 <= order < SCOUTFS_BUDDY_ORDERS.
Proof.
  unfold buddy_alloc.
  destruct (Z.ltb_spec order 0); [discriminate|].
  destruct (Z.leb_spec SCOUTFS_BUDDY_ORDERS order); [discriminate|]. lia.
Qed.

(** every block of the region that [buddy_alloc] returns was free in the
    stable view and in the dirty view *)
Lemma buddy_alloc_free sbi order blkno g sbi' :
  format_ok -> super_ok (super sbi) ->
  buddy_blocks (stable_super sbi) = buddy_blocks (super sbi) ->
  buddy_alloc sbi order = (Ok (blkno, g), sbi') ->
  0 <= g <= order /\
  0 < blkno < 2 ^ 34 /\
  valid_order (super sbi) blkno g = true /\
  forall x, 0 <= x < 2 ^ g ->
    free_in (stable_super sbi) (stable sbi) (blkno + x) /\
    (free_in (super sbi) (dirty sbi) (blkno + x) \/
     slot_unused (super sbi) (dirty sbi) (blkno + x)).
Proof.
  intros Hf Hsup Hbb H. pose proof (buddy_alloc_ok_order _ _ _ _ _ H) as Ho.
  rewrite buddy_alloc_valid in H by exact Ho.
  apply buddy_alloc_from_ok in H; auto; [|lia]. destruct H as [Hg Hfound].
  split; [lia|]. apply alloc_found_free; auto. lia.
Qed.

(** C1: what the allocators return is free in the dirty and in the
    stable view.  [bitmap_alloc] returns the block of a bit that is set
    in the dirty and in the stable bitmap block.  Every block of the
    region that [buddy_alloc] returns lies under a set bit of the stable
    buddy block of its slot, so it overlaps nothing that is allocated in
    the stable view, and under a set bit of the dirty buddy block of its
    slot, unless the dirty indirect block had no buddy block for the slot
    yet, which [dirty_buddy_block] then creates with all blocks free. *)
Theorem alloc_returns_free_in_both_views (sbi : scoutfs_sb_info) :
  format_ok -> super_ok (super sbi) ->
  buddy_blocks (stable_super sbi) = buddy_blocks (super sbi) ->
  (forall blkno sbi', bitmap_alloc sbi = (Ok blkno, sbi') ->
     exists d b st_b,
       blkno = SCOUTFS_BUDDY_BM_BLKNO + SCOUTFS_BUDDY_BM_NR + d /\
       0 <= d < buddy_blocks (super sbi) /\
       bm (dirty sbi) = Ok b /\ bm (stable sbi) = Ok st_b /\
       test_bit_le d (bm_bits b) = true /\ test_bit_le d (bm_bits st_b) = true) /\
  (forall order blkno g sbi', buddy_alloc sbi order = (Ok (blkno, g), sbi') ->
     forall x, 0 <= x < 2 ^ g ->
       free_in (stable_super sbi) (stable sbi) (blkno + x) /\
       (free_in (super sbi) (dirty sbi) (blkno + x) \/
        slot_unused (super sbi) (dirty sbi) (blkno + x))).
Proof.
  intros Hf Hsup Hbb. split.
  - intros blkno sbi' H.
    pose proof (bitmap_alloc_no_ref sbi) as Hio.
    pose proof (fun b st_b => bitmap_alloc_found sbi b st_b Hf Hsup) as Hfound.
    destruct (Z.eq_dec (buddy_bm_ref (super sbi)) 0) as [Hz|Hnz].
    { rewrite Hio in H by auto. discriminate. }
    destruct (Z.eq_dec (buddy_bm_ref (stable_super sbi)) 0) as [Hz'|Hnz'].
    { rewrite Hio in H by auto. discriminate. }
    destruct (bm (dirty sbi)) as [b|e| |] eqn:Hb;
      try (unfold bitmap_alloc in H; rewrite Hb in H;
           destruct (_ || _); discriminate).
    destruct (bm (stable sbi)) as [st_b|e| |] eqn:Hsb;
      try (unfold bitmap_alloc in H; rewrite Hb, Hsb in H;
           destruct (_ || _); discriminate).
    destruct (Hfound b st_b Hnz Hnz' eq_refl eq_refl)
      as [(d & Hd & Hboth & _ & Heq & _) | [_ Heq]]; rewrite Heq in H; [|discriminate].
    injection H as <- _. exists d, b, st_b.
    unfold both_set in Hboth. apply andb_prop in Hboth. destruct Hboth.
    repeat split; auto; lia.
  - intros order blkno g sbi' H x Hx.
    destruct (buddy_alloc_free sbi order blkno g sbi' Hf Hsup Hbb H) as (_ & _ & _ & Hall).
    apply Hall. exact Hx.
Qed.

(** C4: a successful [buddy_alloc] of a valid order grants an order that
    is not larger: [alloc_order] failed with [-ENOSPC] for the orders
    from the requested one down to the one above the granted order, and
    succeeded for the granted order.  The block it returns starts a
    region of that order, aligned to it and free block by block in the
    dirty view (or in a slot without a buddy block yet) and in the stable
    view. *)
Theorem buddy_alloc_grants_at_most_order (sbi : scoutfs_sb_info) (order blkno g : Z)
    (sbi' : scoutfs_sb_info) :
  format_ok -> super_ok (super sbi) ->
  buddy_blocks (stable_super sbi) = buddy_blocks (super sbi) ->
  0 <= order < SCOUTFS_BUDDY_ORDERS ->
  buddy_alloc sbi order = (Ok (blkno, g), sbi') ->
  0 <= g <= order /\
  (exists sbi_pre, retried sbi order sbi_pre g /\
     alloc_order sbi_pre g = (Ok blkno, sbi')) /\
  valid_order (super sbi) blkno g = true /\
  forall x, 0 <= x < 2 ^ g ->
    free_in (stable_super sbi) (stable sbi) (blkno + x) /\
    (free_in (super sbi) (dirty sbi) (blkno + x) \/
     slot_unused (super sbi) (dirty sbi) (blkno + x)).
Proof.
  intros Hf Hsup Hbb Ho H.
  destruct (buddy_alloc_free sbi order blkno g sbi' Hf Hsup Hbb H) as (Hg & _ & Hal & Hall).
  split; [exact Hg|]. split; [|split; [exact Hal | exact Hall]].
  rewrite buddy_alloc_valid in H by exact Ho.
  apply buddy_alloc_from_ok_retried in H. rewrite Z2Nat.id in H by lia. exact H.
Qed.

(** C10: [buddy_alloc] goes on to a smaller order only after [-ENOSPC].
    When [alloc_order] fails with another errno, for the requested order
    or for an order that the retries reached, [buddy_alloc] returns that
    errno with the volume as that call left it: no smaller order is
    tried. *)
Theorem buddy_alloc_stops_at_other_errors (sbi : scoutfs_sb_info) (order g : Z)
    (sbi_pre sbi' : scoutfs_sb_info) (e : errno) :
  0 <= g -> order < SCOUTFS_BUDDY_ORDERS ->
  retried sbi order sbi_pre g ->
  alloc_order sbi_pre g = (Err e, sbi') ->
  e <> ENOSPC ->
  buddy_alloc sbi order = (Err e, sbi').
Proof.
  intros Hg Ho Hr Ha He. pose proof (retried_le _ _ _ _ Hr) as Hle.
  rewrite buddy_alloc_valid by lia.
  rewrite (buddy_alloc_from_retried _ _ _ _ Hr Hg).
  destruct (Z.to_nat g) as [|n] eqn:En; cbn [buddy_alloc_from];
    rewrite <- En, Z2Nat.id by lia; rewrite Ha; destruct e; try reflexivity; contradiction.
Qed.

(** ** Setting and clearing buddy bits *)

Lemma aget_in_range {A : Type} (d : A) (l : list A) i v :
  aget d l i = v -> v <> d -> (Z.to_nat i < length l)%nat.
Proof.
  unfold aget. intros H Hne. destruct (l !! Z.to_nat i) eqn:E.
  - apply lookup_lt_Some in E. exact E.
  - cbn in H. congruence.
Qed.

Lemma setbit_set a p : 0 <= p -> Z.testbit a p = true -> Z.setbit a p = a.
Proof.
  intros Hp Hb. apply Z.bits_inj'. intros q Hq.
  rewrite Z.setbit_eqb by lia. destruct (Z.eqb_spec p q) as [->|]; [|reflexivity].
  rewrite Hb. reflexivity.
Qed.

Lemma clearbit_clear a p : 0 <= p -> Z.testbit a p = false -> Z.clearbit a p = a.
Proof.
  intros Hp Hb. apply Z.bits_inj'. intros q Hq.
  rewrite Z.clearbit_eqb by lia. destruct (Z.eqb_spec p q) as [->|]; [|apply andb_true_r].
  rewrite Hb. reflexivity.
Qed.

Lemma set_buddy_bit_bits ind bud k n :
  0 <= order_nr k n ->
  bits (snd (set_buddy_bit ind bud k n)) = Z.setbit (bits bud) (order_nr k n).
Proof.
  intros Hp. unfold set_buddy_bit, test_bit_le, set_bit_le.
  destruct (Z.testbit (bits bud) (order_nr k n)) eqn:E; cbn [snd bits]; [|reflexivity].
  symmetry. apply setbit_set; auto.
Qed.

Lemma clear_buddy_bit_bits ind bud k n :
  0 <= order_nr k n ->
  bits (snd (clear_buddy_bit ind bud k n)) = Z.clearbit (bits bud) (order_nr k n).
Proof.
  intros Hp. unfold clear_buddy_bit, test_bit_le, clear_bit_le.
  destruct (Z.testbit (bits bud) (order_nr k n)) eqn:E; cbn [snd bits]; [reflexivity|].
  symmetry. apply clearbit_clear; auto.
Qed.

Lemma order_nr_nonneg k n : format_ok -> valid_bit k n -> 0 <= order_nr k n.
Proof.
  intros Hf Hv. rewrite order_nr_valid by auto.
  pose proof (order_off_range k Hf (proj1 Hv)). destruct Hv. lia.
Qed.

(** ** The merge of [buddy_free] *)

(** the merge as the specification words it, on the bits alone: while
    the order is below the highest and the buddy's bit is set, clear it
    and go up; then set the bit reached *)
Fixpoint spec_merge (n : nat) (b : Z) (i nr : Z) : Z :=
  match n with
  | O => Z.setbit b (order_nr i nr)
  | S n' =>
      if Z.testbit b (order_nr i (Z.lxor nr 1))
      then spec_merge n' (Z.clearbit b (order_nr i (Z.lxor nr 1))) (i + 1) (Z.shiftr nr 1)
      else Z.setbit b (order_nr i nr)
  end.

(** the buddy bits that a merge from [i, nr] over [n] orders clears *)
Fixpoint merged_away (n : nat) (i nr p : Z) : bool :=
  match n with
  | O => false
  | S n' => (p =? order_nr i (Z.lxor nr 1)) || merged_away n' (i + 1) (Z.shiftr nr 1) p
  end.

Lemma merged_away_above n : forall i nr k m,
  format_ok -> valid_bit i nr -> i + Z.of_nat n < SCOUTFS_BUDDY_ORDERS ->
  valid_bit k m -> k < i -> merged_away n i nr (order_nr k m) = false.
Proof.
  induction n as [|n IH]; intros i nr k m Hf Hv Hn Hkm Hlt; cbn [merged_away]; [reflexivity|].
  assert (Hvb : valid_bit i (Z.lxor nr 1)) by (apply valid_bit_buddy; auto; lia).
  destruct (Z.eqb_spec (order_nr k m) (order_nr i (Z.lxor nr 1))) as [Heq|_].
  { apply order_nr_inj in Heq; auto. lia. }
  cbn [orb]. apply IH; auto; try lia. apply valid_bit_parent; auto; lia.
Qed.

Lemma merge_buddies_spec n : forall ind bud i nr,
  format_ok -> valid_bit i nr -> i + Z.of_nat n < SCOUTFS_BUDDY_ORDERS ->
  exists ind' bud' j,
    merge_buddies n ind bud i nr = (ind', bud', j, Z.shiftr nr (j - i)) /\
    i <= j <= i + Z.of_nat n /\
    valid_bit j (Z.shiftr nr (j - i)) /\
    (forall l, i <= l < j -> test_buddy_bit bud l (Z.lxor (Z.shiftr nr (l - i)) 1) = true) /\
    (j < i + Z.of_nat n -> test_buddy_bit bud j (Z.lxor (Z.shiftr nr (j - i)) 1) = false) /\
    (forall p, Z.testbit (bits bud') p
               = Z.testbit (bits bud) p && negb (merged_away (Z.to_nat (j - i)) i nr p)).
Proof.
  induction n as [|n IH]; intros ind bud i nr Hf Hv Hn; cbn [merge_buddies].
  - exists ind, bud, i. rewrite Z.sub_diag, Z.shiftr_0_r.
    refine (conj eq_refl (conj _ (conj Hv (conj _ (conj _ _))))).
    + lia.
    + intros l Hl; lia.
    + intros Hlt; lia.
    + intros p. change (Z.to_nat 0) with O. cbn [merged_away negb].
      symmetry; apply andb_true_r.
  - assert (Hvb : valid_bit i (Z.lxor nr 1)) by (apply valid_bit_buddy; auto; lia).
    assert (Hvp : valid_bit (i + 1) (Z.shiftr nr 1)) by (apply valid_bit_parent; auto; lia).
    pose proof (order_nr_nonneg _ _ Hf Hvb) as Hpos.
    destruct (test_buddy_bit bud i (Z.lxor nr 1)) eqn:Ht; cbn [negb].
    + pose proof (clear_buddy_bit_bits ind bud i (Z.lxor nr 1) Hpos) as Hcb.
      destruct (clear_buddy_bit ind bud i (Z.lxor nr 1)) as [ind1 bud1]. cbn [snd] in Hcb.
      destruct (IH ind1 bud1 (i + 1) (Z.shiftr nr 1) Hf Hvp ltac:(lia))
        as (ind' & bud' & j & Hm & Hj & Hvj & Hset & Hstop & Hbits).
      assert (Hsh : forall l, i + 1 <= l ->
                Z.shiftr (Z.shiftr nr 1) (l - (i + 1)) = Z.shiftr nr (l - i)).
      { intros l Hl. rewrite Z.shiftr_shiftr by lia. f_equal. lia. }
      assert (Hsame : forall l, i + 1 <= l < SCOUTFS_BUDDY_ORDERS - 1 ->
                valid_bit l (Z.shiftr nr (l - i)) ->
                test_buddy_bit bud1 l (Z.lxor (Z.shiftr nr (l - i)) 1)
                = test_buddy_bit bud l (Z.lxor (Z.shiftr nr (l - i)) 1)).
      { intros l Hl Hvl. unfold test_buddy_bit, test_bit_le. rewrite Hcb.
        rewrite Z.clearbit_eqb by lia.
        destruct (Z.eqb_spec (order_nr i (Z.lxor nr 1))
                    (order_nr l (Z.lxor (Z.shiftr nr (l - i)) 1))) as [Heq|_];
          [|apply andb_true_r].
        apply order_nr_inj in Heq; auto; [lia|].
        apply valid_bit_buddy; auto; lia. }
      assert (Hvall : forall l, i <= l <= j -> valid_bit l (Z.shiftr nr (l - i))).
      { intros l Hl. assert (Hgen : forall d : nat, i + Z.of_nat d <= j ->
                  valid_bit (i + Z.of_nat d) (Z.shiftr nr (Z.of_nat d))).
        { induction d as [|d IHd]; intros Hd.
          - rewrite Z.add_0_r, Z.shiftr_0_r. exact Hv.
          - replace (i + Z.of_nat (S d)) with (i + Z.of_nat d + 1) by lia.
            replace (Z.of_nat (S d)) with (Z.of_nat d + 1) by lia.
            rewrite <- Z.shiftr_shiftr by lia.
            apply valid_bit_parent; auto; try lia. apply IHd. lia. }
        specialize (Hgen (Z.to_nat (l - i)) ltac:(lia)).
        rewrite Z2Nat.id in Hgen by lia. replace (i + (l - i)) with l in Hgen by lia.
        exact Hgen. }
      exists ind', bud', j. rewrite <- (Hsh j) by lia.
      refine (conj Hm (conj _ (conj Hvj (conj _ (conj _ _))))).
      * lia.
      * intros l Hl. destruct (Z.eq_dec l i) as [->|Hne].
        -- rewrite Z.sub_diag, Z.shiftr_0_r. exact Ht.
        -- rewrite <- Hsame; [|lia|apply Hvall; lia].
           rewrite <- Hsh by lia. apply Hset. lia.
      * intros Hlt. rewrite Hsh by lia. rewrite <- Hsame; [|lia|apply Hvall; lia].
        rewrite <- Hsh by lia. apply Hstop. lia.
      * intros p. rewrite Hbits, Hcb.
        replace (Z.to_nat (j - i)) with (S (Z.to_nat (j - (i + 1)))) by lia.
        cbn [merged_away].
        destruct (Z.lt_ge_cases p 0) as [Hneg|Hnn].
        { rewrite !Z.testbit_neg_r by lia. reflexivity. }
        rewrite Z.clearbit_eqb by lia. rewrite negb_orb.
        rewrite (Z.eqb_sym p). rewrite <- andb_assoc. reflexivity.
    + exists ind, bud, i. rewrite Z.sub_diag, Z.shiftr_0_r.
      refine (conj eq_refl (conj _ (conj Hv (conj _ (conj _ _))))).
      * lia.
      * intros l Hl; lia.
      * intros _. exact Ht.
      * intros p. change (Z.to_nat 0) with O. cbn [merged_away negb].
        symmetry; apply andb_true_r.
Qed.

Lemma merge_refines_spec n : forall ind bud i nr,
  format_ok -> valid_bit i nr -> i + Z.of_nat n < SCOUTFS_BUDDY_ORDERS ->
  forall ind' bud' j nr',
  merge_buddies n ind bud i nr = (ind', bud', j, nr') ->
  bits (snd (set_buddy_bit ind' bud' j nr')) = spec_merge n (bits bud) i nr.
Proof.
  induction n as [|n IH]; intros ind bud i nr Hf Hv Hn ind' bud' j nr';
    cbn [merge_buddies spec_merge].
  - intros [= <- <- <- <-]. apply set_buddy_bit_bits. apply order_nr_nonneg; auto.
  - assert (Hvb : valid_bit i (Z.lxor nr 1)) by (apply valid_bit_buddy; auto; lia).
    assert (Hvp : valid_bit (i + 1) (Z.shiftr nr 1)) by (apply valid_bit_parent; auto; lia).
    pose proof (order_nr_nonneg _ _ Hf Hvb) as Hpos.
    unfold test_buddy_bit at 1. unfold test_bit_le.
    destruct (Z.testbit (bits bud) (order_nr i (Z.lxor nr 1))) eqn:Ht; cbn [negb].
    + pose proof (clear_buddy_bit_bits ind bud i (Z.lxor nr 1) Hpos) as Hcb.
      destruct (clear_buddy_bit ind bud i (Z.lxor nr 1)) as [ind1 bud1]. cbn [snd] in Hcb.
      intros H. rewrite <- Hcb. eapply IH; eauto. lia.
    + intros [= <- <- <- <-]. apply set_buddy_bit_bits. apply order_nr_nonneg; auto.
Qed.

Lemma buddy_bit_range sup blkno :
  format_ok -> 0 <= buddy_bit sup blkno < SCOUTFS_BUDDY_ORDER0_BITS.
Proof.
  intros Hf. unfold buddy_bit. apply Z.mod_pos_bound. destruct Hf; tauto.
Qed.

Lemma indirect_slot_nonneg sup blkno : format_ok -> 0 <= indirect_slot sup blkno.
Proof.
  intros Hf. unfold indirect_slot, u32. apply Z.div_pos.
  - apply Z.mod_pos_bound. lia.
  - destruct Hf; tauto.
Qed.

Lemma valid_bit_shift k x :
  format_ok -> 0 <= k < SCOUTFS_BUDDY_ORDERS -> 0 <= x < SCOUTFS_BUDDY_ORDER0_BITS ->
  valid_bit k (Z.shiftr x k).
Proof.
  intros Hf Hk Hx. split; [exact Hk|].
  rewrite Z.shiftr_div_pow2 by lia. pose proof (order_bits_exact k Hf Hk) as He.
  split; [apply Z.div_pos; lia|]. apply Z.div_lt_upper_bound; [lia|]. lia.
Qed.

(** what a [buddy_free] into a slot with a buddy block does: it returns
    0 and changes the buddy block of the slot alone, where the bits of
    the free buddies from the order up to [j] are cleared and the bit of
    order [j] over the region is set *)
Lemma buddy_free_spec sbi blkno order i0 bud :
  format_ok -> 0 <= order < SCOUTFS_BUDDY_ORDERS ->
  valid_order (super sbi) blkno order = true ->
  buddy_ind_ref (super sbi) <> 0 ->
  ind (dirty sbi) = Ok i0 ->
  aget (Err EIO) (buds (dirty sbi)) (indirect_slot (super sbi) blkno) = Ok bud ->
  let sl := indirect_slot (super sbi) blkno in
  let nr := Z.shiftr (buddy_bit (super sbi) blkno) order in
  exists sbi' i1 bud' j,
    buddy_free sbi blkno order = (Ok tt, sbi') /\
    same_but_dirty sbi sbi' /\
    bm (dirty sbi') = bm (dirty sbi) /\
    ind (dirty sbi') = Ok i1 /\
    aget (Err EIO) (buds (dirty sbi')) sl = Ok bud' /\
    (forall sl', 0 <= sl' -> sl' <> sl ->
       aget (Err EIO) (buds (dirty sbi')) sl' = aget (Err EIO) (buds (dirty sbi)) sl' /\
       aget empty_slot (slots i1) sl' = aget empty_slot (slots i0) sl') /\
    ref (aget empty_slot (slots i1) sl) = ref (aget empty_slot (slots i0) sl) /\
    order <= j < SCOUTFS_BUDDY_ORDERS /\
    valid_bit j (Z.shiftr nr (j - order)) /\
    (forall l, order <= l < j ->
       test_buddy_bit bud l (Z.lxor (Z.shiftr nr (l - order)) 1) = true) /\
    (j < SCOUTFS_BUDDY_ORDERS - 1 ->
       test_buddy_bit bud j (Z.lxor (Z.shiftr nr (j - order)) 1) = false) /\
    (forall p, Z.testbit (bits bud') p
               = (p =? order_nr j (Z.shiftr nr (j - order)))
                 || (Z.testbit (bits bud) p
                     && negb (merged_away (Z.to_nat (j - order)) order nr p))) /\
    bits bud' = spec_merge (Z.to_nat (SCOUTFS_BUDDY_ORDERS - 1 - order)) (bits bud) order nr.
Proof.
  intros Hf Ho Hvo Href Hind Hbud sl nr.
  assert (Hv : valid_bit order nr).
  { apply valid_bit_shift; auto. apply buddy_bit_range; auto. }
  assert (Hsl : 0 <= sl) by (apply indirect_slot_nonneg; auto).
  assert (Hlen : (Z.to_nat sl < length (buds (dirty sbi)))%nat).
  { eapply aget_in_range; [exact Hbud | discriminate]. }
  assert (Hn : order + Z.of_nat (Z.to_nat (SCOUTFS_BUDDY_ORDERS - 1 - order))
               < SCOUTFS_BUDDY_ORDERS) by lia.
  destruct (merge_buddies_spec (Z.to_nat (SCOUTFS_BUDDY_ORDERS - 1 - order)) i0 bud order nr
              Hf Hv Hn) as (ind1 & bud1 & j & Hm & Hj & Hvj & Hset & Hstop & Hbits).
  pose proof (merge_refines_spec _ i0 bud order nr Hf Hv Hn _ _ _ _ Hm) as Href'.
  pose proof (merge_buddies_slots (Z.to_nat (SCOUTFS_BUDDY_ORDERS - 1 - order)) i0 bud order nr)
    as Hsl1. rewrite Hm in Hsl1. cbn [fst] in Hsl1.
  pose proof (set_buddy_bit_bits ind1 bud1 j _ (order_nr_nonneg _ _ Hf Hvj)) as Hsb.
  pose proof (set_buddy_bit_slots ind1 bud1 j (Z.shiftr nr (j - order))) as Hsl2.
  unfold buddy_free.
  destruct (Z.ltb_spec order 0); [lia|].
  destruct (Z.leb_spec SCOUTFS_BUDDY_ORDERS order); [lia|].
  rewrite Hvo. cbn [orb negb].
  destruct (Z.eqb_spec (buddy_ind_ref (super sbi)) 0); [contradiction|].
  rewrite Hind. cbv zeta. fold sl. unfold sl at 1. rewrite Hbud. fold nr. rewrite Hm.
  destruct (set_buddy_bit ind1 bud1 j (Z.shiftr nr (j - order))) as [ind2 bud2].
  cbn [fst snd] in *.
  eexists _, _, bud2, j. split; [reflexivity|].
  split; [eapply same_but_dirty_trans; [apply same_but_dirty_put_bud | apply same_but_dirty_put_ind]|].
  split; [reflexivity|]. split; [reflexivity|].
  unfold put_ind, put_bud, with_slot.
  cbn [dirty with_dirty with_ind with_buds buds ind slots].
  split; [apply aget_aset_eq; exact Hlen|].
  split.
  { intros sl' Hsl' Hne. rewrite !aget_aset_ne by lia. rewrite Hsl2, Hsl1. split; reflexivity. }
  split.
  { destruct (Nat.lt_ge_cases (Z.to_nat sl) (length (slots ind2))) as [Hin|Hout].
    - rewrite aget_aset_eq by exact Hin. cbn [update_free_orders ref].
      rewrite Hsl2, Hsl1. reflexivity.
    - unfold aset. rewrite list_insert_ge by lia. rewrite Hsl2, Hsl1. reflexivity. }
  split; [lia|]. split; [exact Hvj|]. split; [exact Hset|].
  split; [intros Hlt; apply Hstop; lia|].
  split; [|exact Href'].
  intros p. rewrite Hsb.
  destruct (Z.lt_ge_cases p 0) as [Hneg|Hnn].
  { rewrite !Z.testbit_neg_r by lia.
    pose proof (order_nr_nonneg _ _ Hf Hvj).
    destruct (Z.eqb_spec p (order_nr j (Z.shiftr nr (j - order)))); [lia|reflexivity]. }
  rewrite Z.setbit_eqb by (apply order_nr_nonneg; auto).
  rewrite (Z.eqb_sym p). rewrite Hbits. reflexivity.
Qed.

Lemma lxor_1_twice n : Z.lxor (Z.lxor n 1) 1 = n.
Proof. rewrite Z.lxor_assoc, Z.lxor_nilpotent, Z.lxor_0_r. reflexivity. Qed.

Lemma lxor_1_neq n : 0 <= n -> Z.lxor n 1 <> n.
Proof. intros Hn. rewrite lxor_1 by lia. destruct (Z.even n); lia. Qed.

(** the first block of the region of a valid bit is a valid start of its
    order *)
Lemma slot_buddy_blkno_valid sup sl k n :
  format_ok -> super_ok sup -> 0 <= sl < SCOUTFS_BUDDY_SLOTS -> valid_bit k n ->
  indirect_slot sup (slot_buddy_blkno sup sl k n) = sl /\
  Z.shiftr (buddy_bit sup (slot_buddy_blkno sup sl k n)) k = n /\
  valid_order sup (slot_buddy_blkno sup sl k n) k = true.
Proof.
  intros Hf Hsup Hsl Hv.
  destruct (extent_block sup sl k n 0 Hf Hsup Hsl Hv) as (H1 & H2 & H3 & _).
  { assert (0 < 2 ^ k) by (destruct Hv; lia). lia. }
  rewrite !Z.add_0_r in *. unfold valid_order. rewrite H1, H2, H3.
  rewrite land_low_mul by (destruct Hv; lia). repeat split.
Qed.


(** ** Freeing an extent *)

Lemma buddy_free_frame sbi blkno order r sbi' :
  buddy_free sbi blkno order = (r, sbi') -> same_but_dirty sbi sbi'.
Proof.
  unfold buddy_free.
  destruct (_ || _); [intros [= _ <-]; auto with frame|].
  destruct (_ =? _); [intros [= _ <-]; auto with frame|].
  destruct (ind (dirty sbi)) as [i0|e| |]; try (intros [= _ <-]; auto with frame).
  destruct (aget _ _ _) as [bud|e| |]; try (intros [= _ <-]; auto with frame).
  destruct (merge_buddies _ _ _ _ _) as [[[ind1 bud1] j] nr1].
  destruct (set_buddy_bit _ _ _ _) as [ind2 bud2].
  intros [= _ <-].
  eapply same_but_dirty_trans; [apply same_but_dirty_put_bud | apply same_but_dirty_put_ind].
Qed.

Lemma scoutfs_buddy_free_frame sbi blkno order r sbi' :
  scoutfs_buddy_free sbi blkno order = (r, sbi') -> same_but_dirty sbi sbi'.
Proof.
  unfold scoutfs_buddy_free. destruct (blkno_region _ _).
  - intros [= _ <-]. auto with frame.
  - intros H. apply bitmap_free_frame in H. tauto.
  - apply buddy_free_frame.
Qed.

(** the frees of [scoutfs_buddy_free_extent] as the specification words
    them: while blocks are left, the order is the least of the lowest set
    bit of the block's offset in its slot, the highest power of two in
    the count and the highest order; the region of that order at the
    block is freed, and the block and the count move on by its size *)
Fixpoint spec_free_steps (fuel : nat) (sup : scoutfs_super_block) (blkno count : Z)
    : list (Z * Z) :=
  match fuel with
  | O => []
  | S fuel' =>
      if count <=? 0 then []
      else
        let order := Z.min (Z.min (__ffs64 (buddy_bit sup blkno)) (Z.log2 count))
                           (SCOUTFS_BUDDY_ORDERS - 1) in
        (blkno, order) :: spec_free_steps fuel' sup (blkno + 2 ^ order) (count - 2 ^ order)
  end.

(** free the regions in turn; a failed free is a [BUG_ON] *)
Fixpoint run_frees (sbi : scoutfs_sb_info) (steps : list (Z * Z))
    : res unit * scoutfs_sb_info :=
  match steps with
  | [] => (Ok tt, sbi)
  | (blkno, order) :: rest =>
      match scoutfs_buddy_free sbi blkno order with
      | (Ok _, sbi) => run_frees sbi rest
      | (_, sbi) => (Bug, sbi)
      end
  end.

(** the number of blocks of the regions *)
Fixpoint steps_blocks (steps : list (Z * Z)) : Z :=
  match steps with
  | [] => 0
  | (_, order) :: rest => 2 ^ order + steps_blocks rest
  end.

(** the regions follow each other from the block *)
Fixpoint contiguous (blkno : Z) (steps : list (Z * Z)) : Prop :=
  match steps with
  | [] => True
  | (b, order) :: rest => b = blkno /\ contiguous (blkno + 2 ^ order) rest
  end.

Lemma ctz_pow_le p : 2 ^ ctz p <= Zpos p.
Proof.
  induction p as [p IH|p IH|]; cbn [ctz]; try (change (2 ^ 0) with 1; lia).
  pose proof (ctz_nonneg p). rewrite Z.pow_add_r by lia. change (2 ^ 1) with 2. lia.
Qed.

Lemma ffs64_range x :
  format_ok -> 0 <= x < 2 ^ 31 -> 0 <= __ffs64 x < 2 ^ 31.
Proof.
  intros Hf Hx. destruct x as [|p|p]; cbn [__ffs64]; [| |lia].
  - destruct Hf as (_ & _ & _ & _ & _ & _ & _ & _ & _ & _ & H). exact H.
  - pose proof (ctz_nonneg p). pose proof (ctz_pow_le p).
    pose proof (Z.pow_gt_lin_r 2 (ctz p) ltac:(lia) ltac:(lia)). lia.
Qed.

Lemma land_below_ffs x o :
  0 <= x -> 0 <= o <= __ffs64 x -> Z.land x (Z.shiftl 1 o - 1) = 0.
Proof.
  intros Hx Ho. rewrite Z.shiftl_1_l. change (2 ^ o - 1) with (Z.pred (2 ^ o)).
  rewrite <- Z.ones_equiv.
  destruct x as [|p|p]; [apply Z.land_0_l| |lia].
  cbn [__ffs64] in Ho. destruct (ctz_pos_spec p) as [_ Hlow].
  apply Z.bits_inj'. intros j Hj. rewrite Z.land_spec, Z.bits_0.
  destruct (Z.lt_ge_cases j o).
  - rewrite Hlow by lia. reflexivity.
  - rewrite Z.ones_spec_high by lia. apply andb_false_r.
Qed.

Lemma free_step_order sup blkno count :
  format_ok -> 0 < count < 2 ^ 64 ->
  let order := Z.min (Z.min (__ffs64 (buddy_bit sup blkno)) (Z.log2 count))
                     (SCOUTFS_BUDDY_ORDERS - 1) in
  Z.min (Z.min (s32 (__ffs64 (u64 (buddy_bit sup blkno)))) (s32 (fls64 count - 1)))
        (SCOUTFS_BUDDY_ORDERS - 1) = order /\
  0 <= order < SCOUTFS_BUDDY_ORDERS /\
  order < 64 /\
  s32 (Z.shiftl 1 order) = 2 ^ order /\
  0 < 2 ^ order <= count /\
  valid_order sup blkno order = true.
Proof.
  intros Hf Hc order.
  pose proof (buddy_bit_range sup blkno Hf) as Hbb.
  assert (Hint : 2 * SCOUTFS_BUDDY_ORDER0_BITS < 2 ^ 31) by (destruct Hf; tauto).
  assert (Ho8 : 0 < SCOUTFS_BUDDY_ORDERS <= 8) by (destruct Hf; tauto).
  assert (Hbb31 : 0 <= buddy_bit sup blkno < 2 ^ 31) by lia.
  pose proof (ffs64_range (buddy_bit sup blkno) Hf Hbb31) as Hffs.
  pose proof (Z.log2_nonneg count) as Hl0.
  assert (Hl64 : Z.log2 count < 64) by (apply Z.log2_lt_pow2; lia).
  pose proof (Z.log2_spec count ltac:(lia)) as [Hlo _].
  rewrite (u64_small (buddy_bit sup blkno)) by lia.
  rewrite (s32_small (__ffs64 _)) by lia.
  unfold fls64. destruct (Z.leb_spec count 0); [lia|].
  replace (Z.log2 count + 1 - 1) with (Z.log2 count) by lia.
  rewrite (s32_small (Z.log2 count)) by lia.
  fold order.
  assert (Hor : 0 <= order <= 7) by (subst order; lia).
  assert (Hpow : 0 < 2 ^ order <= 2 ^ 7).
  { split; [lia|]. apply Z.pow_le_mono_r; lia. }
  split; [reflexivity|]. split; [lia|]. split; [lia|].
  split; [rewrite Z.shiftl_1_l; apply s32_small; lia|].
  split.
  { split; [lia|]. apply Z.le_trans with (2 ^ Z.log2 count); [|exact Hlo].
    apply Z.pow_le_mono_r; subst order; lia. }
  unfold valid_order. rewrite land_below_ffs; [reflexivity|lia|subst order; lia].
Qed.

Lemma free_extent_loop_refines fuel : forall sbi blkno count,
  format_ok -> 0 <= blkno -> 0 <= count -> blkno + count < 2 ^ 64 ->
  count <= Z.of_nat fuel ->
  free_extent_loop fuel sbi blkno count
  = run_frees sbi (spec_free_steps fuel (stable_super sbi) blkno count).
Proof.
  induction fuel as [|fuel IH]; intros sbi blkno count Hf Hb Hc Hsum Hfuel;
    cbn [free_extent_loop spec_free_steps].
  - replace count with 0 by lia. reflexivity.
  - destruct (Z.eqb_spec count 0) as [->|Hne]; [reflexivity|].
    destruct (Z.leb_spec count 0); [lia|].
    destruct (free_step_order (stable_super sbi) blkno count Hf ltac:(lia))
      as (Horder & Hrange & _ & Hsize & Hpow & _).
    rewrite Horder.
    set (order := Z.min (Z.min (__ffs64 (buddy_bit (stable_super sbi) blkno)) (Z.log2 count))
                        (SCOUTFS_BUDDY_ORDERS - 1)) in *.
    rewrite Hsize. cbn [run_frees].
    destruct (scoutfs_buddy_free sbi blkno order) as [r sbi1] eqn:Hfree.
    apply scoutfs_buddy_free_frame in Hfree.
    apply same_but_dirty_fields in Hfree. destruct Hfree as (_ & Hst & _).
    destruct r; try reflexivity.
    rewrite !u64_small by lia. rewrite <- Hst. apply IH; auto; lia.
Qed.

Lemma spec_free_steps_props sup fuel : forall blkno count,
  format_ok -> 0 <= count < 2 ^ 64 -> count <= Z.of_nat fuel ->
  let steps := spec_free_steps fuel sup blkno count in
  steps_blocks steps = count /\ contiguous blkno steps /\
  Forall (fun s => 0 <= snd s < SCOUTFS_BUDDY_ORDERS /\
                   valid_order sup (fst s) (snd s) = true) steps.
Proof.
  induction fuel as [|fuel IH]; intros blkno count Hf Hc Hfuel steps; subst steps;
    cbn [spec_free_steps].
  - cbn. repeat split; auto; lia.
  - destruct (Z.leb_spec count 0).
    { cbn. repeat split; auto; lia. }
    destruct (free_step_order sup blkno count Hf ltac:(lia))
      as (_ & Hrange & _ & _ & Hpow & Hvalid).
    set (order := Z.min (Z.min (__ffs64 (buddy_bit sup blkno)) (Z.log2 count))
                        (SCOUTFS_BUDDY_ORDERS - 1)) in *.
    destruct (IH (blkno + 2 ^ order) (count - 2 ^ order) Hf ltac:(lia) ltac:(lia))
      as (Hsum & Hcont & Hall).
    cbn [steps_blocks contiguous]. split; [lia|]. split; [split; [reflexivity|exact Hcont]|].
    constructor; [split; assumption | exact Hall].
Qed.


(** ** When [buddy_alloc] finds nothing *)

(** the indirect blocks are there and can be read, and the slots that
    advertise free orders in both views have their buddy blocks *)
Definition volume_readable (sbi : scoutfs_sb_info)
    (d_ind st_ind : scoutfs_buddy_indirect) : Prop :=
  buddy_ind_ref (super sbi) <> 0 /\ buddy_ind_ref (stable_super sbi) <> 0 /\
  ind (dirty sbi) = Ok d_ind /\ ind (stable sbi) = Ok st_ind /\
  forall sl, 0 <= sl < SCOUTFS_BUDDY_SLOTS ->
    free_orders (aget empty_slot (slots d_ind) sl) <> 0 ->
    free_orders (aget empty_slot (slots st_ind) sl) <> 0 ->
    ref (aget empty_slot (slots d_ind) sl) <> 0 /\
    ref (aget empty_slot (slots st_ind) sl) <> 0 /\
    (exists bud, aget (Err EIO) (buds (dirty sbi)) sl = Ok bud) /\
    (exists st_bud, aget (Err EIO) (buds (stable sbi)) sl = Ok st_bud).

(** a region that is free in the dirty buddy block of a slot and lies in
    a free region of the stable buddy block of the slot, in a slot that
    advertises free orders in both views *)
Definition has_candidate (sbi : scoutfs_sb_info) : Prop :=
  exists d_ind st_ind sl bud st_bud k n,
    ind (dirty sbi) = Ok d_ind /\ ind (stable sbi) = Ok st_ind /\
    0 <= sl < SCOUTFS_BUDDY_SLOTS /\
    Z.land 255 (free_orders (aget empty_slot (slots d_ind) sl)) <> 0 /\
    Z.land 255 (free_orders (aget empty_slot (slots st_ind) sl)) <> 0 /\
    aget (Err EIO) (buds (dirty sbi)) sl = Ok bud /\
    aget (Err EIO) (buds (stable sbi)) sl = Ok st_bud /\
    valid_bit k n /\
    test_buddy_bit bud k n = true /\
    test_buddy_bit_or_higher st_bud k n = true.

(** no region of the order or above in the slot is free in both blocks *)
Definition no_fit_in (sbi : scoutfs_sb_info) (order sl : Z) : Prop :=
  forall bud st_bud k n,
    aget (Err EIO) (buds (dirty sbi)) sl = Ok bud ->
    aget (Err EIO) (buds (stable sbi)) sl = Ok st_bud ->
    order <= k -> valid_bit k n ->
    test_buddy_bit bud k n = true -> test_buddy_bit_or_higher st_bud k n = false.

Lemma alloc_slot_readable sbi d_ind sl sref order bud st_bud :
  format_ok -> super_ok (super sbi) ->
  0 <= sl < SCOUTFS_BUDDY_SLOTS -> 0 <= order < SCOUTFS_BUDDY_ORDERS ->
  ref (aget empty_slot (slots d_ind) sl) <> 0 -> sref <> 0 ->
  aget (Err EIO) (buds (dirty sbi)) sl = Ok bud ->
  aget (Err EIO) (buds (stable sbi)) sl = Ok st_bud ->
  (alloc_slot sbi d_ind sl sref order = (Err ENOSPC, sbi, d_ind) /\ no_fit_in sbi order sl) \/
  (exists blkno sbi' ind', alloc_slot sbi d_ind sl sref order = (Ok blkno, sbi', ind')).
Proof.
  intros Hf Hsup Hsl Ho Hused Hsref Hbud Hsbud. unfold alloc_slot.
  rewrite dirty_buddy_block_used by exact Hused. rewrite Hbud.
  destruct (Z.eqb_spec sref 0) as [|_]; [contradiction|]. cbn [negb]. rewrite Hsbud.
  destruct (find_first_fit_spec (super sbi) sl bud (Some st_bud) order Hf Hsup Hsl Ho)
    as (nr & found & Hfit & _ & Hnone).
  rewrite Hfit. destruct (Z.eqb_spec nr INT_MAX) as [Hmax|Hne].
  - left. split; [reflexivity|].
    intros bud' st_bud' k n Hb Hs Hk Hv Ht.
    rewrite Hbud in Hb. rewrite Hsbud in Hs. injection Hb as <-. injection Hs as <-.
    apply (Hnone Hmax k n Hk Hv Ht).
  - right. destruct (clear_buddy_bit d_ind bud found nr) as [ind2 bud2].
    destruct (split_right _ ind2 bud2 _ _) as [ind3 bud3]. eauto.
Qed.

Lemma alloc_order_slots_readable sbi d_ind st_ind mask order :
  format_ok -> super_ok (super sbi) -> 0 <= order < SCOUTFS_BUDDY_ORDERS ->
  volume_readable sbi d_ind st_ind ->
  forall n i, 0 <= i -> i + Z.of_nat n <= SCOUTFS_BUDDY_SLOTS ->
  (alloc_order_slots n sbi d_ind st_ind mask order i (Err ENOSPC) = (Err ENOSPC, sbi, d_ind) /\
   forall sl, i <= sl < i + Z.of_nat n ->
     Z.land mask (free_orders (aget empty_slot (slots d_ind) sl)) <> 0 ->
     Z.land mask (free_orders (aget empty_slot (slots st_ind) sl)) <> 0 ->
     no_fit_in sbi order sl) \/
  (exists blkno sbi' ind',
     alloc_order_slots n sbi d_ind st_ind mask order i (Err ENOSPC) = (Ok blkno, sbi', ind')).
Proof.
  intros Hf Hsup Ho (_ & _ & _ & _ & Hread).
  induction n as [|n IH]; intros i Hi Hn; cbn [alloc_order_slots].
  - left. split; [reflexivity | intros; lia].
  - destruct (Z.eqb_spec (Z.land mask (free_orders (aget empty_slot (slots d_ind) i))) 0)
      as [Hd|Hd]; cbn [orb].
    { destruct (IH (i + 1)) as [[Heq Hno]|Hok]; [lia|lia| |right; exact Hok].
      left. split; [exact Heq|]. intros sl Hsl Hmd Hms.
      destruct (Z.eq_dec sl i) as [->|]; [contradiction | apply Hno; auto; lia]. }
    destruct (Z.eqb_spec (Z.land mask (free_orders (aget empty_slot (slots st_ind) i))) 0)
      as [Hs|Hs].
    { destruct (IH (i + 1)) as [[Heq Hno]|Hok]; [lia|lia| |right; exact Hok].
      left. split; [exact Heq|]. intros sl Hsl Hmd Hms.
      destruct (Z.eq_dec sl i) as [->|]; [contradiction | apply Hno; auto; lia]. }
    assert (Hfd : free_orders (aget empty_slot (slots d_ind) i) <> 0).
    { intros Hz. rewrite Hz, Z.land_0_r in Hd. contradiction. }
    assert (Hfs : free_orders (aget empty_slot (slots st_ind) i) <> 0).
    { intros Hz. rewrite Hz, Z.land_0_r in Hs. contradiction. }
    assert (Hisl : 0 <= i < SCOUTFS_BUDDY_SLOTS) by lia.
    destruct (Hread i Hisl Hfd Hfs) as (Hrd & Hrs & [bud Hbud] & [st_bud Hsbud]).
    destruct (alloc_slot_readable sbi d_ind i (ref (aget empty_slot (slots st_ind) i)) order
                bud st_bud Hf Hsup Hisl Ho Hrd Hrs Hbud Hsbud)
      as [[Heq Hnofit]|(blkno & sbi' & ind' & Hok)].
    + rewrite Heq.
      destruct (IH (i + 1)) as [[Heq' Hno]|Hok]; [lia|lia| |right; exact Hok].
      left. split; [exact Heq'|]. intros sl Hsl Hmd Hms.
      destruct (Z.eq_dec sl i) as [->|]; [exact Hnofit | apply Hno; auto; lia].
    + right. rewrite Hok. eauto.
Qed.

Lemma alloc_order_readable sbi d_ind st_ind order :
  format_ok -> super_ok (super sbi) -> 0 <= order < SCOUTFS_BUDDY_ORDERS ->
  volume_readable sbi d_ind st_ind ->
  (alloc_order sbi order = (Err ENOSPC, sbi) /\
   forall sl, 0 <= sl < SCOUTFS_BUDDY_SLOTS ->
     Z.land (u8 (u32 (Z.shiftl (2 ^ 32 - 1) order)))
       (free_orders (aget empty_slot (slots d_ind) sl)) <> 0 ->
     Z.land (u8 (u32 (Z.shiftl (2 ^ 32 - 1) order)))
       (free_orders (aget empty_slot (slots st_ind) sl)) <> 0 ->
     no_fit_in sbi order sl) \/
  (exists blkno sbi', alloc_order sbi order = (Ok blkno, sbi')).
Proof.
  intros Hf Hsup Ho Hread.
  pose proof Hread as (Hrd & Hrs & Hd & Hs & _).
  assert (Hslots : 0 < SCOUTFS_BUDDY_SLOTS) by (destruct Hf; tauto).
  unfold alloc_order.
  destruct (Z.eqb_spec (buddy_ind_ref (super sbi)) 0); [contradiction|].
  destruct (Z.eqb_spec (buddy_ind_ref (stable_super sbi)) 0); [contradiction|].
  cbn [orb]. rewrite Hd, Hs.
  destruct (alloc_order_slots_readable sbi d_ind st_ind
              (u8 (u32 (Z.shiftl (2 ^ 32 - 1) order))) order Hf Hsup Ho Hread
              (Z.to_nat SCOUTFS_BUDDY_SLOTS) 0)
    as [[Heq Hno]|(blkno & sbi' & ind' & Hok)]; try lia.
  - left. rewrite Heq. rewrite put_ind_same by exact Hd. split; [reflexivity|].
    intros sl Hsl. apply Hno. lia.
  - right. rewrite Hok. eauto.
Qed.

Lemma buddy_alloc_from_readable sbi d_ind st_ind o :
  format_ok -> super_ok (super sbi) -> Z.of_nat o < SCOUTFS_BUDDY_ORDERS ->
  volume_readable sbi d_ind st_ind ->
  (buddy_alloc_from o sbi = (Err ENOSPC, sbi) /\
   forall sl, 0 <= sl < SCOUTFS_BUDDY_SLOTS ->
     Z.land 255 (free_orders (aget empty_slot (slots d_ind) sl)) <> 0 ->
     Z.land 255 (free_orders (aget empty_slot (slots st_ind) sl)) <> 0 ->
     no_fit_in sbi 0 sl) \/
  (exists blkno g sbi', buddy_alloc_from o sbi = (Ok (blkno, g), sbi')).
Proof.
  intros Hf Hsup Ho Hread. induction o as [|o IH]; cbn [buddy_alloc_from].
  - destruct (alloc_order_readable sbi d_ind st_ind 0 Hf Hsup ltac:(lia) Hread)
      as [[Heq Hno]|(blkno & sbi' & Hok)].
    + left. change (Z.of_nat 0) with 0. rewrite Heq. split; [reflexivity | exact Hno].
    + right. change (Z.of_nat 0) with 0. rewrite Hok. eauto.
  - destruct (alloc_order_readable sbi d_ind st_ind (Z.of_nat (S o)) Hf Hsup ltac:(lia) Hread)
      as [[Heq Hno]|(blkno & sbi' & Hok)].
    + rewrite Heq. apply IH. lia.
    + right. rewrite Hok. eauto.
Qed.


(** ** The reservoir and the block map *)

Lemma buddy_alloc_frame sbi order r sbi' :
  buddy_alloc sbi order = (r, sbi') -> same_but_dirty sbi sbi'.
Proof.
  unfold buddy_alloc. destruct (_ || _).
  - intros [= _ <-]. auto with frame.
  - apply buddy_alloc_from_frame.
Qed.

(** the two volumes differ at most in their dirty blocks and in the
    reservoir *)
Definition same_but_alloc (a b : scoutfs_sb_info) : Prop :=
  b = with_file_alloc (with_dirty a (dirty b)) (file_alloc_blkno b) (file_alloc_count b).

Lemma same_but_alloc_refl a : same_but_alloc a a.
Proof. destruct a; reflexivity. Qed.

Lemma same_but_alloc_trans a b c :
  same_but_alloc a b -> same_but_alloc b c -> same_but_alloc a c.
Proof. unfold same_but_alloc. intros Hab Hbc. rewrite Hbc, Hab. reflexivity. Qed.

Lemma same_but_alloc_dirty a b : same_but_dirty a b -> same_but_alloc a b.
Proof. unfold same_but_dirty, same_but_alloc. intros ->. reflexivity. Qed.

Lemma same_but_alloc_with a blkno count :
  same_but_alloc a (with_file_alloc a blkno count).
Proof. destruct a; reflexivity. Qed.

Lemma same_but_alloc_fields a b :
  same_but_alloc a b ->
  super b = super a /\ stable_super b = stable_super a /\ stable b = stable a /\
  new_block_err b = new_block_err a /\ btree b = btree a /\
  btree_update_err b = btree_update_err a /\ btree_insert_err b = btree_insert_err a.
Proof. intros ->. repeat split. Qed.

Lemma pop_file_block_frame sbi r sbi' :
  pop_file_block sbi = (r, sbi') -> same_but_alloc sbi sbi'.
Proof.
  unfold pop_file_block. destruct (negb _); intros [= _ <-].
  - apply same_but_alloc_with.
  - apply same_but_alloc_refl.
Qed.

Lemma alloc_file_block_frame sbi r sbi' :
  alloc_file_block sbi = (r, sbi') -> same_but_alloc sbi sbi'.
Proof.
  unfold alloc_file_block, scoutfs_buddy_alloc, alloc_region.
  destruct (file_alloc_count sbi =? 0); [|apply pop_file_block_frame].
  destruct (buddy_alloc sbi _) as [ra sbi1] eqn:Ha.
  apply buddy_alloc_frame, same_but_alloc_dirty in Ha.
  destruct ra as [[alloc_blkno order]|e| |]; try (intros [= _ <-]; exact Ha).
  set (inst := if file_alloc_count sbi1 =? 0
               then (with_file_alloc sbi1 alloc_blkno (u64 (s32 (Z.shiftl 1 order))), -1)
               else (sbi1, order)).
  assert (Hinst : same_but_alloc sbi (fst inst)).
  { subst inst. destruct (file_alloc_count sbi1 =? 0); cbn [fst]; [|exact Ha].
    eapply same_but_alloc_trans; [exact Ha | apply same_but_alloc_with]. }
  destruct inst as [sbi2 order2]. cbn [fst] in Hinst.
  destruct (pop_file_block sbi2) as [ret sbi3] eqn:Hpop.
  apply pop_file_block_frame in Hpop.
  destruct (order2 >? 0).
  - destruct (scoutfs_buddy_free sbi3 alloc_blkno order2) as [rf sbi4] eqn:Hfree.
    apply scoutfs_buddy_free_frame, same_but_alloc_dirty in Hfree.
    cbn [snd]. intros [= _ <-].
    eapply same_but_alloc_trans; [exact Hinst|].
    eapply same_but_alloc_trans; [exact Hpop | exact Hfree].
  - intros [= _ <-]. eapply same_but_alloc_trans; [exact Hinst | exact Hpop].
Qed.

(** after [alloc_file_block] gave a block the reservoir starts behind it *)
Lemma alloc_file_block_head sbi new_blkno sbi' :
  alloc_file_block sbi = (Ok new_blkno, sbi') ->
  file_alloc_blkno sbi' = u64 (new_blkno + 1).
Proof.
  assert (Hpop : forall a b, pop_file_block a = (Ok new_blkno, b) ->
            file_alloc_blkno b = u64 (new_blkno + 1)).
  { intros a b. unfold pop_file_block. destruct (negb _); [|discriminate].
    intros [= <- <-]. reflexivity. }
  unfold alloc_file_block. destruct (file_alloc_count sbi =? 0); [|apply Hpop].
  destruct (scoutfs_buddy_alloc sbi _) as [ra sbi1].
  destruct ra as [[alloc_blkno order]|e| |]; try discriminate.
  destruct (if file_alloc_count sbi1 =? 0
            then (with_file_alloc sbi1 alloc_blkno (u64 (s32 (Z.shiftl 1 order))), -1)
            else (sbi1, order)) as [sbi2 order2].
  destruct (pop_file_block sbi2) as [ret sbi3] eqn:Hp.
  destruct (order2 >? 0).
  - destruct (scoutfs_buddy_free sbi3 alloc_blkno order2) as [rf sbi4] eqn:Hfree.
    apply scoutfs_buddy_free_frame, same_but_dirty_fields in Hfree.
    destruct Hfree as (_ & _ & _ & _ & Hb & _).
    cbn [snd]. intros [= -> <-]. rewrite Hb. eapply Hpop; eauto.
  - intros [= -> <-]. eapply Hpop; eauto.
Qed.

Lemma aget_replicate_0 n i : aget 0 (replicate n 0) i = 0.
Proof.
  unfold aget. destruct (replicate n 0 !! Z.to_nat i) eqn:E; [|reflexivity].
  apply lookup_replicate in E. destruct E as [-> _]. reflexivity.
Qed.

(** the item that [map_writable_block] writes to: the one of the key, or
    a zeroed one that it inserted *)
Lemma writable_bmap_inv sbi key bmap inserted sbi0 :
  writable_bmap sbi key = (Ok (bmap, inserted), sbi0) ->
  (inserted = false /\ sbi0 = sbi /\ btree sbi !! key = Some bmap) \/
  (inserted = true /\ btree sbi !! key = None /\
   bmap = replicate (Z.to_nat SCOUTFS_BLOCK_MAP_COUNT) 0 /\
   sbi0 = with_btree sbi (<[key := bmap]> (btree sbi))).
Proof.
  unfold writable_bmap, scoutfs_btree_update, scoutfs_btree_insert.
  destruct (btree_update_err sbi) as [e|].
  - destruct e; try discriminate.
    destruct (btree_insert_err sbi); [discriminate|].
    destruct (btree sbi !! key) eqn:Hk; [discriminate|].
    intros [= <- <- <-]. right. auto.
  - destruct (btree sbi !! key) eqn:Hk.
    + intros [= <- <- <-]. left. auto.
    + destruct (btree_insert_err sbi); [discriminate|].
      intros [= <- <- <-]. right. auto.
Qed.

(** C8: once [map_writable_block] has its writable map item, a failure
    is handed on after the roll back, with the block map items as they
    were before the call.  When the stable state of the old block cannot
    be read nothing has changed.  When no new block can be had, an item
    that the call inserted is deleted, and the delete succeeds.  When the
    old block cannot be freed, the new block is put back at the head of
    the reservoir, the only case with a new block at hand.  [BUG_ON] does
    not fire. *)
Theorem map_writable_block_rolls_back (sbi : scoutfs_sb_info) (ino iblock : Z)
    (bmap : list Z) (inserted : bool) (sbi0 : scoutfs_sb_info) :
  writable_bmap sbi (set_bmap_key ino iblock) = (Ok (bmap, inserted), sbi0) ->
  (forall e,
     aget 0 bmap (Z.land iblock SCOUTFS_BLOCK_MAP_MASK) <> 0 ->
     scoutfs_buddy_was_free sbi0 (aget 0 bmap (Z.land iblock SCOUTFS_BLOCK_MAP_MASK)) 0
       = Err e ->
     map_writable_block sbi ino iblock = (Err e, sbi)) /\
  (forall e sbi1,
     aget 0 bmap (Z.land iblock SCOUTFS_BLOCK_MAP_MASK) = 0 \/
     scoutfs_buddy_was_free sbi0 (aget 0 bmap (Z.land iblock SCOUTFS_BLOCK_MAP_MASK)) 0
       = Ok 0 ->
     alloc_file_block sbi0 = (Err e, sbi1) ->
     exists sbi',
       map_writable_block sbi ino iblock = (Err e, sbi') /\
       btree sbi' = btree sbi /\
       file_alloc_blkno sbi' = file_alloc_blkno sbi1 /\
       file_alloc_count sbi' = file_alloc_count sbi1) /\
  (forall e new_blkno sbi1 sbi2,
     aget 0 bmap (Z.land iblock SCOUTFS_BLOCK_MAP_MASK) <> 0 ->
     scoutfs_buddy_was_free sbi0 (aget 0 bmap (Z.land iblock SCOUTFS_BLOCK_MAP_MASK)) 0
       = Ok 0 ->
     alloc_file_block sbi0 = (Ok new_blkno, sbi1) ->
     0 < new_blkno < 2 ^ 64 ->
     scoutfs_buddy_free sbi1 (aget 0 bmap (Z.land iblock SCOUTFS_BLOCK_MAP_MASK)) 0
       = (Err e, sbi2) ->
     exists sbi',
       map_writable_block sbi ino iblock = (Err e, sbi') /\
       btree sbi' = btree sbi /\
       file_alloc_blkno sbi' = new_blkno /\
       file_alloc_count sbi' = u64 (file_alloc_count sbi1 + 1)).
Proof.
  intros Hw. pose proof (writable_bmap_inv _ _ _ _ _ Hw) as Hinv.
  set (old := aget 0 bmap (Z.land iblock SCOUTFS_BLOCK_MAP_MASK)) in *.
  assert (Hold : old <> 0 -> inserted = false /\ sbi0 = sbi).
  { intros Hne. destruct Hinv as [(-> & -> & _)|(_ & _ & -> & _)]; [auto|].
    subst old. rewrite aget_replicate_0 in Hne. contradiction. }
  split; [|split].
  - intros e Hne Hwf. destruct (Hold Hne) as [-> ->].
    unfold map_writable_block. rewrite Hw. fold old.
    destruct (Z.eqb_spec old 0); [contradiction|]. cbn [negb]. rewrite Hwf.
    cbn. reflexivity.
  - intros e sbi1 Hnot Ha.
    pose proof (alloc_file_block_frame _ _ _ Ha) as Hfr.
    apply same_but_alloc_fields in Hfr. destruct Hfr as (_ & _ & _ & _ & Hbt & _).
    assert (Hbody : map_writable_block sbi ino iblock
                    = map_writable_out sbi1 (set_bmap_key ino iblock) 0 inserted (Err e)).
    { unfold map_writable_block. rewrite Hw. fold old.
      destruct Hnot as [Hz|Hwf].
      - rewrite Hz. cbn [Z.eqb negb Z.gtb Z.compare]. rewrite Ha. reflexivity.
      - destruct (Z.eqb_spec old 0) as [Hz|Hnz]; cbn [negb].
        + cbn [Z.gtb Z.compare]. rewrite Ha. reflexivity.
        + rewrite Hwf. cbn [Z.gtb Z.compare]. rewrite Ha. reflexivity. }
    rewrite Hbody. unfold map_writable_out. cbn [Z.eqb negb].
    destruct Hinv as [(-> & -> & _)|(-> & Hnone & Hzero & ->)].
    + exists sbi1. auto.
    + unfold scoutfs_btree_delete. rewrite Hbt. cbn [btree with_btree].
      rewrite lookup_insert_eq.
      eexists. split; [reflexivity|]. cbn [btree with_btree file_alloc_blkno file_alloc_count].
      rewrite delete_insert_eq, delete_id by exact Hnone. auto.
  - intros e new_blkno sbi1 sbi2 Hne Hwf Ha Hnew Hfree.
    destruct (Hold Hne) as [-> ->].
    pose proof (alloc_file_block_frame _ _ _ Ha) as Hfr.
    apply same_but_alloc_fields in Hfr. destruct Hfr as (_ & _ & _ & _ & Hbt & _).
    pose proof (alloc_file_block_head _ _ _ Ha) as Hhead.
    pose proof (scoutfs_buddy_free_frame _ _ _ _ _ Hfree) as Hfr2.
    apply same_but_dirty_fields in Hfr2.
    destruct Hfr2 as (_ & _ & _ & _ & Hb2 & Hc2 & Hbt2 & _).
    unfold map_writable_block. rewrite Hw. fold old.
    destruct (Z.eqb_spec old 0); [contradiction|]. cbn [negb]. rewrite Hwf.
    cbn [Z.gtb Z.compare]. rewrite Ha, Hfree. cbn [fail].
    unfold map_writable_out.
    destruct (Z.eqb_spec new_blkno 0); [lia|]. cbn [negb].
    unfold return_file_block. rewrite Hb2, Hc2, Hhead, Z.eqb_refl.
    rewrite andb_false_r.
    eexists. split; [reflexivity|].
    cbn [btree with_file_alloc file_alloc_blkno file_alloc_count].
    split; [congruence|]. split; [|reflexivity].
    assert (Hback : u64 (u64 (new_blkno + 1) - 1) = new_blkno).
    { unfold u64. rewrite Zminus_mod_idemp_l.
      replace (new_blkno + 1 - 1) with new_blkno by lia. apply Z.mod_small. lia. }
    destruct (file_alloc_count sbi1 =? 0); exact Hback.
Qed.

(** ** Reuse of a block of this transaction *)

(** a block in the reservoir was allocated in this transaction: it is
    nonzero and was free in stable *)
Definition reservoir_fresh (sbi : scoutfs_sb_info) : Prop :=
  file_alloc_count sbi <> 0 ->
  file_alloc_blkno sbi <> 0 /\
  scoutfs_buddy_was_free sbi (file_alloc_blkno sbi) 0 = Ok 1.

Lemma was_free_same a b blkno order :
  super b = super a -> stable_super b = stable_super a -> stable b = stable a ->
  scoutfs_buddy_was_free b blkno order = scoutfs_buddy_was_free a blkno order.
Proof. intros H1 H2 H3. unfold scoutfs_buddy_was_free. rewrite H1, H2, H3. reflexivity. Qed.

Lemma was_free_values sbi blkno order r :
  scoutfs_buddy_was_free sbi blkno order = Ok r -> r = 0 \/ r = 1.
Proof.
  unfold scoutfs_buddy_was_free. destruct (_ || _); [discriminate|].
  destruct (ind (stable sbi)) as [i|e| |]; try discriminate.
  destruct (ref _ =? 0); [intros [= <-]; auto|].
  destruct (aget _ _ _) as [bud|e| |]; try discriminate.
  destruct (test_buddy_bit_or_higher _ _ _); intros [= <-]; auto.
Qed.

(** the block that [alloc_file_block] gives is nonzero and was free in
    stable *)
Lemma alloc_file_block_fresh sbi new_blkno sbi' :
  format_ok -> super_ok (super sbi) ->
  buddy_blocks (stable_super sbi) = buddy_blocks (super sbi) ->
  buddy_bm_ref (super sbi) <> 0 -> buddy_bm_ref (stable_super sbi) <> 0 ->
  reservoir_fresh sbi ->
  alloc_file_block sbi = (Ok new_blkno, sbi') ->
  new_blkno <> 0 /\ scoutfs_buddy_was_free sbi new_blkno 0 = Ok 1.
Proof.
  intros Hf Hsup Hbb Hd Hs Hres. unfold alloc_file_block.
  destruct (Z.eqb_spec (file_alloc_count sbi) 0) as [Hz|Hnz].
  - unfold scoutfs_buddy_alloc, alloc_region.
    destruct (buddy_alloc sbi _) as [ra sbi1] eqn:Ha.
    destruct ra as [[alloc_blkno order]|e| |]; try discriminate.
    pose proof (buddy_alloc_frame _ _ _ _ Ha) as Hfr.
    apply same_but_dirty_fields in Hfr.
    destruct Hfr as (_ & _ & _ & _ & _ & Hc & _).
    apply buddy_alloc_free in Ha; auto.
    destruct Ha as (Hg & Hblk & _ & Hfree).
    assert (H0 : 0 <= 0 < 2 ^ order) by (split; [lia | apply Z.pow_pos_nonneg; lia]).
    destruct (Hfree 0 H0) as [Hst _]. rewrite Z.add_0_r in Hst.
    rewrite Hc, Hz. cbn [Z.eqb].
    unfold pop_file_block. cbn [file_alloc_count file_alloc_blkno with_file_alloc].
    destruct (negb _); [|discriminate]. cbn [Z.gtb Z.compare].
    intros [= <- _]. split; [lia|]. apply was_free_of_free_in; auto.
  - unfold pop_file_block. destruct (Z.eqb_spec (file_alloc_count sbi) 0); [contradiction|].
    cbn [negb]. intros [= <- _]. exact (Hres Hnz).
Qed.

Lemma bmap_index_range iblock :
  format_ok -> 0 <= Z.land iblock SCOUTFS_BLOCK_MAP_MASK < SCOUTFS_BLOCK_MAP_COUNT.
Proof.
  intros Hf. assert (Hs : 0 <= SCOUTFS_BLOCK_MAP_SHIFT) by (unfold format_ok in Hf; lia).
  unfold SCOUTFS_BLOCK_MAP_MASK, SCOUTFS_BLOCK_MAP_COUNT.
  rewrite Z.shiftl_1_l.
  change (2 ^ SCOUTFS_BLOCK_MAP_SHIFT - 1) with (Z.pred (2 ^ SCOUTFS_BLOCK_MAP_SHIFT)).
  rewrite <- Z.ones_equiv, Z.land_ones by exact Hs.
  apply Z.mod_pos_bound, Z.pow_pos_nonneg; lia.
Qed.

Lemma map_writable_out_fails {A : Type} sbi key new_blkno inserted (r : res A) b sbi' :
  map_writable_out sbi key new_blkno inserted (fail r) <> (Ok b, sbi').
Proof.
  unfold map_writable_out.
  destruct r; cbn [fail]; try discriminate.
  destruct (if negb (new_blkno =? 0) then return_file_block sbi new_blkno else (Ok tt, sbi))
    as [[| | |] ?]; try discriminate.
  destruct inserted; try discriminate.
  destruct (scoutfs_btree_delete _ _) as [[| | |] ?]; discriminate.
Qed.

(** C2: in one transaction the second call of [map_writable_block] for
    a logical block gives the block of the first call.  The first call
    leaves a nonzero block in the map item that was free in stable, so
    the second call reuses it: nothing is allocated and the volume is
    left as the first call left it.  The stable blocks are those of the
    first call. *)
Theorem map_writable_block_reuses (sbi : scoutfs_sb_info) (ino iblock b : Z)
    (sbi1 : scoutfs_sb_info) :
  format_ok -> super_ok (super sbi) ->
  buddy_blocks (stable_super sbi) = buddy_blocks (super sbi) ->
  buddy_bm_ref (super sbi) <> 0 -> buddy_bm_ref (stable_super sbi) <> 0 ->
  btree_update_err sbi = None ->
  (forall bmap, btree sbi !! set_bmap_key ino iblock = Some bmap ->
     length bmap = Z.to_nat SCOUTFS_BLOCK_MAP_COUNT) ->
  reservoir_fresh sbi ->
  map_writable_block sbi ino iblock = (Ok b, sbi1) ->
  stable sbi1 = stable sbi /\ stable_super sbi1 = stable_super sbi /\
  (exists bmap,
     btree sbi1 !! set_bmap_key ino iblock = Some bmap /\
     aget 0 bmap (Z.land iblock SCOUTFS_BLOCK_MAP_MASK) = b) /\
  b <> 0 /\
  scoutfs_buddy_was_free sbi1 b 0 = Ok 1 /\
  map_writable_block sbi1 ino iblock = (Ok b, sbi1).
Proof.
  intros Hf Hsup Hbb Hd Hs Hupd Hlen Hres H.
  set (key := set_bmap_key ino iblock) in *.
  set (i := Z.land iblock SCOUTFS_BLOCK_MAP_MASK) in *.
  (* what the second call does on a volume with such an item *)
  assert (Hsecond : forall s bmap,
    btree_update_err s = None -> btree s !! key = Some bmap ->
    aget 0 bmap i = b -> b <> 0 -> scoutfs_buddy_was_free s b 0 = Ok 1 ->
    map_writable_block s ino iblock = (Ok b, s)).
  { intros s bmap Hu Hk Hg Hb Hw. unfold map_writable_block, writable_bmap, scoutfs_btree_update.
    fold key. rewrite Hu, Hk. fold i. rewrite Hg.
    destruct (Z.eqb_spec b 0); [contradiction|]. cbn [negb]. rewrite Hw. reflexivity. }
  unfold map_writable_block in H. fold key in H.
  destruct (writable_bmap sbi key) as [rw sbi0] eqn:Hw.
  destruct rw as [[bmap inserted]|e| |]; try discriminate.
  pose proof (writable_bmap_inv _ _ _ _ _ Hw) as Hinv. fold i in H.
  assert (Hbl : length bmap = Z.to_nat SCOUTFS_BLOCK_MAP_COUNT).
  { destruct Hinv as [(_ & _ & Hk)|(_ & _ & -> & _)]; [auto|apply length_replicate]. }
  assert (H0 : super sbi0 = super sbi /\ stable_super sbi0 = stable_super sbi /\
               stable sbi0 = stable sbi /\ btree_update_err sbi0 = btree_update_err sbi /\
               file_alloc_blkno sbi0 = file_alloc_blkno sbi /\
               file_alloc_count sbi0 = file_alloc_count sbi).
  { destruct Hinv as [(_ & -> & _)|(_ & _ & _ & ->)]; repeat split. }
  destruct H0 as (H0a & H0b & H0c & H0d & H0e & H0f).
  set (old := aget 0 bmap i) in *.
  destruct (if negb (old =? 0) then scoutfs_buddy_was_free sbi0 old 0 else Ok 0)
    as [ret|e| |] eqn:Hwf.
  2: exfalso; exact (map_writable_out_fails _ _ _ _ (Err e : res Z) _ _ H).
  2: exfalso; exact (map_writable_out_fails _ _ _ _ (Bug : res Z) _ _ H).
  2: exfalso; exact (map_writable_out_fails _ _ _ _ (Spin : res Z) _ _ H).
  destruct (ret >? 0) eqn:Hret.
  - (* the block of the item was free in stable *)
    injection H as <- <-.
    destruct (Z.eqb_spec old 0) as [Hz|Hnz]; cbn [negb] in Hwf.
    { injection Hwf as <-. discriminate. }
    apply Z.gtb_lt in Hret.
    destruct (was_free_values _ _ _ _ Hwf) as [->| ->]; [lia|].
    destruct Hinv as [(_ & -> & Hk)|(_ & _ & -> & _)].
    + refine (conj eq_refl (conj eq_refl (conj _ (conj Hnz (conj Hwf _))))).
      * exists bmap. auto.
      * eapply Hsecond; eauto.
    + exfalso. apply Hnz. apply aget_replicate_0.
  - (* a new block *)
    destruct (alloc_file_block sbi0) as [ra sbi2] eqn:Ha.
    destruct ra as [new_blkno|e| |].
    2: exfalso; exact (map_writable_out_fails _ _ _ _ (Err e : res Z) _ _ H).
    2: exfalso; exact (map_writable_out_fails _ _ _ _ (Bug : res Z) _ _ H).
    2: exfalso; exact (map_writable_out_fails _ _ _ _ (Spin : res Z) _ _ H).
    pose proof (alloc_file_block_frame _ _ _ Ha) as Hfr.
    apply same_but_alloc_fields in Hfr.
    destruct Hfr as (Hsa & Hsb & Hsc & _ & _ & Hsu & _).
    assert (Hfresh : new_blkno <> 0 /\ scoutfs_buddy_was_free sbi0 new_blkno 0 = Ok 1).
    { eapply alloc_file_block_fresh; eauto; try congruence.
      unfold reservoir_fresh. rewrite H0e, H0f.
      erewrite was_free_same; eauto. }
    destruct Hfresh as [Hnew Hnewfree].
    destruct (if negb (old =? 0) then scoutfs_buddy_free sbi2 old 0 else (Ok tt, sbi2))
      as [rf sbi3] eqn:Hfree.
    assert (Hfr3 : same_but_dirty sbi2 sbi3).
    { destruct (negb (old =? 0)).
      - eapply scoutfs_buddy_free_frame; eauto.
      - injection Hfree as _ <-. auto with frame. }
    apply same_but_dirty_fields in Hfr3.
    destruct Hfr3 as (Hta & Htb & Htc & _ & _ & _ & _ & Htu & _).
    destruct rf as [[]|e| |].
    2: exfalso; exact (map_writable_out_fails _ _ _ _ (Err e : res unit) _ _ H).
    2: exfalso; exact (map_writable_out_fails _ _ _ _ (Bug : res unit) _ _ H).
    2: exfalso; exact (map_writable_out_fails _ _ _ _ (Spin : res unit) _ _ H).
    injection H as <- <-.
    assert (Hi : (Z.to_nat i < length bmap)%nat).
    { rewrite Hbl. pose proof (bmap_index_range iblock Hf) as Hr. fold i in Hr. lia. }
    assert (Hw1 : scoutfs_buddy_was_free
                    (with_btree sbi3 (<[key := aset bmap i new_blkno]> (btree sbi3)))
                    new_blkno 0 = Ok 1).
    { rewrite <- Hnewfree. apply was_free_same; cbn [super stable_super stable with_btree];
        congruence. }
    cbn [stable stable_super with_btree].
    refine (conj _ (conj _ (conj _ (conj Hnew (conj Hw1 _))))); try congruence.
    + exists (aset bmap i new_blkno). cbn [btree with_btree].
      rewrite lookup_insert_eq. split; [reflexivity|]. apply aget_aset_eq, Hi.
    + eapply Hsecond; eauto.
      * cbn [btree_update_err with_btree]. congruence.
      * cbn [btree with_btree]. apply lookup_insert_eq.
      * apply aget_aset_eq, Hi.
Qed.

End Properties.

(** * The round trip of allocations and frees *)

Section RoundTrip.
Context `{fmt : format}.

(** ** Free blocks of a buddy block *)

(** the block at order 0 bit [x] is free: a bit of some order over it
    is set *)
Definition freeb (bud : scoutfs_buddy_block) (x : Z) : bool :=
  test_buddy_bit_or_higher bud 0 x.

Lemma freeb_spec bud x :
  freeb bud x = true <->
  exists j, 0 <= j < SCOUTFS_BUDDY_ORDERS /\ test_buddy_bit bud j (Z.shiftr x j) = true.
Proof.
  unfold freeb. rewrite test_buddy_bit_or_higher_spec. split.
  - intros (j & Hj & H). exists j. rewrite Z.sub_0_r in H. auto.
  - intros (j & Hj & H). exists j. rewrite Z.sub_0_r. auto.
Qed.

Lemma or_higher_step bud k n :
  0 <= k < SCOUTFS_BUDDY_ORDERS ->
  test_buddy_bit_or_higher bud k n
  = test_buddy_bit bud k n || test_buddy_bit_or_higher bud (k + 1) (Z.shiftr n 1).
Proof.
  intros Hk. unfold test_buddy_bit_or_higher.
  replace (Z.to_nat (SCOUTFS_BUDDY_ORDERS - k))
    with (S (Z.to_nat (SCOUTFS_BUDDY_ORDERS - (k + 1)))) by lia.
  cbn [test_buddy_bit_or_higher_from]. destruct (test_buddy_bit bud k n); reflexivity.
Qed.

Lemma same_parent a b :
  0 <= a -> 0 <= b -> Z.shiftr a 1 = Z.shiftr b 1 -> a = b \/ a = Z.lxor b 1.
Proof.
  intros Ha Hb. rewrite !Z.shiftr_div_pow2 by lia. change (2 ^ 1) with 2.
  rewrite (lxor_1 b) by lia.
  intros H. destruct (Z.even b) eqn:E.
  - apply Z.even_spec in E. destruct E as [c ->].
    rewrite (Z.mul_comm 2 c), Z.div_mul in H by lia.
    pose proof (Z.div_mod a 2 ltac:(lia)). pose proof (Z.mod_pos_bound a 2 ltac:(lia)). lia.
  - assert (Ho : Z.odd b = true) by (rewrite <- Z.negb_even, E; reflexivity).
    apply Z.odd_spec in Ho. destruct Ho as [c ->].
    replace (2 * c + 1) with (1 + c * 2) in H by lia.
    rewrite Z.div_add in H by lia. change (1 / 2) with 0 in H.
    pose proof (Z.div_mod a 2 ltac:(lia)). pose proof (Z.mod_pos_bound a 2 ltac:(lia)). lia.
Qed.


(** the bits of a buddy block are in order: only bits of the order
    bitmaps are set, a block lies under at most one set bit (no bit is
    set over or under a set bit), and no two buddies are both set, as
    [buddy_free] would have merged them *)
Definition wf_bits (bud : scoutfs_buddy_block) : Prop :=
  (forall p, 0 <= p -> Z.testbit (bits bud) p = true ->
     exists k n, valid_bit k n /\ p = order_nr k n) /\
  (forall x k k', 0 <= x < SCOUTFS_BUDDY_ORDER0_BITS ->
     0 <= k < SCOUTFS_BUDDY_ORDERS -> 0 <= k' < SCOUTFS_BUDDY_ORDERS ->
     test_buddy_bit bud k (Z.shiftr x k) = true ->
     test_buddy_bit bud k' (Z.shiftr x k') = true -> k = k') /\
  (forall k n, valid_bit k n -> k + 1 < SCOUTFS_BUDDY_ORDERS ->
     test_buddy_bit bud k n = true -> test_buddy_bit bud k (Z.lxor n 1) = false).

(** every block of the region of the bit is free *)
Definition full (bud : scoutfs_buddy_block) (k n : Z) : Prop :=
  forall x, 0 <= x < SCOUTFS_BUDDY_ORDER0_BITS -> Z.shiftr x k = n -> freeb bud x = true.

(** the first block of the region of a valid bit *)
Lemma region_first k n :
  format_ok -> valid_bit k n ->
  0 <= Z.shiftl n k < SCOUTFS_BUDDY_ORDER0_BITS /\ Z.shiftr (Z.shiftl n k) k = n.
Proof.
  intros Hf [Hk Hn]. pose proof (order_bits_exact k Hf Hk) as He.
  rewrite Z.shiftr_shiftl_l, Z.sub_diag by lia. rewrite Z.shiftl_mul_pow2 by lia.
  assert (0 < 2 ^ k) by (apply Z.pow_pos_nonneg; lia).
  split; [nia | reflexivity].
Qed.

Lemma shiftr_above x k j :
  0 <= k <= j -> Z.shiftr x j = Z.shiftr (Z.shiftr x k) (j - k).
Proof. intros H. rewrite Z.shiftr_shiftr by lia. f_equal. lia. Qed.

Lemma bit_full bud k n :
  0 <= k < SCOUTFS_BUDDY_ORDERS -> test_buddy_bit bud k n = true -> full bud k n.
Proof.
  intros Hk Ht x Hx Hs. apply freeb_spec. exists k. split; [exact Hk|]. rewrite Hs. exact Ht.
Qed.

Lemma full_child bud k n c :
  0 <= k -> Z.shiftr c 1 = n -> full bud (k + 1) n -> full bud k c.
Proof.
  intros Hk Hc Hfull x Hx Hs. apply Hfull; [exact Hx|].
  rewrite (shiftr_above x k (k + 1)) by lia. rewrite Hs.
  replace (k + 1 - k) with 1 by lia. exact Hc.
Qed.

Lemma shiftr_double n : 0 <= n -> Z.shiftr (2 * n) 1 = n /\ Z.shiftr (2 * n + 1) 1 = n.
Proof.
  intros Hn. rewrite !Z.shiftr_div_pow2 by lia. change (2 ^ 1) with 2. split.
  - rewrite Z.mul_comm. apply Z.div_mul. lia.
  - rewrite Z.mul_comm, Z.div_add_l by lia. change (1 / 2) with 0. lia.
Qed.

(** a region whose blocks are all free lies under a set bit of its
    order or above *)
Lemma full_or_higher bud :
  format_ok -> wf_bits bud ->
  forall m k n, k = Z.of_nat m -> valid_bit k n -> full bud k n ->
    test_buddy_bit_or_higher bud k n = true.
Proof.
  intros Hf (_ & _ & Hmerged). induction m as [|m IH]; intros k n Hkm Hv Hfull.
  - subst k. destruct Hv as [Hk Hn]. rewrite order_bits_0 in Hn.
    apply (Hfull n Hn). apply Z.shiftr_0_r.
  - destruct Hv as [Hk Hn].
    assert (Hk' : 0 <= k - 1 /\ k - 1 + 1 < SCOUTFS_BUDDY_ORDERS) by lia.
    pose proof (order_bits_half (k - 1) Hf (proj1 Hk') (proj2 Hk')) as Hhalf.
    replace (k - 1 + 1) with k in Hhalf by lia.
    destruct (shiftr_double n (proj1 Hn)) as [He Ho].
    assert (Hv0 : valid_bit (k - 1) (2 * n)) by (split; lia).
    assert (Hv1 : valid_bit (k - 1) (2 * n + 1)) by (split; lia).
    assert (Hf0 : full bud (k - 1) (2 * n)).
    { apply (full_child bud (k - 1) n); [lia | exact He|].
      replace (k - 1 + 1) with k by lia. exact Hfull. }
    assert (Hf1 : full bud (k - 1) (2 * n + 1)).
    { apply (full_child bud (k - 1) n); [lia | exact Ho|].
      replace (k - 1 + 1) with k by lia. exact Hfull. }
    pose proof (IH (k - 1) (2 * n) ltac:(lia) Hv0 Hf0) as H0.
    pose proof (IH (k - 1) (2 * n + 1) ltac:(lia) Hv1 Hf1) as H1.
    rewrite or_higher_step in H0, H1 by lia.
    replace (k - 1 + 1) with k in H0, H1 by lia. rewrite He in H0. rewrite Ho in H1.
    destruct (test_buddy_bit_or_higher bud k n); [reflexivity|].
    rewrite orb_false_r in H0, H1.
    pose proof (Hmerged (k - 1) (2 * n) Hv0 ltac:(lia) H0) as Hb.
    rewrite lxor_1 in Hb by lia.
    replace (Z.even (2 * n)) with true in Hb
      by (symmetry; apply Z.even_spec; exists n; reflexivity).
    congruence.
Qed.

(** in a buddy block in order, the bit of a region is set exactly when
    all blocks of the region are free and not all blocks of the region
    above it *)
Lemma bit_by_free bud k n :
  format_ok -> wf_bits bud -> valid_bit k n ->
  test_buddy_bit bud k n = true <->
  full bud k n /\ (k + 1 < SCOUTFS_BUDDY_ORDERS -> ~ full bud (k + 1) (Z.shiftr n 1)).
Proof.
  intros Hf Hwf Hv. pose proof Hwf as (_ & Huniq & _).
  destruct (region_first k n Hf Hv) as [Hx Hxs]. pose proof Hv as [Hk Hn].
  split.
  - intros Ht. split; [apply bit_full; assumption|].
    intros Hk1 Hup.
    apply (full_or_higher bud Hf Hwf (Z.to_nat (k + 1))) in Hup;
      [|lia | apply valid_bit_parent; auto].
    apply test_buddy_bit_or_higher_spec in Hup. destruct Hup as (j & Hj & Hb).
    rewrite Z.shiftr_shiftr in Hb by lia.
    assert (Hkj : k = j).
    { apply (Huniq (Z.shiftl n k) k j Hx Hk ltac:(lia)).
      - rewrite Hxs. exact Ht.
      - rewrite (shiftr_above _ k j) by lia. rewrite Hxs.
        replace (j - k) with (1 + (j - (k + 1))) by lia. exact Hb. }
    lia.
  - intros [Hfull Hnot].
    apply (full_or_higher bud Hf Hwf (Z.to_nat k)) in Hfull; [|lia | exact Hv].
    apply test_buddy_bit_or_higher_spec in Hfull. destruct Hfull as (j & Hj & Hb).
    destruct (Z.eq_dec j k) as [->|Hne].
    { rewrite Z.sub_diag, Z.shiftr_0_r in Hb. exact Hb. }
    exfalso. apply Hnot; [lia|].
    intros x Hxr Hxs'. apply freeb_spec. exists j. split; [lia|].
    rewrite (shiftr_above x (k + 1) j) by lia. rewrite Hxs'.
    rewrite Z.shiftr_shiftr by lia.
    replace (1 + (j - (k + 1))) with (j - k) by lia. exact Hb.
Qed.

(** two buddy blocks in order with the same free blocks have the same
    bits *)
Lemma wf_bits_unique b1 b2 :
  format_ok -> wf_bits b1 -> wf_bits b2 ->
  (forall x, 0 <= x < SCOUTFS_BUDDY_ORDER0_BITS -> freeb b1 x = freeb b2 x) ->
  bits b1 = bits b2.
Proof.
  intros Hf H1 H2 Hfree.
  assert (Hfull : forall b b', (forall x, 0 <= x < SCOUTFS_BUDDY_ORDER0_BITS ->
                    freeb b x = freeb b' x) -> forall k n, full b k n -> full b' k n).
  { intros b b' He k n Hfu x Hx Hs. rewrite <- He by exact Hx. apply Hfu; assumption. }
  assert (Hone : forall b b', wf_bits b -> wf_bits b' ->
            (forall x, 0 <= x < SCOUTFS_BUDDY_ORDER0_BITS -> freeb b x = freeb b' x) ->
            forall p, 0 <= p -> Z.testbit (bits b) p = true -> Z.testbit (bits b') p = true).
  { intros b b' Hb Hb' He p Hp Ht. pose proof Hb as (Hvalid & _).
    destruct (Hvalid p Hp Ht) as (k & n & Hv & ->).
    change (test_buddy_bit b' k n = true). change (test_buddy_bit b k n = true) in Ht.
    apply (bit_by_free b k n Hf Hb Hv) in Ht. destruct Ht as [Hfu Hnot].
    apply (bit_by_free b' k n Hf Hb' Hv). split.
    - eapply Hfull; eauto.
    - intros Hk1 Hup. apply (Hnot Hk1). eapply Hfull; [|exact Hup].
      intros x Hx. symmetry. apply He. exact Hx. }
  apply Z.bits_inj'. intros p Hp.
  destruct (Z.testbit (bits b1) p) eqn:E1, (Z.testbit (bits b2) p) eqn:E2; try reflexivity.
  - rewrite (Hone b1 b2 H1 H2 Hfree p Hp E1) in E2. discriminate.
  - rewrite (Hone b2 b1 H2 H1 (fun x Hx => eq_sym (Hfree x Hx)) p Hp E2) in E1. discriminate.
Qed.

(** ** Setting and clearing one bit *)

Lemma test_after_set bud bud' k m j q :
  format_ok -> valid_bit k m -> valid_bit j q ->
  bits bud' = Z.setbit (bits bud) (order_nr k m) ->
  test_buddy_bit bud' j q = ((j =? k) && (q =? m)) || test_buddy_bit bud j q.
Proof.
  intros Hf Hv Hv' Hb. unfold test_buddy_bit, test_bit_le. rewrite Hb.
  rewrite Z.setbit_eqb by (apply order_nr_nonneg; auto). f_equal.
  destruct (Z.eqb_spec (order_nr k m) (order_nr j q)) as [Heq|Hne].
  - apply order_nr_inj in Heq; auto. destruct Heq as [-> ->].
    rewrite !Z.eqb_refl. reflexivity.
  - destruct (Z.eqb_spec j k) as [->|]; [|reflexivity].
    destruct (Z.eqb_spec q m) as [->|]; [|reflexivity]. contradiction.
Qed.

Lemma test_after_clear bud bud' k m j q :
  format_ok -> valid_bit k m -> valid_bit j q ->
  bits bud' = Z.clearbit (bits bud) (order_nr k m) ->
  test_buddy_bit bud' j q = test_buddy_bit bud j q && negb ((j =? k) && (q =? m)).
Proof.
  intros Hf Hv Hv' Hb. unfold test_buddy_bit, test_bit_le. rewrite Hb.
  rewrite Z.clearbit_eqb. f_equal. f_equal.
  destruct (Z.eqb_spec (order_nr k m) (order_nr j q)) as [Heq|Hne].
  - apply order_nr_inj in Heq; auto. destruct Heq as [-> ->].
    rewrite !Z.eqb_refl. reflexivity.
  - destruct (Z.eqb_spec j k) as [->|]; [|reflexivity].
    destruct (Z.eqb_spec q m) as [->|]; [|reflexivity]. contradiction.
Qed.

Lemma bool_eq_iff (a b : bool) : (a = true <-> b = true) -> a = b.
Proof. destruct a, b; intros [H1 H2]; auto; try (symmetry; auto). Qed.

(** clearing a set bit takes the blocks of its region from the free
    blocks and keeps the bits in order *)
Lemma clear_bit_wf bud bud' k m :
  format_ok -> wf_bits bud -> valid_bit k m -> test_buddy_bit bud k m = true ->
  bits bud' = Z.clearbit (bits bud) (order_nr k m) ->
  wf_bits bud' /\
  forall x, 0 <= x < SCOUTFS_BUDDY_ORDER0_BITS ->
    freeb bud' x = freeb bud x && negb (Z.shiftr x k =? m).
Proof.
  intros Hf (Hvalid & Huniq & Hmerged) Hv Ht Hb.
  assert (Hsub : forall j q, valid_bit j q -> test_buddy_bit bud' j q = true ->
                   test_buddy_bit bud j q = true /\ ~ (j = k /\ q = m)).
  { intros j q Hjq H. rewrite (test_after_clear bud bud' k m j q Hf Hv Hjq Hb) in H.
    apply andb_prop in H. destruct H as [H1 H2]. split; [exact H1|].
    intros [-> ->]. rewrite !Z.eqb_refl in H2. discriminate. }
  split; [split; [|split]|].
  - intros p Hp H. apply Hvalid; [exact Hp|]. rewrite Hb, Z.clearbit_eqb in H.
    apply andb_prop in H. tauto.
  - intros x j j' Hx Hj Hj' H1 H2.
    apply Hsub in H1; [|apply valid_bit_shift; auto].
    apply Hsub in H2; [|apply valid_bit_shift; auto].
    exact (Huniq x j j' Hx Hj Hj' (proj1 H1) (proj1 H2)).
  - intros j q Hjq Hj1 H.
    assert (Hvb : valid_bit j (Z.lxor q 1)) by (apply valid_bit_buddy; auto).
    rewrite (test_after_clear bud bud' k m j _ Hf Hv Hvb Hb).
    apply Hsub in H; [|exact Hjq]. rewrite (Hmerged j q Hjq Hj1 (proj1 H)). reflexivity.
  - intros x Hx. apply bool_eq_iff. rewrite andb_true_iff, negb_true_iff, !freeb_spec. split.
    + intros (j & Hj & H). apply Hsub in H; [|apply valid_bit_shift; auto].
      destruct H as [H Hne]. split; [eauto|].
      destruct (Z.eqb_spec (Z.shiftr x k) m) as [Hs|]; [|reflexivity]. exfalso.
      assert (Hjk : j = k); [|subst j; apply Hne; split; [reflexivity | exact Hs]].
      apply (Huniq x j k Hx Hj (proj1 Hv) H). rewrite Hs. exact Ht.
    + intros [(j & Hj & H) Hne]. exists j. split; [exact Hj|].
      rewrite (test_after_clear bud bud' k m j _ Hf Hv (valid_bit_shift j x Hf Hj Hx) Hb).
      rewrite H. cbn [andb]. apply negb_true_iff.
      destruct (Z.eqb_spec j k) as [->|]; [|reflexivity]. rewrite Hne. reflexivity.
Qed.

(** setting the bit of a region with no free block, whose buddy is not
    set, adds the blocks of the region to the free blocks and keeps the
    bits in order *)
Lemma set_bit_wf bud bud' k m :
  format_ok -> wf_bits bud -> valid_bit k m ->
  (forall x, 0 <= x < SCOUTFS_BUDDY_ORDER0_BITS -> Z.shiftr x k = m -> freeb bud x = false) ->
  (k + 1 < SCOUTFS_BUDDY_ORDERS -> test_buddy_bit bud k (Z.lxor m 1) = false) ->
  bits bud' = Z.setbit (bits bud) (order_nr k m) ->
  wf_bits bud' /\
  forall x, 0 <= x < SCOUTFS_BUDDY_ORDER0_BITS ->
    freeb bud' x = freeb bud x || (Z.shiftr x k =? m).
Proof.
  intros Hf (Hvalid & Huniq & Hmerged) Hv Hnone Hbuddy Hb.
  assert (Hnew : forall j q, valid_bit j q -> test_buddy_bit bud' j q = true ->
                   (j = k /\ q = m) \/ test_buddy_bit bud j q = true).
  { intros j q Hjq H. rewrite (test_after_set bud bud' k m j q Hf Hv Hjq Hb) in H.
    apply orb_prop in H. destruct H as [H|H]; [left|right; exact H].
    apply andb_prop in H. destruct H as [H1 H2]. split; lia. }
  assert (Hcover : forall x j, 0 <= x < SCOUTFS_BUDDY_ORDER0_BITS ->
                     0 <= j < SCOUTFS_BUDDY_ORDERS -> Z.shiftr x k = m ->
                     test_buddy_bit bud' j (Z.shiftr x j) = true -> j = k).
  { intros x j Hx Hj Hs H. apply Hnew in H; [|apply valid_bit_shift; auto].
    destruct H as [[-> _]|H]; [reflexivity|]. exfalso.
    assert (Hfr : freeb bud x = true) by (apply freeb_spec; eauto).
    rewrite (Hnone x Hx Hs) in Hfr. discriminate. }
  assert (Hold : forall x j, 0 <= x < SCOUTFS_BUDDY_ORDER0_BITS ->
                   0 <= j < SCOUTFS_BUDDY_ORDERS -> Z.shiftr x k <> m ->
                   test_buddy_bit bud' j (Z.shiftr x j) = true ->
                   test_buddy_bit bud j (Z.shiftr x j) = true).
  { intros x j Hx Hj Hs H. apply Hnew in H; [|apply valid_bit_shift; auto].
    destruct H as [[-> Hq]|H]; [contradiction | exact H]. }
  split; [split; [|split]|].
  - intros p Hp H. rewrite Hb, Z.setbit_eqb in H by (apply order_nr_nonneg; auto).
    apply orb_prop in H. destruct H as [H|H]; [|apply Hvalid; auto].
    exists k, m. split; [exact Hv | lia].
  - intros x j j' Hx Hj Hj' H1 H2.
    destruct (Z.eq_dec (Z.shiftr x k) m) as [Hs|Hs].
    + rewrite (Hcover x j Hx Hj Hs H1), (Hcover x j' Hx Hj' Hs H2). reflexivity.
    + eapply Huniq; eauto.
  - intros j q Hjq Hj1 H.
    assert (Hvb : valid_bit j (Z.lxor q 1)) by (apply valid_bit_buddy; auto).
    destruct (test_buddy_bit bud' j (Z.lxor q 1)) eqn:Hbb; [exfalso|reflexivity].
    apply Hnew in H; [|exact Hjq]. apply Hnew in Hbb; [|exact Hvb].
    pose proof Hjq as [_ Hq].
    destruct H as [[-> ->]|H], Hbb as [[Hjk Hx]|Hbb].
    + apply (lxor_1_neq m); [lia | exact Hx].
    + rewrite Hbuddy in Hbb by exact Hj1. discriminate.
    + rewrite Hjk in *. rewrite <- Hx, lxor_1_twice in Hbuddy.
      rewrite Hbuddy in H by exact Hj1. discriminate.
    + rewrite (Hmerged j q Hjq Hj1 H) in Hbb. discriminate.
  - intros x Hx. apply bool_eq_iff. rewrite orb_true_iff, !freeb_spec. split.
    + intros (j & Hj & H).
      destruct (Z.eqb_spec (Z.shiftr x k) m) as [Hs|Hs]; [right; reflexivity|left].
      exists j. split; [exact Hj|]. apply Hold; auto.
    + intros [(j & Hj & H)|Hs].
      * exists j. split; [exact Hj|].
        rewrite (test_after_set bud bud' k m j _ Hf Hv (valid_bit_shift j x Hf Hj Hx) Hb).
        rewrite H. apply orb_true_r.
      * exists k. split; [exact (proj1 Hv)|].
        rewrite (test_after_set bud bud' k m k _ Hf Hv (valid_bit_shift k x Hf (proj1 Hv) Hx) Hb).
        rewrite Z.eqb_refl, Hs. reflexivity.
Qed.

(** ** Counting the bits *)

(** the number of set bits among the [n] bits of [b] from [off] *)
Fixpoint popcount (n : nat) (b off : Z) : Z :=
  match n with
  | O => 0
  | S n' => Z.b2z (Z.testbit b off) + popcount n' b (off + 1)
  end.

(** the number of set bits of the bitmap of an order *)
Definition pop (bud : scoutfs_buddy_block) (k : Z) : Z :=
  popcount (Z.to_nat (order_bits k)) (bits bud) (order_off k).

Lemma popcount_ext n b b' : forall off,
  (forall i, 0 <= i < Z.of_nat n -> Z.testbit b (off + i) = Z.testbit b' (off + i)) ->
  popcount n b off = popcount n b' off.
Proof.
  induction n as [|n IH]; intros off H; cbn [popcount]; [reflexivity|].
  pose proof (H 0 ltac:(lia)) as H0. rewrite Z.add_0_r in H0. rewrite H0.
  rewrite (IH (off + 1)); [reflexivity|]. intros i Hi.
  replace (off + 1 + i) with (off + (i + 1)) by lia. apply H. lia.
Qed.

Lemma popcount_flip n b b' : forall off i,
  0 <= i < Z.of_nat n ->
  Z.testbit b (off + i) = false -> Z.testbit b' (off + i) = true ->
  (forall i', 0 <= i' < Z.of_nat n -> i' <> i ->
     Z.testbit b (off + i') = Z.testbit b' (off + i')) ->
  popcount n b' off = popcount n b off + 1.
Proof.
  induction n as [|n IH]; intros off i Hi Hb Hb' Ho; [lia|]. cbn [popcount].
  destruct (Z.eq_dec i 0) as [->|Hne].
  - rewrite Z.add_0_r in Hb, Hb'. rewrite Hb, Hb'. cbn [Z.b2z].
    rewrite (popcount_ext n b b' (off + 1)); [lia|]. intros i' Hi'.
    replace (off + 1 + i') with (off + (i' + 1)) by lia. apply Ho; lia.
  - pose proof (Ho 0 ltac:(lia) ltac:(lia)) as H0. rewrite Z.add_0_r in H0. rewrite <- H0.
    rewrite (IH (off + 1) (i - 1)); [lia | lia | | |].
    + replace (off + 1 + (i - 1)) with (off + i) by lia. exact Hb.
    + replace (off + 1 + (i - 1)) with (off + i) by lia. exact Hb'.
    + intros i' Hi' Hne'. replace (off + 1 + i') with (off + (i' + 1)) by lia.
      apply Ho; lia.
Qed.

(** the position of a valid bit of another order is outside the bitmap
    of the order *)
Lemma order_nr_other k m j i :
  format_ok -> valid_bit k m -> 0 <= j < SCOUTFS_BUDDY_ORDERS -> j <> k ->
  0 <= i < order_bits j -> order_off j + i <> order_nr k m.
Proof.
  intros Hf Hv Hj Hne Hi. rewrite order_nr_valid by auto. destruct Hv as [Hk Hm].
  destruct (Z.lt_total j k) as [Hlt|[Heq|Hgt]]; [|contradiction|].
  - pose proof (order_off_mono j k Hf ltac:(lia) ltac:(lia)). lia.
  - pose proof (order_off_mono k j Hf ltac:(lia) ltac:(lia)). lia.
Qed.

Lemma pop_set bud bud' k m j :
  format_ok -> valid_bit k m -> 0 <= j < SCOUTFS_BUDDY_ORDERS ->
  test_buddy_bit bud k m = false ->
  bits bud' = Z.setbit (bits bud) (order_nr k m) ->
  pop bud' j = pop bud j + (if j =? k then 1 else 0).
Proof.
  intros Hf Hv Hj Ht Hb. unfold pop. rewrite Hb.
  pose proof (order_nr_nonneg k m Hf Hv) as Hp.
  pose proof (order_bits_pos j Hf Hj) as Hbits.
  destruct (Z.eqb_spec j k) as [->|Hne].
  - apply (popcount_flip _ _ _ _ m).
    + destruct Hv. lia.
    + rewrite <- order_nr_valid by auto. exact Ht.
    + rewrite <- order_nr_valid by auto. rewrite Z.setbit_eqb, Z.eqb_refl by exact Hp.
      reflexivity.
    + intros i' Hi' Hne. rewrite Z.setbit_eqb by exact Hp.
      rewrite order_nr_valid by auto.
      destruct (Z.eqb_spec (order_off k + m) (order_off k + i')); [lia | reflexivity].
  - rewrite Z.add_0_r. symmetry. apply popcount_ext. intros i Hi.
    rewrite Z.setbit_eqb by exact Hp.
    destruct (Z.eqb_spec (order_nr k m) (order_off j + i)) as [Heq|]; [|reflexivity].
    exfalso. eapply (order_nr_other k m j i); eauto. lia.
Qed.

Lemma pop_clear bud bud' k m j :
  format_ok -> valid_bit k m -> 0 <= j < SCOUTFS_BUDDY_ORDERS ->
  test_buddy_bit bud k m = true ->
  bits bud' = Z.clearbit (bits bud) (order_nr k m) ->
  pop bud' j = pop bud j - (if j =? k then 1 else 0).
Proof.
  intros Hf Hv Hj Ht Hb.
  assert (Hback : bits bud = Z.setbit (bits bud') (order_nr k m)).
  { rewrite Hb. apply Z.bits_inj'. intros p Hp.
    rewrite Z.setbit_eqb, Z.clearbit_eqb by (apply order_nr_nonneg; auto).
    destruct (Z.eqb_spec (order_nr k m) p) as [<-|]; cbn [negb orb].
    - exact Ht.
    - rewrite andb_true_r. reflexivity. }
  assert (Hc : test_buddy_bit bud' k m = false).
  { unfold test_buddy_bit, test_bit_le. rewrite Hb, Z.clearbit_eqb, Z.eqb_refl.
    apply andb_false_r. }
  rewrite (pop_set bud' bud k m j Hf Hv Hj Hc Hback). lia.
Qed.

(** the counts of a buddy block and the totals of the indirect block
    follow the bits: [order_counts] has the number of set bits of each
    order, and [order_totals] has [base] more, the count of the other
    slots *)
Definition acct (base : Z -> Z) (ind : scoutfs_buddy_indirect) (bud : scoutfs_buddy_block)
    : Prop :=
  length (order_totals ind) = Z.to_nat SCOUTFS_BUDDY_ORDERS /\
  length (order_counts bud) = Z.to_nat SCOUTFS_BUDDY_ORDERS /\
  forall j, 0 <= j < SCOUTFS_BUDDY_ORDERS ->
    aget 0 (order_counts bud) j = u32 (pop bud j) /\
    aget 0 (order_totals ind) j = u64 (base j + pop bud j).

Lemma u32_add a d : u32 (u32 a + d) = u32 (a + d).
Proof. unfold u32. apply Zplus_mod_idemp_l. Qed.

Lemma u64_add a d : u64 (u64 a + d) = u64 (a + d).
Proof. unfold u64. apply Zplus_mod_idemp_l. Qed.

Lemma acct_step base ind bud bits' k d :
  format_ok -> 0 <= k < SCOUTFS_BUDDY_ORDERS -> acct base ind bud ->
  (forall j, 0 <= j < SCOUTFS_BUDDY_ORDERS ->
     pop {| bits := bits'; order_counts := add_count (order_counts bud) k d |} j
     = pop bud j + (if j =? k then d else 0)) ->
  acct base (add_total ind k d)
    {| bits := bits'; order_counts := add_count (order_counts bud) k d |}.
Proof.
  intros Hf Hk (Hlt & Hlc & Hacc) Hpop. unfold acct.
  split; [unfold add_total; cbn [order_totals]; rewrite length_aset; exact Hlt|].
  split; [cbn [order_counts]; unfold add_count; rewrite length_aset; exact Hlc|].
  intros j Hj.
  rewrite (Hpop j Hj). destruct (Hacc k Hk) as [Hck Htk]. destruct (Hacc j Hj) as [Hcj Htj].
  unfold add_total, add_count. cbn [order_totals order_counts].
  destruct (Z.eqb_spec j k) as [->|Hne].
  - rewrite !aget_aset_eq by lia. rewrite Hck, Htk, u32_add, u64_add.
    split; f_equal; lia.
  - rewrite !aget_aset_ne by lia. rewrite Z.add_0_r. auto.
Qed.

Lemma set_acct base ind bud k m :
  format_ok -> valid_bit k m -> acct base ind bud ->
  acct base (fst (set_buddy_bit ind bud k m)) (snd (set_buddy_bit ind bud k m)).
Proof.
  intros Hf Hv Hacc. unfold set_buddy_bit, test_bit_le, set_bit_le.
  destruct (Z.testbit (bits bud) (order_nr k m)) eqn:Ht; cbn [fst snd]; [exact Hacc|].
  apply acct_step; auto; [exact (proj1 Hv)|].
  intros j Hj. apply (pop_set bud _ k m j Hf Hv Hj Ht). reflexivity.
Qed.

Lemma clear_acct base ind bud k m :
  format_ok -> valid_bit k m -> acct base ind bud ->
  acct base (fst (clear_buddy_bit ind bud k m)) (snd (clear_buddy_bit ind bud k m)).
Proof.
  intros Hf Hv Hacc. unfold clear_buddy_bit, test_bit_le, clear_bit_le.
  destruct (Z.testbit (bits bud) (order_nr k m)) eqn:Ht; cbn [fst snd]; [|exact Hacc].
  apply acct_step; auto; [exact (proj1 Hv)|].
  intros j Hj.
  rewrite (pop_clear bud _ k m j Hf Hv Hj Ht); [|reflexivity].
  destruct (j =? k); lia.
Qed.

(** a buddy block in order, with its counts and totals *)
Definition good (base : Z -> Z) (ind : scoutfs_buddy_indirect) (bud : scoutfs_buddy_block)
    : Prop :=
  wf_bits bud /\ acct base ind bud.

Lemma set_good base ind bud k m :
  format_ok -> good base ind bud -> valid_bit k m ->
  (forall x, 0 <= x < SCOUTFS_BUDDY_ORDER0_BITS -> Z.shiftr x k = m -> freeb bud x = false) ->
  (k + 1 < SCOUTFS_BUDDY_ORDERS -> test_buddy_bit bud k (Z.lxor m 1) = false) ->
  good base (fst (set_buddy_bit ind bud k m)) (snd (set_buddy_bit ind bud k m)) /\
  forall x, 0 <= x < SCOUTFS_BUDDY_ORDER0_BITS ->
    freeb (snd (set_buddy_bit ind bud k m)) x = freeb bud x || (Z.shiftr x k =? m).
Proof.
  intros Hf [Hwf Hacc] Hv Hnone Hbuddy.
  pose proof (set_buddy_bit_bits ind bud k m (order_nr_nonneg k m Hf Hv)) as Hb.
  destruct (set_bit_wf bud _ k m Hf Hwf Hv Hnone Hbuddy Hb) as [Hwf' Hfree].
  split; [split; [exact Hwf' | apply set_acct; auto] | exact Hfree].
Qed.

Lemma clear_good base ind bud k m :
  format_ok -> good base ind bud -> valid_bit k m -> test_buddy_bit bud k m = true ->
  good base (fst (clear_buddy_bit ind bud k m)) (snd (clear_buddy_bit ind bud k m)) /\
  forall x, 0 <= x < SCOUTFS_BUDDY_ORDER0_BITS ->
    freeb (snd (clear_buddy_bit ind bud k m)) x = freeb bud x && negb (Z.shiftr x k =? m).
Proof.
  intros Hf [Hwf Hacc] Hv Ht.
  pose proof (clear_buddy_bit_bits ind bud k m (order_nr_nonneg k m Hf Hv)) as Hb.
  destruct (clear_bit_wf bud _ k m Hf Hwf Hv Ht Hb) as [Hwf' Hfree].
  split; [split; [exact Hwf' | apply clear_acct; auto] | exact Hfree].
Qed.

(** ** Taking a region from a free region, and giving it back *)

Lemma not_free_bit_clear bud k m :
  format_ok -> valid_bit k m ->
  (forall x, 0 <= x < SCOUTFS_BUDDY_ORDER0_BITS -> Z.shiftr x k = m -> freeb bud x = false) ->
  test_buddy_bit bud k m = false.
Proof.
  intros Hf Hv Hnone. destruct (test_buddy_bit bud k m) eqn:Ht; [|reflexivity].
  destruct (region_first k m Hf Hv) as [Hx Hs].
  rewrite <- (Hnone _ Hx Hs). symmetry. apply (bit_full bud k m (proj1 Hv) Ht _ Hx Hs).
Qed.

Lemma parent_eqb x i nr :
  0 <= x -> 0 <= nr -> 0 <= i ->
  (Z.shiftr x (i + 1) =? Z.shiftr nr 1)
  = (Z.shiftr x i =? nr) || (Z.shiftr x i =? Z.lxor nr 1).
Proof.
  intros Hx Hn Hi. rewrite (shiftr_above x i (i + 1)) by lia.
  replace (i + 1 - i) with 1 by lia.
  assert (Hxi : 0 <= Z.shiftr x i) by (apply Z.shiftr_nonneg; exact Hx).
  apply bool_eq_iff. rewrite orb_true_iff, !Z.eqb_eq. split.
  - intros H. apply same_parent; auto.
  - intros [->| ->]; [reflexivity|]. apply (lxor_1_range nr Hn).
Qed.

Lemma even_lor_1 nr : 0 <= nr -> Z.even nr = true -> Z.lor nr 1 = Z.lxor nr 1.
Proof.
  intros Hn He. apply Z.bits_inj'. intros p Hp.
  rewrite Z.lor_spec, Z.lxor_spec.
  destruct (Z.eq_dec p 0) as [->|Hne].
  - rewrite Z.bit0_odd, <- Z.negb_even, He. reflexivity.
  - replace (Z.testbit 1 p) with false; [destruct (Z.testbit nr p); reflexivity|].
    symmetry. apply (Z.bits_above_log2 1 p); cbn; lia.
Qed.

(** [split_right] sets the right buddies down the left edge of a
    region that has no free block: all of it but the lowest left region
    becomes free *)
Lemma split_right_good base n : forall ind bud i nr,
  format_ok -> good base ind bud ->
  (n <> O -> valid_bit i nr /\ Z.even nr = true /\ i + 1 < SCOUTFS_BUDDY_ORDERS) ->
  0 <= nr -> Z.of_nat n <= i + 1 ->
  (forall x, 0 <= x < SCOUTFS_BUDDY_ORDER0_BITS ->
     Z.shiftr x (i + 1) = Z.shiftr nr 1 -> freeb bud x = false) ->
  good base (fst (split_right n ind bud i nr)) (snd (split_right n ind bud i nr)) /\
  slots (fst (split_right n ind bud i nr)) = slots ind /\
  forall x, 0 <= x < SCOUTFS_BUDDY_ORDER0_BITS ->
    freeb (snd (split_right n ind bud i nr)) x
    = freeb bud x || ((Z.shiftr x (i + 1) =? Z.shiftr nr 1)
                      && negb (Z.shiftr x (i + 1 - Z.of_nat n) =? Z.shiftl nr (Z.of_nat n - 1))).
Proof.
  induction n as [|n IH]; intros ind bud i nr Hf Hgood Hv Hnr Hn Hnone.
  - cbn [split_right fst snd]. split; [exact Hgood|]. split; [reflexivity|].
    intros x Hx. change (Z.of_nat 0 - 1) with (- (1)). rewrite Z.sub_0_r.
    change (Z.shiftl nr (- (1))) with (Z.shiftr nr 1).
    rewrite andb_negb_r, orb_false_r. reflexivity.
  - destruct (Hv ltac:(discriminate)) as (Hvi & Heven & Hi1).
    pose proof Hvi as [Hi Hnri].
    assert (Hlor : Z.lor nr 1 = Z.lxor nr 1) by (apply even_lor_1; auto).
    assert (Hvb : valid_bit i (Z.lor nr 1)) by (rewrite Hlor; apply valid_bit_buddy; auto).
    assert (Hb1 : forall x, 0 <= x < SCOUTFS_BUDDY_ORDER0_BITS ->
                    Z.shiftr x i = Z.lor nr 1 -> freeb bud x = false).
    { intros x Hx Hs. apply Hnone; [exact Hx|].
      rewrite (shiftr_above x i (i + 1)) by lia. rewrite Hs, Hlor.
      replace (i + 1 - i) with 1 by lia. apply (lxor_1_range nr Hnr). }
    assert (Hb2 : test_buddy_bit bud i (Z.lxor (Z.lor nr 1) 1) = false).
    { rewrite Hlor, lxor_1_twice. apply not_free_bit_clear; auto.
      intros x Hx Hs. apply Hnone; [exact Hx|].
      rewrite (shiftr_above x i (i + 1)) by lia. rewrite Hs. f_equal. lia. }
    destruct (set_good base ind bud i (Z.lor nr 1) Hf Hgood Hvb Hb1 (fun _ => Hb2))
      as [Hgood1 Hfree1].
    pose proof (set_buddy_bit_slots ind bud i (Z.lor nr 1)) as Hslots1.
    cbn [split_right].
    destruct (set_buddy_bit ind bud i (Z.lor nr 1)) as [ind1 bud1].
    cbn [fst snd] in Hgood1, Hfree1, Hslots1.
    assert (Hs32 : s32 (Z.shiftl nr 1) = 2 * nr).
    { rewrite Z.shiftl_mul_pow2 by lia. change (2 ^ 1) with 2.
      pose proof (order_bits_le i Hf Hi).
      assert (2 * SCOUTFS_BUDDY_ORDER0_BITS < 2 ^ 31) by (unfold format_ok in Hf; tauto).
      rewrite s32_small by lia. lia. }
    rewrite Hs32.
    destruct (shiftr_double nr Hnr) as [Hd0 _].
    destruct (IH ind1 bud1 (i - 1) (2 * nr) Hf Hgood1) as (Hgood2 & Hslots2 & Hfree2).
    { intros Hn0. assert (Hi0 : 0 <= i - 1) by (destruct n; [contradiction | lia]).
      split; [split; [lia|]|split; [|lia]].
      - rewrite (order_bits_half (i - 1)) by (auto; lia).
        replace (i - 1 + 1) with i by lia. lia.
      - apply Z.even_spec. exists nr. reflexivity. }
    { lia. }
    { lia. }
    { intros x Hx Hs. replace (i - 1 + 1) with i in Hs by lia. rewrite Hd0 in Hs.
      rewrite Hfree1 by exact Hx. rewrite Hs, Hlor.
      rewrite (Hnone x Hx).
      - cbn [orb]. apply Z.eqb_neq. apply not_eq_sym, lxor_1_neq. exact Hnr.
      - rewrite (shiftr_above x i (i + 1)) by lia. rewrite Hs. f_equal. lia. }
    split; [exact Hgood2|]. split; [congruence|].
    intros x Hx. rewrite Hfree2, Hfree1 by exact Hx.
    replace (i - 1 + 1 - Z.of_nat n) with (i + 1 - Z.of_nat (S n)) by lia.
    replace (i - 1 + 1) with i by lia. rewrite Hd0.
    replace (Z.shiftl (2 * nr) (Z.of_nat n - 1)) with (Z.shiftl nr (Z.of_nat (S n) - 1)).
    2:{ replace (2 * nr) with (Z.shiftl nr 1)
          by (rewrite Z.shiftl_mul_pow2 by lia; change (2 ^ 1) with 2; lia).
        rewrite Z.shiftl_shiftl by lia. f_equal. lia. }
    rewrite (parent_eqb x i nr) by lia. rewrite Hlor.
    set (lo := i + 1 - Z.of_nat (S n)). set (sh := Z.of_nat (S n) - 1).
    destruct (Z.eqb_spec (Z.shiftr x i) (Z.lxor nr 1)) as [Ha|Ha].
    + assert (Hc : (Z.shiftr x lo =? Z.shiftl nr sh) = false).
      { apply Z.eqb_neq. intros Hc.
        assert (Hxi : Z.shiftr x i = nr).
        { rewrite (shiftr_above x lo i) by (subst lo; lia). rewrite Hc.
          rewrite Z.shiftr_shiftl_l by (subst sh; lia).
          replace (sh - (i - lo)) with 0 by (subst sh lo; lia). apply Z.shiftl_0_r. }
        rewrite Hxi in Ha. symmetry in Ha. revert Ha. apply lxor_1_neq. exact Hnr. }
      rewrite Hc. destruct (freeb bud x), (Z.shiftr x i =? nr); reflexivity.
    + rewrite !orb_false_r. reflexivity.
Qed.

(** [merge_buddies] and the final [set_buddy_bit] of [buddy_free] add
    the blocks of a region that has no free block to the free blocks *)
Lemma merge_set_good base n : forall ind bud i nr,
  format_ok -> good base ind bud -> valid_bit i nr ->
  i + Z.of_nat n = SCOUTFS_BUDDY_ORDERS - 1 ->
  (forall x, 0 <= x < SCOUTFS_BUDDY_ORDER0_BITS -> Z.shiftr x i = nr -> freeb bud x = false) ->
  forall ind1 bud1 j nr1, merge_buddies n ind bud i nr = (ind1, bud1, j, nr1) ->
  good base (fst (set_buddy_bit ind1 bud1 j nr1)) (snd (set_buddy_bit ind1 bud1 j nr1)) /\
  slots (fst (set_buddy_bit ind1 bud1 j nr1)) = slots ind /\
  forall x, 0 <= x < SCOUTFS_BUDDY_ORDER0_BITS ->
    freeb (snd (set_buddy_bit ind1 bud1 j nr1)) x = freeb bud x || (Z.shiftr x i =? nr).
Proof.
  induction n as [|n IH]; intros ind bud i nr Hf Hgood Hv Hn Hnone ind1 bud1 j nr1;
    cbn [merge_buddies].
  - intros [= <- <- <- <-].
    destruct (set_good base ind bud i nr Hf Hgood Hv Hnone ltac:(lia)) as [Hg Hfr].
    split; [exact Hg|]. split; [apply set_buddy_bit_slots | exact Hfr].
  - destruct (test_buddy_bit bud i (Z.lxor nr 1)) eqn:Hbuddy; cbn [negb].
    2:{ intros [= <- <- <- <-].
        destruct (set_good base ind bud i nr Hf Hgood Hv Hnone (fun _ => Hbuddy)) as [Hg Hfr].
        split; [exact Hg|]. split; [apply set_buddy_bit_slots | exact Hfr]. }
    pose proof Hv as [Hi Hnr].
    assert (Hvb : valid_bit i (Z.lxor nr 1)) by (apply valid_bit_buddy; auto; lia).
    assert (Hvp : valid_bit (i + 1) (Z.shiftr nr 1)) by (apply valid_bit_parent; auto; lia).
    destruct (clear_good base ind bud i (Z.lxor nr 1) Hf Hgood Hvb Hbuddy) as [Hgood1 Hfree1].
    pose proof (clear_buddy_bit_slots ind bud i (Z.lxor nr 1)) as Hslots1.
    destruct (clear_buddy_bit ind bud i (Z.lxor nr 1)) as [ind2 bud2].
    cbn [fst snd] in Hgood1, Hfree1, Hslots1.
    intros Hm.
    assert (Hnone2 : forall x, 0 <= x < SCOUTFS_BUDDY_ORDER0_BITS ->
                       Z.shiftr x (i + 1) = Z.shiftr nr 1 -> freeb bud2 x = false).
    { intros x Hx Hs. rewrite Hfree1 by exact Hx.
      apply Z.eqb_eq in Hs. rewrite (parent_eqb x i nr) in Hs by lia.
      apply orb_prop in Hs. destruct Hs as [Hs|Hs].
      - apply Z.eqb_eq in Hs. rewrite (Hnone x Hx Hs). reflexivity.
      - rewrite Hs. apply andb_false_r. }
    assert (Hn2 : i + 1 + Z.of_nat n = SCOUTFS_BUDDY_ORDERS - 1) by lia.
    destruct (IH ind2 bud2 (i + 1) (Z.shiftr nr 1) Hf Hgood1 Hvp Hn2 Hnone2 _ _ _ _ Hm)
      as (Hg & Hsl & Hfr).
    split; [exact Hg|]. split; [congruence|].
    intros x Hx. rewrite Hfr, Hfree1 by exact Hx.
    rewrite (parent_eqb x i nr) by lia.
    destruct (Z.eqb_spec (Z.shiftr x i) (Z.lxor nr 1)) as [Ha|Ha].
    + assert (Hfx : freeb bud x = true).
      { apply (bit_full bud i (Z.lxor nr 1) Hi Hbuddy x Hx Ha). }
      rewrite Hfx, !orb_true_r. reflexivity.
    + cbn [negb]. rewrite andb_true_r, orb_false_r. reflexivity.
Qed.

Lemma valid_bit_shiftl k nr g :
  format_ok -> valid_bit k nr -> 0 <= g <= k -> valid_bit g (Z.shiftl nr (k - g)).
Proof.
  intros Hf [Hk Hn] Hg. split; [lia|].
  rewrite Z.shiftl_mul_pow2 by lia.
  pose proof (order_bits_exact k Hf Hk) as Hek.
  pose proof (order_bits_exact g Hf ltac:(lia)) as Heg.
  assert (Hp : 2 ^ k = 2 ^ (k - g) * 2 ^ g).
  { rewrite <- Z.pow_add_r by lia. f_equal. lia. }
  assert (0 < 2 ^ g) by (apply Z.pow_pos_nonneg; lia).
  assert (0 < 2 ^ (k - g)) by (apply Z.pow_pos_nonneg; lia).
  assert (Hog : order_bits g = order_bits k * 2 ^ (k - g)) by nia.
  rewrite Hog. nia.
Qed.

(** what [alloc_slot] does to the buddy block once it has found the bit
    [found, nr]: the bit is cleared and the right buddies down to the
    order are set, which takes the lowest left region of the order from
    the free blocks *)
Lemma take_good base ind bud found nr order :
  format_ok -> good base ind bud -> valid_bit found nr ->
  test_buddy_bit bud found nr = true -> 0 <= order <= found ->
  forall ind1 bud1, clear_buddy_bit ind bud found nr = (ind1, bud1) ->
  forall ind2 bud2,
    split_right (Z.to_nat (found - order)) ind1 bud1 (found - 1) (s32 (Z.shiftl nr 1))
      = (ind2, bud2) ->
  good base ind2 bud2 /\ slots ind2 = slots ind /\
  forall x, 0 <= x < SCOUTFS_BUDDY_ORDER0_BITS ->
    freeb bud2 x = freeb bud x && negb (Z.shiftr x order =? Z.shiftl nr (found - order)).
Proof.
  intros Hf Hgood Hv Ht Ho ind1 bud1 Hc ind2 bud2 Hs.
  destruct (clear_good base ind bud found nr Hf Hgood Hv Ht) as [Hgood1 Hfree1].
  pose proof (clear_buddy_bit_slots ind bud found nr) as Hslots1.
  rewrite Hc in Hgood1, Hfree1, Hslots1. cbn [fst snd] in Hgood1, Hfree1, Hslots1.
  pose proof Hv as [Hk Hn].
  assert (Hs32 : s32 (Z.shiftl nr 1) = 2 * nr).
  { rewrite Z.shiftl_mul_pow2 by lia. change (2 ^ 1) with 2.
    pose proof (order_bits_le found Hf Hk).
    assert (2 * SCOUTFS_BUDDY_ORDER0_BITS < 2 ^ 31) by (unfold format_ok in Hf; tauto).
    rewrite s32_small by lia. lia. }
  rewrite Hs32 in Hs.
  destruct (shiftr_double nr (proj1 Hn)) as [Hd0 _].
  destruct (split_right_good base (Z.to_nat (found - order)) ind1 bud1 (found - 1) (2 * nr)
              Hf Hgood1) as (Hgood2 & Hslots2 & Hfree2).
  { intros Hn0. assert (Hf1 : 1 <= found) by lia.
    split; [split; [lia|]|split; [|lia]].
    - rewrite (order_bits_half (found - 1)) by (auto; lia).
      replace (found - 1 + 1) with found by lia. lia.
    - apply Z.even_spec. exists nr. reflexivity. }
  { lia. }
  { lia. }
  { intros x Hx Hsx. replace (found - 1 + 1) with found in Hsx by lia. rewrite Hd0 in Hsx.
    rewrite Hfree1 by exact Hx. rewrite Hsx, Z.eqb_refl. apply andb_false_r. }
  rewrite Hs in Hgood2, Hslots2, Hfree2. cbn [fst snd] in Hgood2, Hslots2, Hfree2.
  split; [exact Hgood2|]. split; [congruence|].
  intros x Hx. rewrite Hfree2, Hfree1 by exact Hx.
  replace (found - 1 + 1) with found by lia. rewrite Hd0.
  rewrite Z2Nat.id by lia.
  replace (found - (found - order)) with order by lia.
  replace (Z.shiftl (2 * nr) (found - order - 1)) with (Z.shiftl nr (found - order)).
  2:{ replace (2 * nr) with (Z.shiftl nr 1)
        by (rewrite Z.shiftl_mul_pow2 by lia; change (2 ^ 1) with 2; lia).
      rewrite Z.shiftl_shiftl by lia. f_equal. lia. }
  destruct (Z.eqb_spec (Z.shiftr x found) nr) as [HT|HT].
  - rewrite (bit_full bud found nr Hk Ht x Hx HT). cbn [negb andb orb]. reflexivity.
  - assert (HC : (Z.shiftr x order =? Z.shiftl nr (found - order)) = false).
    { apply Z.eqb_neq. intros HC. apply HT.
      rewrite (shiftr_above x order found) by lia. rewrite HC.
      rewrite Z.shiftr_shiftl_l, Z.sub_diag by lia. apply Z.shiftl_0_r. }
    rewrite HC. cbn [negb andb]. rewrite !andb_true_r, orb_false_r. reflexivity.
Qed.

(** ** Volumes in order *)

(** the number of set bits of an order in the buddy blocks of all slots *)
Fixpoint sum_pop (l : list (res scoutfs_buddy_block)) (k : Z) : Z :=
  match l with
  | [] => 0
  | r :: l' => match r with Ok b => pop b k | _ => 0 end + sum_pop l' k
  end.

Lemma sum_pop_insert l : forall i b b' k,
  l !! i = Some (Ok b) ->
  sum_pop (<[i := Ok b']> l) k = sum_pop l k - pop b k + pop b' k.
Proof.
  induction l as [|r l IH]; intros i b b' k H; [discriminate|].
  destruct i as [|i].
  - change (<[0%nat := Ok b']> (r :: l)) with (Ok b' :: l).
    cbn in H. injection H as ->. cbn [sum_pop]. lia.
  - change (<[S i := Ok b']> (r :: l)) with (r :: <[i := Ok b']> l).
    change ((r :: l) !! S i) with (l !! i) in H.
    cbn [sum_pop]. rewrite (IH i b b' k H). lia.
Qed.

Lemma aget_lookup {A : Type} (d : A) (l : list A) i v :
  aget d l i = v -> v <> d -> l !! Z.to_nat i = Some v.
Proof.
  unfold aget. intros H Hne. destruct (l !! Z.to_nat i); cbn in H; congruence.
Qed.

Lemma aget_ext {A : Type} (d : A) (l1 l2 : list A) :
  length l1 = length l2 ->
  (forall i, 0 <= i < Z.of_nat (length l1) -> aget d l1 i = aget d l2 i) ->
  l1 = l2.
Proof.
  intros Hlen H. apply list_eq. intros n.
  destruct (Nat.lt_ge_cases n (length l1)) as [Hlt|Hge].
  - specialize (H (Z.of_nat n) ltac:(lia)). unfold aget in H. rewrite Nat2Z.id in H.
    destruct (lookup_lt_is_Some_2 l1 n Hlt) as [v1 E1].
    destruct (lookup_lt_is_Some_2 l2 n ltac:(lia)) as [v2 E2].
    rewrite E1, E2 in *. cbn in H. congruence.
  - rewrite !lookup_ge_None_2 by lia. reflexivity.
Qed.

(** The volume is in order: the indirect block and the buddy blocks of
    all slots are there; a slot that advertises free orders or has a
    buddy block has its reference; the bits of every buddy block are in
    order, its counts are those of its bits and the slot advertises the
    orders with a count; the totals are the counts of all slots. *)
Definition settled (sbi : scoutfs_sb_info) (d_ind : scoutfs_buddy_indirect) : Prop :=
  buddy_ind_ref (super sbi) <> 0 /\
  ind (dirty sbi) = Ok d_ind /\
  length (slots d_ind) = Z.to_nat SCOUTFS_BUDDY_SLOTS /\
  length (buds (dirty sbi)) = Z.to_nat SCOUTFS_BUDDY_SLOTS /\
  length (order_totals d_ind) = Z.to_nat SCOUTFS_BUDDY_ORDERS /\
  (forall k, 0 <= k < SCOUTFS_BUDDY_ORDERS ->
     aget 0 (order_totals d_ind) k = u64 (sum_pop (buds (dirty sbi)) k)) /\
  (forall sl, 0 <= sl < SCOUTFS_BUDDY_SLOTS ->
     free_orders (aget empty_slot (slots d_ind) sl) <> 0 ->
     ref (aget empty_slot (slots d_ind) sl) <> 0) /\
  (forall sl bud, 0 <= sl < SCOUTFS_BUDDY_SLOTS ->
     aget (Err EIO) (buds (dirty sbi)) sl = Ok bud ->
     ref (aget empty_slot (slots d_ind) sl) <> 0 /\
     wf_bits bud /\
     length (order_counts bud) = Z.to_nat SCOUTFS_BUDDY_ORDERS /\
     (forall k, 0 <= k < SCOUTFS_BUDDY_ORDERS -> aget 0 (order_counts bud) k = u32 (pop bud k)) /\
     free_orders (aget empty_slot (slots d_ind) sl)
       = free_orders (update_free_orders empty_slot bud)).

(** the counts of the other slots *)
Definition others (sbi : scoutfs_sb_info) (bud : scoutfs_buddy_block) (k : Z) : Z :=
  sum_pop (buds (dirty sbi)) k - pop bud k.

Lemma settled_good sbi d_ind sl bud :
  settled sbi d_ind -> 0 <= sl < SCOUTFS_BUDDY_SLOTS ->
  aget (Err EIO) (buds (dirty sbi)) sl = Ok bud ->
  good (others sbi bud) d_ind bud.
Proof.
  intros (_ & _ & _ & _ & Hlt & Htot & _ & Hbud) Hsl Hb.
  destruct (Hbud sl bud Hsl Hb) as (_ & Hwf & Hlc & Hcnt & _).
  split; [exact Hwf|]. split; [exact Hlt|]. split; [exact Hlc|].
  intros j Hj. split; [apply Hcnt; exact Hj|]. rewrite Htot by exact Hj.
  unfold others. f_equal. lia.
Qed.

(** the volume after the buddy block of a slot was changed *)
Definition store (sbi : scoutfs_sb_info) (sl : Z) (ind' : scoutfs_buddy_indirect)
    (bud' : scoutfs_buddy_block) : scoutfs_sb_info :=
  put_ind (put_bud sbi sl bud')
    (with_slot ind' sl (update_free_orders (aget empty_slot (slots ind') sl) bud')).

Lemma store_settled sbi d_ind sl bud ind' bud' :
  format_ok -> settled sbi d_ind -> 0 <= sl < SCOUTFS_BUDDY_SLOTS ->
  aget (Err EIO) (buds (dirty sbi)) sl = Ok bud ->
  good (others sbi bud) ind' bud' -> slots ind' = slots d_ind ->
  settled (store sbi sl ind' bud')
    (with_slot ind' sl (update_free_orders (aget empty_slot (slots ind') sl) bud')).
Proof.
  intros Hf Hset Hsl Hb [Hwf' (Hlt' & Hlc' & Hacc')] Hslots.
  pose proof Hset as (Href & Hind & Hls & Hlb & Hlt & Htot & Hfo & Hbud).
  destruct (Hbud sl bud Hsl Hb) as (Hr & _).
  assert (Hlook : buds (dirty sbi) !! Z.to_nat sl = Some (Ok bud))
    by (apply (aget_lookup (Err EIO)); [exact Hb | discriminate]).
  unfold settled, store, put_ind, put_bud, with_slot.
  cbn [super dirty with_dirty with_ind with_buds ind buds slots order_totals].
  rewrite !length_aset, Hslots.
  refine (conj Href (conj eq_refl (conj Hls (conj Hlb (conj Hlt' (conj _ (conj _ _))))))).
  - intros k Hk. destruct (Hacc' k Hk) as [_ Ht]. rewrite Ht. f_equal.
    unfold aset. rewrite (sum_pop_insert _ _ bud bud' k Hlook). unfold others. lia.
  - intros sl' Hsl'. destruct (Z.eq_dec sl' sl) as [->|Hne].
    + rewrite aget_aset_eq by lia. cbn [ref update_free_orders]. intros _. exact Hr.
    + rewrite aget_aset_ne by lia. apply Hfo. exact Hsl'.
  - intros sl' b Hsl'. destruct (Z.eq_dec sl' sl) as [->|Hne].
    + rewrite !aget_aset_eq by lia. intros [= <-]. cbn [ref update_free_orders free_orders].
      refine (conj Hr (conj Hwf' (conj Hlc' (conj _ eq_refl)))).
      intros k Hk. apply Hacc'. exact Hk.
    + rewrite !aget_aset_ne by lia. apply Hbud. exact Hsl'.
Qed.

Lemma store_fields sbi sl ind' bud' :
  0 <= sl -> (Z.to_nat sl < length (buds (dirty sbi)))%nat ->
  (Z.to_nat sl < length (slots ind'))%nat ->
  same_but_dirty sbi (store sbi sl ind' bud') /\
  bm (dirty (store sbi sl ind' bud')) = bm (dirty sbi) /\
  aget (Err EIO) (buds (dirty (store sbi sl ind' bud'))) sl = Ok bud' /\
  (forall sl', 0 <= sl' -> sl' <> sl ->
     aget (Err EIO) (buds (dirty (store sbi sl ind' bud'))) sl'
       = aget (Err EIO) (buds (dirty sbi)) sl' /\
     aget empty_slot
       (slots (with_slot ind' sl (update_free_orders (aget empty_slot (slots ind') sl) bud')))
       sl' = aget empty_slot (slots ind') sl') /\
  ref (aget empty_slot
         (slots (with_slot ind' sl (update_free_orders (aget empty_slot (slots ind') sl) bud')))
         sl) = ref (aget empty_slot (slots ind') sl).
Proof.
  intros Hsl Hlb Hls. unfold store.
  split; [eapply same_but_dirty_trans;
            [apply same_but_dirty_put_bud | apply same_but_dirty_put_ind]|].
  unfold put_ind, put_bud, with_slot.
  cbn [dirty with_dirty with_ind with_buds bm buds slots].
  split; [reflexivity|]. split; [apply aget_aset_eq; exact Hlb|]. split.
  - intros sl' Hsl' Hne. rewrite !aget_aset_ne by lia. split; reflexivity.
  - rewrite aget_aset_eq by exact Hls. reflexivity.
Qed.

(** ** What [buddy_alloc] and [buddy_free] do to a volume in order *)

Lemma fail_not_ok {A B : Type} (r : res A) (b : B) : fail r <> Ok b.
Proof. destruct r; discriminate. Qed.

(** the buddy block of [alloc_slot] after it found the bit [found, nr] *)
Definition taken (d_ind : scoutfs_buddy_indirect) (bud : scoutfs_buddy_block)
    (found nr order : Z) : scoutfs_buddy_indirect * scoutfs_buddy_block :=
  split_right (Z.to_nat (found - order))
    (fst (clear_buddy_bit d_ind bud found nr)) (snd (clear_buddy_bit d_ind bud found nr))
    (found - 1) (s32 (Z.shiftl nr 1)).

(** [alloc_slot] on a slot in use found a set bit of the order or above
    and took the region from it *)
Definition slot_taken (sbi : scoutfs_sb_info) (d_ind : scoutfs_buddy_indirect)
    (sl order : Z) (r : res Z) (sbi' : scoutfs_sb_info) (ind' : scoutfs_buddy_indirect)
    : Prop :=
  exists bud found nr,
    aget (Err EIO) (buds (dirty sbi)) sl = Ok bud /\
    order <= found /\ valid_bit found nr /\ test_buddy_bit bud found nr = true /\
    r = Ok (slot_buddy_blkno (super sbi) sl found nr) /\
    sbi' = put_bud sbi sl (snd (taken d_ind bud found nr order)) /\
    ind' = with_slot (fst (taken d_ind bud found nr order)) sl
             (update_free_orders
                (aget empty_slot (slots (fst (taken d_ind bud found nr order))) sl)
                (snd (taken d_ind bud found nr order))).

Lemma alloc_slot_exact sbi d_ind sl sref order r sbi' ind' :
  format_ok -> super_ok (super sbi) ->
  0 <= sl < SCOUTFS_BUDDY_SLOTS -> 0 <= order < SCOUTFS_BUDDY_ORDERS ->
  ref (aget empty_slot (slots d_ind) sl) <> 0 ->
  alloc_slot sbi d_ind sl sref order = (r, sbi', ind') ->
  ((forall b, r <> Ok b) /\ sbi' = sbi /\ ind' = d_ind) \/
  slot_taken sbi d_ind sl order r sbi' ind'.
Proof.
  intros Hf Hsup Hsl Ho Href. unfold alloc_slot.
  rewrite (dirty_buddy_block_used sbi d_ind sl Href).
  assert (Hfail : forall (x : res Z) , (forall b, x <> Ok b) ->
            (x, sbi, d_ind) = (r, sbi', ind') ->
            ((forall b, r <> Ok b) /\ sbi' = sbi /\ ind' = d_ind) \/
            slot_taken sbi d_ind sl order r sbi' ind').
  { intros x Hx [= <- <- <-]. left. auto. }
  destruct (aget (Err EIO) (buds (dirty sbi)) sl) as [bud|e| |] eqn:Hbud;
    try (apply Hfail; intros b; discriminate).
  fold (stable_bud_of sbi sl sref).
  destruct (stable_bud_of sbi sl sref) as [st_bud|e| |];
    try (apply Hfail; intros b; discriminate).
  destruct (find_first_fit_spec (super sbi) sl bud st_bud order Hf Hsup Hsl Ho)
    as (nr & found & Hfit & Hgood & _).
  rewrite Hfit.
  destruct (Z.eqb_spec nr INT_MAX) as [|Hne]; [apply Hfail; intros b; discriminate|].
  destruct (Hgood Hne) as (Hof & Hv & Ht & _).
  destruct (clear_buddy_bit d_ind bud found nr) as [ind1 bud1] eqn:Hc.
  destruct (split_right _ ind1 bud1 _ _) as [ind2 bud2] eqn:Hs.
  intros [= <- <- <-]. right. exists bud, found, nr.
  unfold taken. rewrite Hc. cbn [fst snd]. rewrite Hs. cbn [fst snd].
  repeat split; auto; apply Hv.
Qed.

Lemma alloc_order_slots_exact st_ind mask order sbi d_ind : forall n i r0 r sbi' ind',
  format_ok -> super_ok (super sbi) -> 0 <= order < SCOUTFS_BUDDY_ORDERS ->
  0 <= i -> i + Z.of_nat n <= SCOUTFS_BUDDY_SLOTS ->
  (forall sl, 0 <= sl < SCOUTFS_BUDDY_SLOTS ->
     free_orders (aget empty_slot (slots d_ind) sl) <> 0 ->
     ref (aget empty_slot (slots d_ind) sl) <> 0) ->
  (forall b, r0 <> Ok b) ->
  alloc_order_slots n sbi d_ind st_ind mask order i r0 = (r, sbi', ind') ->
  ((forall b, r <> Ok b) /\ sbi' = sbi /\ ind' = d_ind) \/
  exists sl, 0 <= sl < SCOUTFS_BUDDY_SLOTS /\ slot_taken sbi d_ind sl order r sbi' ind'.
Proof.
  induction n as [|n IH]; intros i r0 r sbi' ind' Hf Hsup Ho Hi Hn Hused Hr0;
    cbn [alloc_order_slots].
  - intros [= <- <- <-]. left. auto.
  - destruct (Z.eqb_spec (Z.land mask (free_orders (aget empty_slot (slots d_ind) i))) 0)
      as [Hz|Hnz]; cbn [orb].
    { apply IH; auto; try lia; intros b; discriminate. }
    destruct (Z.land mask (free_orders (aget empty_slot (slots st_ind) i)) =? 0).
    { apply IH; auto; try lia; intros b; discriminate. }
    assert (Href : ref (aget empty_slot (slots d_ind) i) <> 0).
    { apply Hused; [lia|]. intros H0. rewrite H0, Z.land_0_r in Hnz. contradiction. }
    destruct (alloc_slot sbi d_ind i (ref (aget empty_slot (slots st_ind) i)) order)
      as [[ra sbi1] ind1] eqn:Ha.
    apply alloc_slot_exact in Ha; auto; [|lia].
    destruct Ha as [(Hno & -> & ->)|Htake].
    + destruct ra as [b|e| |].
      * exfalso. apply (Hno b). reflexivity.
      * destruct e; try (intros [= <- <- <-]; left; split; [intros b; discriminate | auto]).
        apply IH; auto; try lia; intros b; discriminate.
      * intros [= <- <- <-]. left. split; [intros b; discriminate | auto].
      * intros [= <- <- <-]. left. split; [intros b; discriminate | auto].
    + pose proof Htake as (bud & found & nr & _ & _ & _ & _ & -> & _).
      intros [= <- <- <-]. right. exists i. split; [lia | exact Htake].
Qed.

(** [alloc_order] took the region of the order from a set bit of the
    order or above of the buddy block of a slot *)
Definition order_taken (sbi : scoutfs_sb_info) (d_ind : scoutfs_buddy_indirect)
    (order blkno : Z) (sbi' : scoutfs_sb_info) : Prop :=
  exists sl bud found nr,
    0 <= sl < SCOUTFS_BUDDY_SLOTS /\
    aget (Err EIO) (buds (dirty sbi)) sl = Ok bud /\
    order <= found /\ valid_bit found nr /\ test_buddy_bit bud found nr = true /\
    blkno = slot_buddy_blkno (super sbi) sl found nr /\
    sbi' = store sbi sl (fst (taken d_ind bud found nr order))
             (snd (taken d_ind bud found nr order)).

Lemma alloc_order_exact sbi d_ind order r sbi' :
  format_ok -> super_ok (super sbi) -> settled sbi d_ind ->
  0 <= order < SCOUTFS_BUDDY_ORDERS ->
  alloc_order sbi order = (r, sbi') ->
  ((forall b, r <> Ok b) /\ sbi' = sbi) \/
  exists blkno, r = Ok blkno /\ order_taken sbi d_ind order blkno sbi'.
Proof.
  intros Hf Hsup (_ & Hind & _ & _ & _ & _ & Hused & _) Ho. unfold alloc_order.
  destruct (_ || _). { intros [= <- <-]. left. split; [intros b; discriminate | auto]. }
  rewrite Hind.
  destruct (ind (stable sbi)) as [st_ind|e| |];
    try (intros [= <- <-]; left; split; [intros b; discriminate | reflexivity]).
  destruct (alloc_order_slots _ sbi d_ind st_ind _ order 0 (Err ENOSPC))
    as [[ra sbi1] ind1] eqn:Ha.
  assert (Hsl0 : 0 < SCOUTFS_BUDDY_SLOTS) by (unfold format_ok in Hf; tauto).
  apply alloc_order_slots_exact in Ha; auto; try lia; try (intros b; discriminate).
  intros [= <- <-].
  destruct Ha as [(Hno & -> & ->)|(sl & Hsl & bud & found & nr & Hb & Hof & Hv & Ht & -> & -> & ->)].
  - left. split; [exact Hno | apply put_ind_same; exact Hind].
  - right. eexists. split; [reflexivity|].
    exists sl, bud, found, nr. repeat split; auto; try apply Hv; lia.
Qed.

Lemma buddy_alloc_from_exact sbi d_ind : forall o r sbi',
  format_ok -> super_ok (super sbi) -> settled sbi d_ind ->
  Z.of_nat o < SCOUTFS_BUDDY_ORDERS ->
  buddy_alloc_from o sbi = (r, sbi') ->
  ((forall v, r <> Ok v) /\ sbi' = sbi) \/
  exists blkno g, r = Ok (blkno, g) /\ 0 <= g <= Z.of_nat o /\
    order_taken sbi d_ind g blkno sbi'.
Proof.
  induction o as [|o IH]; intros r sbi' Hf Hsup Hset Ho; cbn [buddy_alloc_from].
  - destruct (alloc_order sbi (Z.of_nat 0)) as [ra sbi1] eqn:Ha.
    apply (alloc_order_exact sbi d_ind) in Ha; auto; [|lia].
    destruct Ha as [(Hno & ->)|(blkno & -> & Htake)].
    + destruct ra as [b|e| |]; [exfalso; apply (Hno b); reflexivity| | |];
        try (intros [= <- <-]; left; split; [intros v; discriminate | reflexivity]).
      destruct e; intros [= <- <-]; left; split; try reflexivity; intros v; discriminate.
    + intros [= <- <-]. right. exists blkno, (Z.of_nat 0). split; [reflexivity|].
      split; [lia | exact Htake].
  - destruct (alloc_order sbi (Z.of_nat (S o))) as [ra sbi1] eqn:Ha.
    apply (alloc_order_exact sbi d_ind) in Ha; auto; [|lia].
    destruct Ha as [(Hno & ->)|(blkno & -> & Htake)].
    + destruct ra as [b|e| |]; [exfalso; apply (Hno b); reflexivity| | |];
        try (intros [= <- <-]; left; split; [intros v; discriminate | reflexivity]).
      destruct e; try (intros [= <- <-]; left; split; try reflexivity; intros v; discriminate).
      intros H. apply IH in H; auto; [|lia].
      destruct H as [H|(blkno & g & -> & Hg & Htake)]; [left; exact H|].
      right. exists blkno, g. split; [reflexivity|]. split; [lia | exact Htake].
    + intros [= <- <-]. right. exists blkno, (Z.of_nat (S o)). split; [reflexivity|].
      split; [lia | exact Htake].
Qed.

Lemma buddy_alloc_exact sbi d_ind order r sbi' :
  format_ok -> super_ok (super sbi) -> settled sbi d_ind ->
  buddy_alloc sbi order = (r, sbi') ->
  ((forall v, r <> Ok v) /\ sbi' = sbi) \/
  exists blkno g, r = Ok (blkno, g) /\ 0 <= g <= order /\ g < SCOUTFS_BUDDY_ORDERS /\
    order_taken sbi d_ind g blkno sbi'.
Proof.
  intros Hf Hsup Hset. unfold buddy_alloc.
  destruct (Z.ltb_spec order 0); cbn [orb].
  { intros [= <- <-]. left. split; [intros v; discriminate | reflexivity]. }
  destruct (Z.leb_spec SCOUTFS_BUDDY_ORDERS order).
  { intros [= <- <-]. left. split; [intros v; discriminate | reflexivity]. }
  intros Ha. apply (buddy_alloc_from_exact sbi d_ind) in Ha; auto; [|lia].
  destruct Ha as [Ha|(blkno & g & -> & Hg & Htake)]; [left; exact Ha|].
  right. exists blkno, g. split; [reflexivity|]. split; [lia|]. split; [lia | exact Htake].
Qed.

Lemma slot_buddy_blkno_shiftl sup sl found nr g :
  0 <= g <= found ->
  slot_buddy_blkno sup sl found nr = slot_buddy_blkno sup sl g (Z.shiftl nr (found - g)).
Proof.
  intros Hg. unfold slot_buddy_blkno. rewrite Z.shiftl_shiftl by lia.
  replace (found - g + g) with found by lia. reflexivity.
Qed.

(** a successful [buddy_alloc] on a volume in order takes a region
    whose blocks were free from the buddy block of a slot *)
Lemma buddy_alloc_takes sbi d_ind order blkno g sbi' :
  format_ok -> super_ok (super sbi) -> settled sbi d_ind ->
  buddy_alloc sbi order = (Ok (blkno, g), sbi') ->
  exists sl bud n ind' bud',
    0 <= sl < SCOUTFS_BUDDY_SLOTS /\ valid_bit g n /\
    blkno = slot_buddy_blkno (super sbi) sl g n /\
    aget (Err EIO) (buds (dirty sbi)) sl = Ok bud /\
    (forall x, 0 <= x < SCOUTFS_BUDDY_ORDER0_BITS -> Z.shiftr x g = n -> freeb bud x = true) /\
    good (others sbi bud) ind' bud' /\ slots ind' = slots d_ind /\
    (forall x, 0 <= x < SCOUTFS_BUDDY_ORDER0_BITS ->
       freeb bud' x = freeb bud x && negb (Z.shiftr x g =? n)) /\
    sbi' = store sbi sl ind' bud'.
Proof.
  intros Hf Hsup Hset Ha.
  apply (buddy_alloc_exact sbi d_ind) in Ha; auto.
  destruct Ha as [[Hno _]|(blkno' & g' & [= <- <-] & Hg & Hgo & Htake)].
  { exfalso. apply (Hno (blkno, g)). reflexivity. }
  destruct Htake as (sl & bud & found & nr & Hsl & Hb & Hof & Hv & Ht & -> & ->).
  pose proof (settled_good sbi d_ind sl bud Hset Hsl Hb) as Hgood.
  assert (Hgf : 0 <= g <= found) by lia.
  destruct (take_good (others sbi bud) d_ind bud found nr g Hf Hgood Hv Ht Hgf
              (fst (clear_buddy_bit d_ind bud found nr))
              (snd (clear_buddy_bit d_ind bud found nr))
              ltac:(apply surjective_pairing)
              (fst (taken d_ind bud found nr g)) (snd (taken d_ind bud found nr g))
              ltac:(apply surjective_pairing)) as (Hgood2 & Hslots2 & Hfree2).
  exists sl, bud, (Z.shiftl nr (found - g)),
    (fst (taken d_ind bud found nr g)), (snd (taken d_ind bud found nr g)).
  refine (conj Hsl (conj _ (conj _ (conj Hb (conj _ (conj Hgood2 (conj Hslots2
            (conj Hfree2 eq_refl)))))))).
  - apply valid_bit_shiftl; auto.
  - apply slot_buddy_blkno_shiftl. lia.
  - intros x Hx Hs. apply (bit_full bud found nr (proj1 Hv) Ht x Hx).
    rewrite (shiftr_above x g found) by lia. rewrite Hs.
    rewrite Z.shiftr_shiftl_l, Z.sub_diag by lia. apply Z.shiftl_0_r.
Qed.

(** [buddy_free] of a region without a free block, on a volume in
    order, adds the blocks of the region to the free blocks of the
    buddy block of its slot *)
Lemma buddy_free_gives sbi d_ind sl g n bud :
  format_ok -> super_ok (super sbi) -> settled sbi d_ind ->
  0 <= sl < SCOUTFS_BUDDY_SLOTS -> valid_bit g n ->
  aget (Err EIO) (buds (dirty sbi)) sl = Ok bud ->
  (forall x, 0 <= x < SCOUTFS_BUDDY_ORDER0_BITS -> Z.shiftr x g = n -> freeb bud x = false) ->
  exists ind' bud',
    buddy_free sbi (slot_buddy_blkno (super sbi) sl g n) g = (Ok tt, store sbi sl ind' bud') /\
    good (others sbi bud) ind' bud' /\ slots ind' = slots d_ind /\
    forall x, 0 <= x < SCOUTFS_BUDDY_ORDER0_BITS ->
      freeb bud' x = freeb bud x || (Z.shiftr x g =? n).
Proof.
  intros Hf Hsup Hset Hsl Hv Hb Hnone.
  pose proof (settled_good sbi d_ind sl bud Hset Hsl Hb) as Hgood.
  pose proof Hset as (Href & Hind & _).
  destruct (slot_buddy_blkno_valid (super sbi) sl g n Hf Hsup Hsl Hv) as (Hslot & Hbit & Hvo).
  pose proof Hv as [Hg Hn].
  unfold buddy_free. rewrite Hvo.
  destruct (Z.ltb_spec g 0); [lia|]. destruct (Z.leb_spec SCOUTFS_BUDDY_ORDERS g); [lia|].
  cbn [orb negb]. destruct (Z.eqb_spec (buddy_ind_ref (super sbi)) 0); [contradiction|].
  rewrite Hind, Hslot, Hb, Hbit.
  destruct (merge_buddies (Z.to_nat (SCOUTFS_BUDDY_ORDERS - 1 - g)) d_ind bud g n)
    as [[[ind1 bud1] j] nr1] eqn:Hm.
  assert (Htop : g + Z.of_nat (Z.to_nat (SCOUTFS_BUDDY_ORDERS - 1 - g))
                 = SCOUTFS_BUDDY_ORDERS - 1) by lia.
  destruct (merge_set_good (others sbi bud) _ d_ind bud g n Hf Hgood Hv Htop Hnone
              _ _ _ _ Hm) as (Hgood2 & Hslots2 & Hfree2).
  destruct (set_buddy_bit ind1 bud1 j nr1) as [ind2 bud2]. cbn [fst snd] in *.
  exists ind2, bud2. unfold store. auto.
Qed.

(** ** Regions taken from a volume *)

(** the block [x] of the slot is in the region *)
Definition in_ext (sup : scoutfs_super_block) (e : Z * Z) (sl x : Z) : bool :=
  (indirect_slot sup (fst e) =? sl)
  && (Z.shiftr x (snd e) =? Z.shiftr (buddy_bit sup (fst e)) (snd e)).

(** the number of the regions that the block is in *)
Fixpoint cover_count (sup : scoutfs_super_block) (exts : list (Z * Z)) (sl x : Z) : Z :=
  match exts with
  | [] => 0
  | e :: rest => Z.b2z (in_ext sup e sl x) + cover_count sup rest sl x
  end.

(** the region is one of a slot: an aligned block and its order *)
Definition ext_ok (sup : scoutfs_super_block) (e : Z * Z) : Prop :=
  exists sl n, 0 <= sl < SCOUTFS_BUDDY_SLOTS /\ valid_bit (snd e) n /\
    fst e = slot_buddy_blkno sup sl (snd e) n.

Lemma cover_count_nonneg sup exts sl x : 0 <= cover_count sup exts sl x.
Proof.
  induction exts as [|e rest IH]; cbn [cover_count]; [lia|].
  destruct (in_ext sup e sl x); cbn [Z.b2z]; lia.
Qed.

Lemma cover_count_app sup l1 e l2 sl x :
  cover_count sup (l1 ++ e :: l2) sl x
  = Z.b2z (in_ext sup e sl x) + cover_count sup (l1 ++ l2) sl x.
Proof.
  induction l1 as [|a l1 IH]; cbn [app cover_count]; [reflexivity|]. rewrite IH. lia.
Qed.

Lemma in_ext_slot sup sl g n sl' x :
  format_ok -> super_ok sup -> 0 <= sl < SCOUTFS_BUDDY_SLOTS -> valid_bit g n ->
  in_ext sup (slot_buddy_blkno sup sl g n, g) sl' x = (sl =? sl') && (Z.shiftr x g =? n).
Proof.
  intros Hf Hsup Hsl Hv. unfold in_ext. cbn [fst snd].
  destruct (slot_buddy_blkno_valid sup sl g n Hf Hsup Hsl Hv) as (-> & -> & _). reflexivity.
Qed.

(** [s] is [s0] after the regions were taken: the free blocks of every
    buddy block are those of [s0] outside the regions, which lie in
    free blocks of [s0] and apart from each other; a slot without a
    buddy block is as it was *)
Definition tracked (s0 s : scoutfs_sb_info) (exts : list (Z * Z)) : Prop :=
  exists i0 i,
    settled s i /\ ind (dirty s0) = Ok i0 /\
    same_but_dirty s0 s /\ bm (dirty s) = bm (dirty s0) /\
    Forall (ext_ok (super s0)) exts /\
    forall sl, 0 <= sl < SCOUTFS_BUDDY_SLOTS ->
      ref (aget empty_slot (slots i) sl) = ref (aget empty_slot (slots i0) sl) /\
      ((exists b0 b,
          aget (Err EIO) (buds (dirty s0)) sl = Ok b0 /\
          aget (Err EIO) (buds (dirty s)) sl = Ok b /\
          forall x, 0 <= x < SCOUTFS_BUDDY_ORDER0_BITS ->
            cover_count (super s0) exts sl x <= 1 /\
            (cover_count (super s0) exts sl x = 1 -> freeb b0 x = true) /\
            freeb b x = freeb b0 x && (cover_count (super s0) exts sl x =? 0))
       \/
       ((forall b0, aget (Err EIO) (buds (dirty s0)) sl <> Ok b0) /\
        aget (Err EIO) (buds (dirty s)) sl = aget (Err EIO) (buds (dirty s0)) sl /\
        aget empty_slot (slots i) sl = aget empty_slot (slots i0) sl /\
        forall x, 0 <= x < SCOUTFS_BUDDY_ORDER0_BITS ->
          cover_count (super s0) exts sl x = 0)).

Lemma tracked_start s0 i0 : settled s0 i0 -> tracked s0 s0 [].
Proof.
  intros Hset. pose proof Hset as (_ & Hind & _). exists i0, i0.
  refine (conj Hset (conj Hind (conj (same_but_dirty_refl _) (conj eq_refl
            (conj (List.Forall_nil _) _))))).
  intros sl Hsl. split; [reflexivity|].
  destruct (aget (Err EIO) (buds (dirty s0)) sl) as [b0|e| |] eqn:Hb.
  - left. exists b0, b0. refine (conj eq_refl (conj eq_refl _)).
    intros x Hx. cbn [cover_count]. split; [lia|]. split; [lia|].
    cbn. symmetry. apply andb_true_r.
  - right. repeat split; auto; discriminate.
  - right. repeat split; auto; discriminate.
  - right. repeat split; auto; discriminate.
Qed.

(** the volume after the buddy block of one slot changed, with the
    regions that go with it *)
Lemma tracked_step s0 s exts exts' d_ind sl bud ind' bud' :
  format_ok -> tracked s0 s exts -> settled s d_ind ->
  0 <= sl < SCOUTFS_BUDDY_SLOTS ->
  aget (Err EIO) (buds (dirty s)) sl = Ok bud ->
  good (others s bud) ind' bud' -> slots ind' = slots d_ind ->
  Forall (ext_ok (super s0)) exts' ->
  (forall sl' x, 0 <= sl' < SCOUTFS_BUDDY_SLOTS -> sl' <> sl ->
     cover_count (super s0) exts' sl' x = cover_count (super s0) exts sl' x) ->
  (forall b0 x, aget (Err EIO) (buds (dirty s0)) sl = Ok b0 ->
     0 <= x < SCOUTFS_BUDDY_ORDER0_BITS ->
     cover_count (super s0) exts sl x <= 1 ->
     (cover_count (super s0) exts sl x = 1 -> freeb b0 x = true) ->
     freeb bud x = freeb b0 x && (cover_count (super s0) exts sl x =? 0) ->
     cover_count (super s0) exts' sl x <= 1 /\
     (cover_count (super s0) exts' sl x = 1 -> freeb b0 x = true) /\
     freeb bud' x = freeb b0 x && (cover_count (super s0) exts' sl x =? 0)) ->
  tracked s0 (store s sl ind' bud') exts'.
Proof.
  intros Hf (i0 & i & Hset' & Hind0 & Hsame & Hbm & _ & Hslots) Hset Hsl Hb Hgood Hsl' Hok'
    Hother Hthis.
  assert (i = d_ind) as ->.
  { destruct Hset' as (_ & H1 & _), Hset as (_ & H2 & _). congruence. }
  clear Hset'. pose proof Hset as (_ & Hind & Hls & Hlb & _).
  destruct (store_fields s sl ind' bud') as (Hsame' & Hbm' & Hnew & Hrest & Hrefnew);
    [lia | lia | rewrite Hsl'; lia |].
  exists i0, (with_slot ind' sl (update_free_orders (aget empty_slot (slots ind') sl) bud')).
  refine (conj (store_settled s d_ind sl bud ind' bud' Hf Hset Hsl Hb Hgood Hsl')
            (conj Hind0 (conj (same_but_dirty_trans _ _ _ Hsame Hsame') (conj _ (conj Hok' _))))).
  { congruence. }
  intros sl1 Hsl1. destruct (Hslots sl1 Hsl1) as [Href Hcase].
  destruct (Z.eq_dec sl1 sl) as [->|Hne].
  - split; [rewrite Hrefnew, Hsl'; exact Href|].
    destruct Hcase as [(b0 & b & Hb0 & Hbs & Hx)|(Hno & Hbs & _)].
    + left. exists b0, bud'. refine (conj Hb0 (conj Hnew _)).
      assert (b = bud) by congruence. subst b.
      intros x Hxr. destruct (Hx x Hxr) as (H1 & H2 & H3). apply Hthis; auto.
    + exfalso. rewrite Hb in Hbs. apply (Hno bud). auto.
  - destruct (Hrest sl1 ltac:(lia) Hne) as [Hbr Hsr]. rewrite Hsr, Hbr, Hsl'.
    split; [exact Href|].
    destruct Hcase as [(b0 & b & Hb0 & Hbs & Hx)|(Hno & Hbs & Hss & Hx)].
    + left. exists b0, b. refine (conj Hb0 (conj Hbs _)).
      intros x Hxr. rewrite Hother by auto. apply Hx. exact Hxr.
    + right. refine (conj Hno (conj Hbs (conj Hss _))).
      intros x Hxr. rewrite Hother by auto. apply Hx. exact Hxr.
Qed.

Lemma tracked_alloc s0 s exts order blkno g s' :
  format_ok -> super_ok (super s0) -> tracked s0 s exts ->
  buddy_alloc s order = (Ok (blkno, g), s') ->
  tracked s0 s' ((blkno, g) :: exts).
Proof.
  intros Hf Hsup Htr Ha. pose proof Htr as (i0 & i & Hset & _ & Hsame & _ & Hok & _).
  pose proof (same_but_dirty_fields _ _ Hsame) as (Hs & _).
  destruct (buddy_alloc_takes s i order blkno g s' Hf ltac:(rewrite Hs; exact Hsup) Hset Ha)
    as (sl & bud & n & ind' & bud' & Hsl & Hv & -> & Hb & Hfull & Hgood & Hslots & Hfree & ->).
  rewrite Hs.
  assert (Hin : forall sl' x, in_ext (super s0) (slot_buddy_blkno (super s0) sl g n, g) sl' x
                              = (sl =? sl') && (Z.shiftr x g =? n)).
  { intros sl' x. apply in_ext_slot; auto. }
  apply (tracked_step s0 s exts _ i sl bud ind' bud'); auto.
  - constructor; [|exact Hok]. exists sl, n. auto.
  - intros sl' x Hsl' Hne. cbn [cover_count]. rewrite Hin.
    destruct (Z.eqb_spec sl sl'); [congruence|]. cbn. lia.
  - intros b0 x Hb0 Hx H1 H2 H3. cbn [cover_count]. rewrite Hin, Z.eqb_refl. cbn [andb].
    rewrite (Hfree x Hx), H3.
    pose proof (cover_count_nonneg (super s0) exts sl x) as Hnn.
    destruct (Z.eqb_spec (Z.shiftr x g) n) as [Hs'|Hs']; cbn [Z.b2z negb].
    + pose proof (Hfull x Hx Hs') as Hfx. rewrite H3 in Hfx.
      apply andb_prop in Hfx. destruct Hfx as [Hf0 Hc0]. apply Z.eqb_eq in Hc0.
      rewrite Hc0, Hf0. cbn. repeat split; auto; lia.
    + rewrite Z.add_0_l, andb_true_r. auto.
Qed.

Lemma tracked_free s0 s l1 e l2 :
  format_ok -> super_ok (super s0) -> tracked s0 s (l1 ++ e :: l2) ->
  exists s', buddy_free s (fst e) (snd e) = (Ok tt, s') /\ tracked s0 s' (l1 ++ l2).
Proof.
  intros Hf Hsup Htr. pose proof Htr as (i0 & i & Hset & _ & Hsame & _ & Hok & Hslots).
  pose proof (same_but_dirty_fields _ _ Hsame) as (Hs & _).
  apply Forall_app in Hok. destruct Hok as [Hok1 Hok2].
  apply Forall_cons in Hok2. destruct Hok2 as [(sl & n & Hsl & Hv & He) Hok2].
  destruct e as [blkno g]. cbn [fst snd] in *. subst blkno.
  assert (Hin : forall sl' x, in_ext (super s0) (slot_buddy_blkno (super s0) sl g n, g) sl' x
                              = (sl =? sl') && (Z.shiftr x g =? n)).
  { intros sl' x. apply in_ext_slot; auto. }
  destruct (region_first g n Hf Hv) as [Hx0 Hs0].
  destruct (Hslots sl Hsl) as [_ [(b0 & b & Hb0 & Hb & Hx)|(_ & _ & _ & Hx)]].
  2:{ exfalso. specialize (Hx _ Hx0). rewrite cover_count_app, Hin, Z.eqb_refl, Hs0,
        Z.eqb_refl in Hx. cbn in Hx.
      pose proof (cover_count_nonneg (super s0) (l1 ++ l2) sl (Z.shiftl n g)). lia. }
  assert (Hnone : forall x, 0 <= x < SCOUTFS_BUDDY_ORDER0_BITS -> Z.shiftr x g = n ->
                    freeb b x = false).
  { intros x Hxr Hsx. destruct (Hx x Hxr) as (_ & _ & H3). rewrite H3.
    rewrite cover_count_app, Hin, Z.eqb_refl, Hsx, Z.eqb_refl. cbn [andb Z.b2z].
    pose proof (cover_count_nonneg (super s0) (l1 ++ l2) sl x).
    destruct (Z.eqb_spec (1 + cover_count (super s0) (l1 ++ l2) sl x) 0); [lia|].
    apply andb_false_r. }
  destruct (buddy_free_gives s i sl g n b Hf ltac:(rewrite Hs; exact Hsup) Hset Hsl Hv Hb Hnone)
    as (ind' & bud' & Hfree & Hgood & Hsl' & Hfr).
  rewrite Hs in Hfree. eexists. split; [exact Hfree|].
  apply (tracked_step s0 s (l1 ++ (slot_buddy_blkno (super s0) sl g n, g) :: l2) _ i sl b
           ind' bud'); auto.
  - apply Forall_app. auto.
  - intros sl' x Hsl1 Hne. rewrite cover_count_app, Hin.
    destruct (Z.eqb_spec sl sl'); [congruence|]. cbn. lia.
  - intros b0' x Hb0' Hxr H1 H2 H3. rewrite cover_count_app, Hin, Z.eqb_refl in H1, H2, H3.
    cbn [andb] in H1, H2, H3. rewrite (Hfr x Hxr), H3.
    pose proof (cover_count_nonneg (super s0) (l1 ++ l2) sl x) as Hnn.
    destruct (Z.eqb_spec (Z.shiftr x g) n) as [Hsx|Hsx]; cbn [Z.b2z] in *.
    + assert (Hc0 : cover_count (super s0) (l1 ++ l2) sl x = 0) by lia.
      rewrite Hc0 in *. rewrite H2 by reflexivity. cbn. repeat split; auto; lia.
    + rewrite Z.add_0_l in *. rewrite orb_false_r. auto.
Qed.

Lemma bud_eq (b1 b2 : scoutfs_buddy_block) :
  bits b1 = bits b2 -> order_counts b1 = order_counts b2 -> b1 = b2.
Proof. destruct b1, b2; cbn; intros -> ->; reflexivity. Qed.

Lemma slot_eq (s1 s2 : scoutfs_buddy_slot) :
  ref s1 = ref s2 -> free_orders s1 = free_orders s2 -> s1 = s2.
Proof. destruct s1, s2; cbn; intros -> ->; reflexivity. Qed.

(** once all regions were given back the volume is the one it was *)
Lemma tracked_done s0 s i0 :
  format_ok -> settled s0 i0 -> tracked s0 s [] -> s = s0.
Proof.
  intros Hf Hset0 (i0' & i & Hset & Hind0' & Hsame & Hbm & _ & Hslots).
  pose proof Hset0 as (_ & Hind0 & Hls0 & Hlb0 & Hlt0 & Htot0 & _ & Hbud0).
  pose proof Hset as (_ & Hind & Hls & Hlb & Hlt & Htot & _ & Hbud).
  assert (i0' = i0) as -> by congruence.
  assert (Hslot : forall sl, 0 <= sl < SCOUTFS_BUDDY_SLOTS ->
            aget (Err EIO) (buds (dirty s)) sl = aget (Err EIO) (buds (dirty s0)) sl /\
            aget empty_slot (slots i) sl = aget empty_slot (slots i0) sl).
  { intros sl Hsl. destruct (Hslots sl Hsl) as [Href [(b0 & b & Hb0 & Hb & Hx)|(_ & H1 & H2 & _)]];
      [|auto].
    destruct (Hbud0 sl b0 Hsl Hb0) as (_ & Hwf0 & Hlc0 & Hcnt0 & Hfo0).
    destruct (Hbud sl b Hsl Hb) as (_ & Hwf & Hlc & Hcnt & Hfo).
    assert (Hbits : bits b = bits b0).
    { apply wf_bits_unique; auto. intros x Hxr. destruct (Hx x Hxr) as (_ & _ & H3).
      rewrite H3. cbn. apply andb_true_r. }
    assert (Hpop : forall k, pop b k = pop b0 k) by (intros k; unfold pop; rewrite Hbits; auto).
    assert (Heq : b = b0).
    { apply bud_eq; [exact Hbits|]. apply (aget_ext 0); [congruence|].
      intros k Hk. rewrite Hcnt, Hcnt0, Hpop by lia. reflexivity. }
    subst b. split; [congruence|]. apply slot_eq; congruence. }
  assert (Hbuds : buds (dirty s) = buds (dirty s0)).
  { apply (aget_ext (Err EIO)); [congruence|]. intros sl Hsl. apply Hslot. lia. }
  assert (Hi : i = i0).
  { destruct i as [t sls], i0 as [t0 sls0]. cbn [order_totals slots] in *. f_equal.
    - apply (aget_ext 0); [congruence|]. intros k Hk.
      rewrite Htot, Htot0, Hbuds by lia. reflexivity.
    - apply (aget_ext empty_slot); [congruence|]. intros sl Hsl. apply Hslot. lia. }
  subst i. unfold same_but_dirty in Hsame. rewrite Hsame.
  destruct s0 as [? ? d0 ? ? ? ? ? ? ?]. unfold with_dirty. cbn [dirty] in *.
  f_equal. destruct (dirty s) as [bm1 ind1 buds1], d0 as [bm0 ind0 buds0]. cbn in *.
  congruence.
Qed.

(** ** The round trip *)

(** the calls of [buddy_alloc] for the orders in turn, with the regions
    that the successful ones returned *)
Fixpoint alloc_all (sbi : scoutfs_sb_info) (orders : list Z)
    : list (Z * Z) * scoutfs_sb_info :=
  match orders with
  | [] => ([], sbi)
  | order :: rest =>
      match buddy_alloc sbi order with
      | (Ok e, sbi) => (e :: fst (alloc_all sbi rest), snd (alloc_all sbi rest))
      | (_, sbi) => alloc_all sbi rest
      end
  end.

(** the calls of [buddy_free] for the regions in turn, up to the first
    that fails *)
Fixpoint free_all (sbi : scoutfs_sb_info) (exts : list (Z * Z))
    : res unit * scoutfs_sb_info :=
  match exts with
  | [] => (Ok tt, sbi)
  | (blkno, order) :: rest =>
      match buddy_free sbi blkno order with
      | (Ok _, sbi) => free_all sbi rest
      | r => r
      end
  end.

Lemma alloc_all_tracked s0 : forall orders s exts,
  format_ok -> super_ok (super s0) -> tracked s0 s exts ->
  exists exts', Permutation exts' (fst (alloc_all s orders) ++ exts) /\
    tracked s0 (snd (alloc_all s orders)) exts'.
Proof.
  induction orders as [|order rest IH]; intros s exts Hf Hsup Htr; cbn [alloc_all].
  - exists exts. split; [reflexivity | exact Htr].
  - destruct (buddy_alloc s order) as [r s1] eqn:Ha.
    destruct r as [[blkno g]|e| |].
    + pose proof (tracked_alloc s0 s exts order blkno g s1 Hf Hsup Htr Ha) as Htr1.
      destruct (IH s1 _ Hf Hsup Htr1) as (exts' & Hperm & Htr').
      exists exts'. cbn [fst snd]. split; [|exact Htr'].
      rewrite Hperm. symmetry. apply Permutation_middle.
    + pose proof Htr as (_ & i & Hset & _ & Hsame & _).
      pose proof (same_but_dirty_fields _ _ Hsame) as (Hs & _).
      apply (buddy_alloc_exact s i) in Ha; auto; [|rewrite Hs; exact Hsup].
      destruct Ha as [[_ ->]|(? & ? & [=] & _)]. apply IH; auto.
    + pose proof Htr as (_ & i & Hset & _ & Hsame & _).
      pose proof (same_but_dirty_fields _ _ Hsame) as (Hs & _).
      apply (buddy_alloc_exact s i) in Ha; auto; [|rewrite Hs; exact Hsup].
      destruct Ha as [[_ ->]|(? & ? & [=] & _)]. apply IH; auto.
    + pose proof Htr as (_ & i & Hset & _ & Hsame & _).
      pose proof (same_but_dirty_fields _ _ Hsame) as (Hs & _).
      apply (buddy_alloc_exact s i) in Ha; auto; [|rewrite Hs; exact Hsup].
      destruct Ha as [[_ ->]|(? & ? & [=] & _)]. apply IH; auto.
Qed.

Lemma free_all_tracked s0 : forall frees s exts,
  format_ok -> super_ok (super s0) -> tracked s0 s exts -> Permutation frees exts ->
  exists s', free_all s frees = (Ok tt, s') /\ tracked s0 s' [].
Proof.
  induction frees as [|e frees IH]; intros s exts Hf Hsup Htr Hperm.
  - apply Permutation_nil in Hperm. subst exts. exists s. split; [reflexivity | exact Htr].
  - assert (Hin : In e exts) by (apply (Permutation_in _ Hperm); left; reflexivity).
    apply in_split in Hin. destruct Hin as (l1 & l2 & ->).
    apply Permutation_cons_app_inv in Hperm.
    destruct (tracked_free s0 s l1 e l2 Hf Hsup Htr) as (s1 & Hfree & Htr1).
    destruct (IH s1 _ Hf Hsup Htr1 Hperm) as (s' & Hall & Htr').
    exists s'. split; [|exact Htr']. cbn [free_all]. destruct e as [blkno g].
    cbn [fst snd] in Hfree. rewrite Hfree. exact Hall.
Qed.


End RoundTrip.

(** * The scenarios, checked *)

Section ScenarioChecks.
#[local] Existing Instance scenario_format.

Lemma scenario_format_ok : format_ok.
Proof. unfold format_ok. cbn. repeat split; try lia; reflexivity. Qed.

Lemma scenario_super_ok : super_ok scenario_super.
Proof. unfold super_ok. cbn. lia. Qed.

Lemma scenario_slot_rest {A : Type} (d x : A) (sl : Z) :
  1 <= sl -> aget d (x :: replicate 255 d) sl = d.
Proof.
  intros Hsl. unfold aget. destruct (Z.to_nat sl) as [|n] eqn:E; [lia|].
  cbn [lookup list_lookup]. destruct (replicate 255 d !! n) eqn:E2; [|reflexivity].
  apply lookup_replicate in E2. destruct E2 as [-> _]. reflexivity.
Qed.

Lemma scenario_readable (bud st_bud : scoutfs_buddy_block) :
  volume_readable (scenario_volume (scenario_blocks bud) (scenario_blocks st_bud))
    (scenario_ind bud) (scenario_ind st_bud).
Proof.
  unfold volume_readable. cbn [super stable_super scenario_volume scenario_super
    buddy_ind_ref dirty stable ind scenario_blocks buds].
  split; [lia|]. split; [lia|]. split; [reflexivity|]. split; [reflexivity|].
  intros sl Hsl Hd Hs. destruct (Z.eq_dec sl 0) as [->|Hne].
  - cbn. repeat split; try lia; eauto.
  - exfalso. apply Hd. unfold scenario_ind. cbn [slots].
    rewrite scenario_slot_rest by lia. reflexivity.
Qed.


Lemma pair_of_fst {A B : Type} (p : A * B) (a : A) : fst p = a -> p = (a, snd p).
Proof. intros <-. apply surjective_pairing. Qed.

(** On the fresh volume [buddy_alloc] gives block 24, which is free in
    both views. *)
Lemma alloc_returns_free_in_both_views_witness :
  format_ok /\ super_ok (super fresh_volume) /\
  buddy_blocks (stable_super fresh_volume) = buddy_blocks (super fresh_volume) /\
  buddy_alloc fresh_volume 0 = (Ok (24, 0), snd (buddy_alloc fresh_volume 0)) /\
  free_in (stable_super fresh_volume) (stable fresh_volume) 24 /\
  (free_in (super fresh_volume) (dirty fresh_volume) 24 \/
   slot_unused (super fresh_volume) (dirty fresh_volume) 24).
Proof.
  assert (Ha : buddy_alloc fresh_volume 0 = (Ok (24, 0), snd (buddy_alloc fresh_volume 0))).
  { apply pair_of_fst. vm_compute. reflexivity. }
  refine (conj scenario_format_ok (conj scenario_super_ok (conj eq_refl (conj Ha _)))).
  destruct (alloc_returns_free_in_both_views fresh_volume scenario_format_ok
              scenario_super_ok eq_refl) as [_ Hb].
  apply (Hb 0 24 0 _ Ha 0). vm_compute. split; [discriminate | reflexivity].
Defined.

(** On the fresh volume [bitmap_alloc] gives block 21, the block of bit
    1, the lowest bit of the bitmap blocks. *)
Lemma bitmap_alloc_lowest_common_bit_witness :
  format_ok /\ 0 <= buddy_blocks (super fresh_volume) < 2 ^ 31 /\
  fst (bitmap_alloc fresh_volume) = Ok 21 /\
  ((exists d,
      0 <= d < buddy_blocks (super fresh_volume) /\
      both_set 14 14 d = true /\
      (forall j, 0 <= j < d -> both_set 14 14 j = false) /\
      bitmap_alloc fresh_volume =
        (Ok (SCOUTFS_BUDDY_BM_BLKNO + SCOUTFS_BUDDY_BM_NR + d),
         bitmap_taken fresh_volume {| bm_bits := 14 |} d) /\
      stable (bitmap_taken fresh_volume {| bm_bits := 14 |} d) = stable fresh_volume)
   \/
   ((forall j, 0 <= j < buddy_blocks (super fresh_volume) -> both_set 14 14 j = false) /\
    bitmap_alloc fresh_volume = (Err ENOSPC, fresh_volume))).
Proof.
  refine (conj scenario_format_ok (conj scenario_super_ok (conj _ _))).
  { vm_compute. reflexivity. }
  destruct (bitmap_alloc_lowest_common_bit fresh_volume scenario_format_ok scenario_super_ok)
    as [_ Hfound].
  assert (H18 : buddy_bm_ref (super fresh_volume) <> 0) by (vm_compute; discriminate).
  exact (Hfound {| bm_bits := 14 |} {| bm_bits := 14 |} H18 H18 eq_refl eq_refl).
Defined.

(** On the volume whose only free block is 25 a request of order 2 is
    granted order 0, after [-ENOSPC] for the orders 2 and 1. *)
Lemma buddy_alloc_grants_at_most_order_witness :
  format_ok /\ super_ok (super fragmented_volume) /\
  buddy_blocks (stable_super fragmented_volume) = buddy_blocks (super fragmented_volume) /\
  0 <= 2 < SCOUTFS_BUDDY_ORDERS /\
  buddy_alloc fragmented_volume 2 = (Ok (25, 0), snd (buddy_alloc fragmented_volume 2)) /\
  0 <= 0 <= 2 /\
  (exists sbi_pre, retried fragmented_volume 2 sbi_pre 0 /\
     alloc_order sbi_pre 0 = (Ok 25, snd (buddy_alloc fragmented_volume 2))) /\
  valid_order (super fragmented_volume) 25 0 = true.
Proof.
  assert (Ha : buddy_alloc fragmented_volume 2
               = (Ok (25, 0), snd (buddy_alloc fragmented_volume 2))).
  { apply pair_of_fst. vm_compute. reflexivity. }
  assert (Ho : 0 <= 2 < SCOUTFS_BUDDY_ORDERS) by (vm_compute; split; [discriminate|reflexivity]).
  refine (conj scenario_format_ok (conj scenario_super_ok (conj eq_refl (conj Ho (conj Ha _))))).
  destruct (buddy_alloc_grants_at_most_order fragmented_volume 2 25 0 _ scenario_format_ok
              scenario_super_ok eq_refl Ho Ha) as (Hg & Hr & Hv & _).
  exact (conj Hg (conj Hr Hv)).
Defined.

(** On the volume whose stable buddy block cannot be read, a request of
    order 1 gets [-ENOSPC] for order 1 and [-EIO] for order 0, and that
    is what [buddy_alloc] returns. *)
Lemma buddy_alloc_stops_at_other_errors_witness :
  0 <= 0 /\ 1 < SCOUTFS_BUDDY_ORDERS /\
  retried unreadable_volume 1 (snd (alloc_order unreadable_volume 1)) 0 /\
  alloc_order (snd (alloc_order unreadable_volume 1)) 0
    = (Err EIO, snd (alloc_order (snd (alloc_order unreadable_volume 1)) 0)) /\
  EIO <> ENOSPC /\
  buddy_alloc unreadable_volume 1
    = (Err EIO, snd (alloc_order (snd (alloc_order unreadable_volume 1)) 0)).
Proof.
  assert (H1 : alloc_order unreadable_volume 1
               = (Err ENOSPC, snd (alloc_order unreadable_volume 1))).
  { apply pair_of_fst. vm_compute. reflexivity. }
  assert (H0 : alloc_order (snd (alloc_order unreadable_volume 1)) 0
               = (Err EIO, snd (alloc_order (snd (alloc_order unreadable_volume 1)) 0))).
  { apply pair_of_fst. vm_compute. reflexivity. }
  assert (Hr : retried unreadable_volume 1 (snd (alloc_order unreadable_volume 1)) 0).
  { eapply retried_lower; [exact H1|]. apply retried_here. }
  assert (Hg : 0 <= 0) by lia.
  assert (Ho : 1 < SCOUTFS_BUDDY_ORDERS) by (vm_compute; reflexivity).
  assert (He : EIO <> ENOSPC) by discriminate.
  refine (conj Hg (conj Ho (conj Hr (conj H0 (conj He _))))).
  exact (buddy_alloc_stops_at_other_errors unreadable_volume 1 0 _ _ EIO Hg Ho Hr H0 He).
Defined.






(** On the fresh volume the first call for block 0 of inode 1 allocates
    block 24; the second call gives block 24 again and changes nothing. *)
Lemma map_writable_block_reuses_witness :
  format_ok /\ super_ok (super fresh_volume) /\
  buddy_blocks (stable_super fresh_volume) = buddy_blocks (super fresh_volume) /\
  buddy_bm_ref (super fresh_volume) <> 0 /\ buddy_bm_ref (stable_super fresh_volume) <> 0 /\
  btree_update_err fresh_volume = None /\
  reservoir_fresh fresh_volume /\
  map_writable_block fresh_volume 1 0
    = (Ok 24, snd (map_writable_block fresh_volume 1 0)) /\
  map_writable_block (snd (map_writable_block fresh_volume 1 0)) 1 0
    = (Ok 24, snd (map_writable_block fresh_volume 1 0)).
Proof.
  assert (H18 : buddy_bm_ref (super fresh_volume) <> 0) by (vm_compute; discriminate).
  assert (Hlen : forall bmap, btree fresh_volume !! set_bmap_key 1 0 = Some bmap ->
                   length bmap = Z.to_nat SCOUTFS_BLOCK_MAP_COUNT).
  { intros bmap H. cbn [btree fresh_volume scenario_volume] in H.
    rewrite lookup_empty in H. discriminate. }
  assert (Hres : reservoir_fresh fresh_volume).
  { intros Hc. exfalso. apply Hc. reflexivity. }
  assert (Hfirst : map_writable_block fresh_volume 1 0
                   = (Ok 24, snd (map_writable_block fresh_volume 1 0))).
  { apply pair_of_fst. vm_compute. reflexivity. }
  refine (conj scenario_format_ok (conj scenario_super_ok (conj eq_refl (conj H18 (conj H18
            (conj eq_refl (conj Hres (conj Hfirst _)))))))).
  destruct (map_writable_block_reuses fresh_volume 1 0 24 _ scenario_format_ok
              scenario_super_ok eq_refl H18 H18 eq_refl Hlen Hres Hfirst)
    as (_ & _ & _ & _ & _ & Hsecond).
  exact Hsecond.
Defined.

(** On the volume whose stable buddy block cannot be read, the call
    inserts a map item, gets [-EIO] for the new block and deletes the
    item again. *)
Lemma map_writable_block_rolls_back_witness :
  writable_bmap unreadable_volume (set_bmap_key 1 0)
    = (Ok (replicate (Z.to_nat SCOUTFS_BLOCK_MAP_COUNT) 0, true),
       snd (writable_bmap unreadable_volume (set_bmap_key 1 0))) /\
  fst (alloc_file_block (snd (writable_bmap unreadable_volume (set_bmap_key 1 0)))) = Err EIO /\
  exists sbi',
    map_writable_block unreadable_volume 1 0 = (Err EIO, sbi') /\
    btree sbi' = btree unreadable_volume.
Proof.
  assert (Hw : writable_bmap unreadable_volume (set_bmap_key 1 0)
               = (Ok (replicate (Z.to_nat SCOUTFS_BLOCK_MAP_COUNT) 0, true),
                  snd (writable_bmap unreadable_volume (set_bmap_key 1 0)))).
  { apply pair_of_fst. vm_compute. reflexivity. }
  assert (Ha : fst (alloc_file_block (snd (writable_bmap unreadable_volume (set_bmap_key 1 0))))
               = Err EIO) by (vm_compute; reflexivity).
  refine (conj Hw (conj Ha _)).
  destruct (map_writable_block_rolls_back unreadable_volume 1 0 _ _ _ Hw) as (_ & Hroll & _).
  destruct (Hroll EIO _ (or_introl (aget_replicate_0 _ _)) (pair_of_fst _ _ Ha))
    as (sbi' & Hret & Hbt & _).
  exists sbi'. exact (conj Hret Hbt).
Defined.

Lemma scenario_orders k : 0 <= k < SCOUTFS_BUDDY_ORDERS -> k = 0 \/ k = 1 \/ k = 2 \/ k = 3 \/ k = 4.
Proof. cbn. lia. Qed.

Lemma two_blocks_bits p :
  0 <= p -> Z.testbit 6 p = true -> p = 1 \/ p = 2.
Proof.
  intros Hp H. destruct (Z.le_gt_cases p 2) as [Hle|Hgt].
  - assert (Hc : p = 0 \/ p = 1 \/ p = 2) by lia.
    destruct Hc as [->|[->| ->]]; [discriminate | auto | auto].
  - rewrite Z.bits_above_log2 in H; [discriminate | lia | cbn; lia].
Qed.

Lemma two_blocks_bit k n :
  valid_bit k n -> test_buddy_bit two_blocks_bud k n = true -> k = 0 /\ (n = 1 \/ n = 2).
Proof.
  intros Hv H. unfold test_buddy_bit, test_bit_le in H. cbn [bits two_blocks_bud] in H.
  pose proof (order_nr_nonneg k n scenario_format_ok Hv) as Hnn.
  apply two_blocks_bits in H; [|exact Hnn].
  rewrite (order_nr_valid k n scenario_format_ok Hv) in H.
  pose proof Hv as [Hk Hn].
  destruct (Z.eq_dec k 0) as [->|Hne].
  - change (order_off 0) with 0 in H. split; [reflexivity | lia].
  - pose proof (order_off_mono 0 k scenario_format_ok ltac:(lia) ltac:(lia)) as Hm.
    change (order_off 0 + order_bits 0) with 32768 in Hm. lia.
Qed.

Lemma two_blocks_wf : wf_bits two_blocks_bud.
Proof.
  split; [|split].
  - intros p Hp H. apply two_blocks_bits in H; [|exact Hp].
    destruct H as [->| ->]; [exists 0, 1 | exists 0, 2];
      (split; [vm_compute; repeat split; first [reflexivity | discriminate] | reflexivity]).
  - intros x k k' Hx Hk Hk' H1 H2.
    apply two_blocks_bit in H1; [|apply valid_bit_shift; auto using scenario_format_ok].
    apply two_blocks_bit in H2; [|apply valid_bit_shift; auto using scenario_format_ok].
    lia.
  - intros k n Hv Hk1 H. apply two_blocks_bit in H; [|exact Hv].
    destruct H as [-> [->| ->]]; reflexivity.
Qed.

Lemma scattered_volume_settled : settled scattered_volume (scenario_ind two_blocks_bud).
Proof.
  unfold settled.
  refine (conj _ (conj eq_refl (conj eq_refl (conj eq_refl (conj eq_refl (conj _ (conj _ _))))))).
  - vm_compute. discriminate.
  - intros k Hk.
    destruct (scenario_orders k Hk) as [->|[->|[->|[->| ->]]]]; vm_compute; reflexivity.
  - intros sl Hsl. destruct (Z.eq_dec sl 0) as [->|Hne].
    + intros _. vm_compute. discriminate.
    + unfold scenario_ind. cbn [slots]. rewrite scenario_slot_rest by lia.
      intros H. exfalso. apply H. reflexivity.
  - intros sl bud Hsl. destruct (Z.eq_dec sl 0) as [->|Hne].
    + intros [= <-].
      refine (conj _ (conj two_blocks_wf (conj eq_refl (conj _ eq_refl)))).
      * vm_compute. discriminate.
      * intros k Hk.
        destruct (scenario_orders k Hk) as [->|[->|[->|[->| ->]]]]; vm_compute; reflexivity.
    + cbn [scattered_volume scenario_volume dirty scenario_blocks buds].
      rewrite scenario_slot_rest by lia. discriminate.
Qed.




End ScenarioChecks.
